(** * NullComm: envelope encryption, the message ledger, the composer and
      the inbox

    A shallow embedding of
      - [app/src/utils/crypto.ts], the envelope cipher of the web client, and
        its copy in the task script [tasks/EncryptedMessenger.ts];
      - the [EncryptedMessenger] contract ([unnamed/part_001]), the
        per-recipient message ledger;
      - [handleSend] of the [MessageComposer] component, and [loadMessages]
        and [handleDecrypt] of the [Inbox] component
        ([app/src/components/MessageComposer.tsx]);
    together with the parts of the JavaScript platform these functions call
    ([btoa]/[atob], [TextEncoder]/[TextDecoder], [String.prototype.split] and
    [trim], [parseInt], [ethers.getAddress]).  The cryptographic primitives
    (SHA-256, Keccak-256, AES-GCM) are a [Platform] record: the code only
    calls them. *)

From Stdlib Require Import ZArith List Lia Bool Ascii String.
From Stdlib.Strings Require Import Byte.
From stdpp Require Import base option list gmap.

Local Open Scope Z_scope.
Import ListNotations.

(** ** JavaScript values *)

Module JS.

(** A JavaScript string is a sequence of UTF-16 code units. *)
Definition jsstring := list Z.

(** The code units of an ASCII literal. *)
Definition lit (s : string) : jsstring :=
  map (fun a => Z.of_N (N_of_ascii a)) (list_ascii_of_string s).

(** A [Uint8Array] (or [Buffer]) is a sequence of bytes. *)
Definition bytes := list byte.

#[global] Instance byte_eq_decision : EqDecision byte := Byte.byte_eq_dec.

Definition byte_val (b : byte) : Z := Z.of_N (Byte.to_N b).

(** Storing a number into a [Uint8Array] keeps it modulo 256. *)
Definition to_uint8 (z : Z) : byte :=
  match Byte.of_N (Z.to_N (z mod 256)) with
  | Some b => b
  | None => x00
  end.

(** Exceptions the modelled code can raise. *)
Inductive exn :=
| Error (message : jsstring)        (* [throw new Error(message)] in the repository *)
| InvalidCharacterError             (* DOMException of [atob] / [btoa] *)
| OperationError                    (* WebCrypto: the cipher rejected its input *)
| DataError                         (* WebCrypto: [importKey] refused the key *)
| InvalidAddress                    (* ethers: [getAddress] refused its argument *).

Inductive result (A : Type) :=
| Ok (a : A)
| Throw (e : exn).
Arguments Ok {A} a.
Arguments Throw {A} e.

Definition bind {A B} (r : result A) (k : A -> result B) : result B :=
  match r with
  | Ok a => k a
  | Throw e => Throw e
  end.

Definition of_option {A} (e : exn) (o : option A) : result A :=
  match o with
  | Some a => Ok a
  | None => Throw e
  end.

(** *** [String.prototype.startsWith], [slice], [padStart], [split] *)

Fixpoint startsWith (s p : jsstring) {struct p} : bool :=
  match p, s with
  | [], _ => true
  | c :: p', d :: s' => (c =? d) && startsWith s' p'
  | _ :: _, [] => false
  end.

(** [s.slice(n)] for [0 <= n]. *)
Definition slice_from (n : nat) (s : jsstring) : jsstring := drop n s.

(** [s.padStart(n, c)] for a one-unit filler [c]. *)
Definition padStart (n : nat) (c : Z) (s : jsstring) : jsstring :=
  repeat c (n - length s) ++ s.

(** [s.split(sep)] for a one-unit separator: the pieces between separators,
    in order; a string without separator is the only piece. *)
Fixpoint split (sep : Z) (s : jsstring) : list jsstring :=
  match s with
  | [] => [[]]
  | c :: s' =>
      if c =? sep then [] :: split sep s'
      else match split sep s' with
           | p :: ps => (c :: p) :: ps
           | [] => [[c]]
           end
  end.

(** [xs.slice(start, end)] of a typed array of length [len], with relative
    (possibly negative) indices. *)
Definition rel_index (len i : Z) : Z :=
  if i <? 0 then Z.max (len + i) 0 else Z.min i len.

Definition array_slice {A} (start stop : Z) (xs : list A) : list A :=
  let len := Z.of_nat (length xs) in
  let k := rel_index len start in
  let final := rel_index len stop in
  take (Z.to_nat (final - k)) (drop (Z.to_nat k) xs).

(** [xs.slice(start)]: up to the end. *)
Definition array_slice_from {A} (start : Z) (xs : list A) : list A :=
  let len := Z.of_nat (length xs) in
  drop (Z.to_nat (rel_index len start)) xs.

(** *** [btoa] and [atob] (WHATWG forgiving base64) *)

Definition b64_char (v : Z) : Z :=
  if v <? 26 then 65 + v
  else if v <? 52 then 97 + (v - 26)
  else if v <? 62 then 48 + (v - 52)
  else if v =? 62 then 43
  else 47.

Definition b64_value (c : Z) : option Z :=
  if (65 <=? c) && (c <=? 90) then Some (c - 65)
  else if (97 <=? c) && (c <=? 122) then Some (c - 97 + 26)
  else if (48 <=? c) && (c <=? 57) then Some (c - 48 + 52)
  else if c =? 43 then Some 62
  else if c =? 47 then Some 63
  else None.

(** The padding character [=]. *)
Definition pad : Z := 61.

Fixpoint b64_encode (bs : list Z) : jsstring :=
  match bs with
  | [] => []
  | [a] => [b64_char (a / 4); b64_char ((a mod 4) * 16); pad; pad]
  | [a; b] =>
      [b64_char (a / 4); b64_char ((a mod 4) * 16 + b / 16);
       b64_char ((b mod 16) * 4); pad]
  | a :: b :: c :: rest =>
      b64_char (a / 4) :: b64_char ((a mod 4) * 16 + b / 16)
      :: b64_char ((b mod 16) * 4 + c / 64) :: b64_char (c mod 64)
      :: b64_encode rest
  end.

(** [btoa(binary)]: fails on a code unit above 0xFF. *)
Definition btoa (binary : jsstring) : result jsstring :=
  if forallb (fun c => (0 <=? c) && (c <=? 255)) binary
  then Ok (b64_encode binary)
  else Throw InvalidCharacterError.

Definition is_ascii_whitespace (c : Z) : bool :=
  (c =? 9) || (c =? 10) || (c =? 12) || (c =? 13) || (c =? 32).

(** Remove one or two trailing [=]. *)
Fixpoint strip_padding (s : jsstring) : jsstring :=
  match s with
  | [] => []
  | c :: r =>
      match r with
      | [] => if c =? pad then [] else [c]
      | [d] => if (c =? pad) && (d =? pad) then [] else c :: strip_padding r
      | _ => c :: strip_padding r
      end
  end.

Fixpoint b64_values (s : jsstring) : option (list Z) :=
  match s with
  | [] => Some []
  | c :: r =>
      match b64_value c, b64_values r with
      | Some v, Some vs => Some (v :: vs)
      | _, _ => None
      end
  end.

(** Groups of four sextets give three bytes; a last group of two or three
    gives one or two bytes, its spare bits dropped. *)
Fixpoint b64_decode_values (vs : list Z) : list Z :=
  match vs with
  | a :: b :: c :: d :: rest =>
      (a * 4 + b / 16) :: ((b mod 16) * 16 + c / 4) :: ((c mod 4) * 64 + d)
      :: b64_decode_values rest
  | [a; b; c] => [a * 4 + b / 16; (b mod 16) * 16 + c / 4]
  | [a; b] => [a * 4 + b / 16]
  | _ => []
  end.

(** [atob(data)]: the binary string, or failure. *)
Definition atob (data : jsstring) : result jsstring :=
  let d1 := List.filter (fun c => negb (is_ascii_whitespace c)) data in
  let d2 := if Z.of_nat (length d1) mod 4 =? 0 then strip_padding d1 else d1 in
  if Z.of_nat (length d2) mod 4 =? 1 then Throw InvalidCharacterError
  else match b64_values d2 with
       | Some vs => Ok (b64_decode_values vs)
       | None => Throw InvalidCharacterError
       end.

(** *** [TextEncoder.prototype.encode] (UTF-8 encode of the USVString) *)

Definition is_high_surrogate (c : Z) : bool := (0xD800 <=? c) && (c <=? 0xDBFF).
Definition is_low_surrogate (c : Z) : bool := (0xDC00 <=? c) && (c <=? 0xDFFF).

(** Conversion to scalar values: a surrogate pair is one code point, a
    surrogate on its own becomes U+FFFD. *)
Fixpoint code_points (s : jsstring) : list Z :=
  match s with
  | [] => []
  | c :: rest =>
      if is_high_surrogate c then
        match rest with
        | d :: rest' =>
            if is_low_surrogate d
            then (0x10000 + (c - 0xD800) * 0x400 + (d - 0xDC00)) :: code_points rest'
            else 0xFFFD :: code_points rest
        | [] => [0xFFFD]
        end
      else if is_low_surrogate c then 0xFFFD :: code_points rest
      else c :: code_points rest
  end.

Definition utf8_encode_code_point (cp : Z) : bytes :=
  if cp <? 0x80 then [to_uint8 cp]
  else if cp <? 0x800 then
    [to_uint8 (0xC0 + cp / 64); to_uint8 (0x80 + cp mod 64)]
  else if cp <? 0x10000 then
    [to_uint8 (0xE0 + cp / 4096); to_uint8 (0x80 + (cp / 64) mod 64);
     to_uint8 (0x80 + cp mod 64)]
  else
    [to_uint8 (0xF0 + cp / 262144); to_uint8 (0x80 + (cp / 4096) mod 64);
     to_uint8 (0x80 + (cp / 64) mod 64); to_uint8 (0x80 + cp mod 64)].

Definition TextEncoder_encode (s : jsstring) : bytes :=
  flat_map utf8_encode_code_point (code_points s).

(** [String.prototype.isWellFormed]: no surrogate on its own. *)
Fixpoint isWellFormed (s : jsstring) : bool :=
  match s with
  | [] => true
  | c :: rest =>
      if is_high_surrogate c then
        match rest with
        | d :: rest' => is_low_surrogate d && isWellFormed rest'
        | [] => false
        end
      else negb (is_low_surrogate c) && isWellFormed rest
  end.

(** Every element is a UTF-16 code unit. *)
Definition code_units (s : jsstring) : Prop :=
  Forall (fun c => 0 <= c < 0x10000) s.

(** *** [TextDecoder.prototype.decode] (UTF-8, replacement, BOM removed) *)

Record utf8_decoder := {
  code_point : Z;
  bytes_seen : Z;
  bytes_needed : Z;
  lower_boundary : Z;
  upper_boundary : Z
}.

Definition utf8_initial : utf8_decoder :=
  {| code_point := 0; bytes_seen := 0; bytes_needed := 0;
     lower_boundary := 0x80; upper_boundary := 0xBF |}.

(** A byte read when no continuation byte is expected. *)
Definition utf8_lead (b : Z) : list Z * utf8_decoder :=
  if b <=? 0x7F then ([b], utf8_initial)
  else if (0xC2 <=? b) && (b <=? 0xDF) then
    ([], {| code_point := b mod 32; bytes_seen := 0; bytes_needed := 1;
            lower_boundary := 0x80; upper_boundary := 0xBF |})
  else if (0xE0 <=? b) && (b <=? 0xEF) then
    ([], {| code_point := b mod 16; bytes_seen := 0; bytes_needed := 2;
            lower_boundary := if b =? 0xE0 then 0xA0 else 0x80;
            upper_boundary := if b =? 0xED then 0x9F else 0xBF |})
  else if (0xF0 <=? b) && (b <=? 0xF4) then
    ([], {| code_point := b mod 8; bytes_seen := 0; bytes_needed := 3;
            lower_boundary := if b =? 0xF0 then 0x90 else 0x80;
            upper_boundary := if b =? 0xF4 then 0x8F else 0xBF |})
  else ([0xFFFD], utf8_initial).

(** One byte: the code points it completes, and the next state.  A byte
    that cannot continue the sequence ends it with U+FFFD and is read again
    as a lead byte. *)
Definition utf8_step (st : utf8_decoder) (b : Z) : list Z * utf8_decoder :=
  if bytes_needed st =? 0 then utf8_lead b
  else if (lower_boundary st <=? b) && (b <=? upper_boundary st) then
    let cp := code_point st * 64 + b mod 64 in
    if bytes_seen st + 1 =? bytes_needed st then ([cp], utf8_initial)
    else ([], {| code_point := cp; bytes_seen := bytes_seen st + 1;
                 bytes_needed := bytes_needed st;
                 lower_boundary := 0x80; upper_boundary := 0xBF |})
  else
    let '(out, st') := utf8_lead b in (0xFFFD :: out, st').

Fixpoint utf8_run (st : utf8_decoder) (bs : bytes) : list Z :=
  match bs with
  | [] => if bytes_needed st =? 0 then [] else [0xFFFD]
  | b :: rest =>
      let '(out, st') := utf8_step st (byte_val b) in
      out ++ utf8_run st' rest
  end.

Definition utf16_units (cp : Z) : jsstring :=
  if cp <? 0x10000 then [cp]
  else [0xD800 + (cp - 0x10000) / 0x400; 0xDC00 + (cp - 0x10000) mod 0x400].

(** The decoder is created with the default options: the byte order mark
    U+FEFF at the start of the output is dropped. *)
Definition drop_bom (cps : list Z) : list Z :=
  match cps with
  | c :: rest => if c =? 0xFEFF then rest else cps
  | [] => []
  end.

Definition TextDecoder_decode (bs : bytes) : jsstring :=
  flat_map utf16_units (drop_bom (utf8_run utf8_initial bs)).

(** *** [parseInt(s, 16)] *)

Definition is_js_whitespace (c : Z) : bool :=
  ((9 <=? c) && (c <=? 13)) || (c =? 32) || (c =? 0xA0) || (c =? 0x1680)
  || ((0x2000 <=? c) && (c <=? 0x200A)) || (c =? 0x2028) || (c =? 0x2029)
  || (c =? 0x202F) || (c =? 0x205F) || (c =? 0x3000) || (c =? 0xFEFF).

Definition hex_value (c : Z) : option Z :=
  if (48 <=? c) && (c <=? 57) then Some (c - 48)
  else if (97 <=? c) && (c <=? 102) then Some (c - 97 + 10)
  else if (65 <=? c) && (c <=? 70) then Some (c - 65 + 10)
  else None.

(** The value of the longest prefix of hexadecimal digits, [None] when
    that prefix is empty. *)
Fixpoint hex_prefix (acc : option Z) (s : jsstring) : option Z :=
  match s with
  | [] => acc
  | c :: rest =>
      match hex_value c with
      | Some v => hex_prefix (Some (default 0 acc * 16 + v)) rest
      | None => acc
      end
  end.

Fixpoint trim_start (s : jsstring) : jsstring :=
  match s with
  | c :: rest => if is_js_whitespace c then trim_start rest else s
  | [] => []
  end.

(** [None] is [NaN]. *)
Definition parseInt16 (s : jsstring) : option Z :=
  let s1 := trim_start s in
  let '(sign, s2) :=
    match s1 with
    | c :: r => if c =? 45 then (-1, r) else if c =? 43 then (1, r) else (1, s1)
    | [] => (1, s1)
    end in
  let s3 :=
    match s2 with
    | z :: x :: r => if (z =? 48) && ((x =? 120) || (x =? 88)) then r else s2
    | _ => s2
    end in
  option_map (Z.mul sign) (hex_prefix None s3).

(** [n.toString(16)] of a bigint. *)
Definition hex_digit (v : Z) : Z := if v <? 10 then 48 + v else 97 + (v - 10).

Fixpoint hex_digits_pos (fuel : nat) (n : Z) (acc : jsstring) : jsstring :=
  match fuel with
  | O => acc
  | S fuel' =>
      if n <? 16 then hex_digit n :: acc
      else hex_digits_pos fuel' (n / 16) (hex_digit (n mod 16) :: acc)
  end.

Definition bigint_toString16 (n : Z) : jsstring :=
  if n <? 0 then 45 :: hex_digits_pos (Z.to_nat (Z.log2 (- n) + 1)) (- n) []
  else hex_digits_pos (Z.to_nat (Z.log2 n + 1)) n [].

Definition toLowerCase_ascii (c : Z) : Z :=
  if (65 <=? c) && (c <=? 90) then c + 32 else c.

Definition toUpperCase_ascii (c : Z) : Z :=
  if (97 <=? c) && (c <=? 122) then c - 32 else c.

End JS.

Import JS.

#[global] Instance result_bind : MBind result := fun A B k r => JS.bind r k.
#[global] Instance result_ret : MRet result := fun A a => Ok a.

(** ** The cryptographic platform

    What [crypto.subtle], [crypto.getRandomValues] and ethers' hash provide.
    AES-GCM works on the ciphertext followed by its 16-byte tag, as WebCrypto
    returns and expects it; [None] is a rejected operation. *)

Class Platform := {
  sha256 : bytes -> bytes;
  keccak256 : bytes -> bytes;
  aes_gcm_encrypt : bytes -> bytes -> bytes -> bytes -> option bytes;
  aes_gcm_decrypt : bytes -> bytes -> bytes -> bytes -> option bytes;
  (** ethers' direct-mode ICAN addresses ([XE..]): the checksummed address
      such a string stands for, when it is one with a good checksum. *)
  ican_address : jsstring -> option jsstring
}.

(** What the code relies on: key, iv, additional data, plaintext in this
    order. *)
Class PlatformLaws (P : Platform) : Prop := {
  sha256_length : forall m, length (sha256 m) = 32%nat;
  aes_gcm_encrypt_length : forall key iv ad pt,
    length key = 32%nat ->
    exists ct, aes_gcm_encrypt key iv ad pt = Some ct
               /\ length ct = (length pt + 16)%nat;
  aes_gcm_decrypt_encrypt : forall key iv ad pt ct,
    aes_gcm_encrypt key iv ad pt = Some ct ->
    aes_gcm_decrypt key iv ad ct = Some pt
}.

(** The secure random source: an unbounded tape of bytes, read once. *)
Record entropy := { tape : nat -> byte; cursor : nat }.

(** [crypto.getRandomValues(new Uint8Array(n))] *)
Definition getRandomValues (n : nat) (g : entropy) : bytes * entropy :=
  (map (tape g) (seq (cursor g) n),
   {| tape := tape g; cursor := (cursor g + n)%nat |}).

(** ** ethers: [getAddress] *)

Module Ethers.
Section WithPlatform.
Context {P : Platform}.

Definition is_hex_digit (c : Z) : bool :=
  match hex_value c with Some _ => true | None => false end.

(** [/^(0x)?[0-9a-fA-F]{40}$/] *)
Definition matches_hex_address (s : jsstring) : bool :=
  let body := if startsWith s (lit "0x") then drop 2 s else s in
  (length body =? 40)%nat && forallb is_hex_digit body.

(** [/([A-F].*[a-f])|([a-f].*[A-F])/] *)
Definition is_mixed_case (s : jsstring) : bool :=
  existsb (fun c => (65 <=? c) && (c <=? 70)) s
  && existsb (fun c => (97 <=? c) && (c <=? 102)) s.

(** The [i]-th nibble of the hash, most significant first. *)
Definition hash_nibble (hashed : bytes) (i : nat) : Z :=
  let b := byte_val (nth (i / 2) hashed x00) in
  if Nat.even i then b / 16 else b mod 16.

Definition getChecksumAddress (address : jsstring) : jsstring :=
  let address := map toLowerCase_ascii address in
  let chars := drop 2 address in
  let expanded := map to_uint8 (take 40 chars) in
  let hashed := keccak256 expanded in
  lit "0x" ++
  imap (fun i c => if 8 <=? hash_nibble hashed i then toUpperCase_ascii c else c)
       chars.

Definition jsstring_eqb (a b : jsstring) : bool :=
  bool_decide (a = b).

Definition getAddress (address : jsstring) : result jsstring :=
  if matches_hex_address address then
    let address := if startsWith address (lit "0x") then address
                   else lit "0x" ++ address in
    let result := getChecksumAddress address in
    if negb (is_mixed_case address) || jsstring_eqb result address
    then Ok result
    else Throw InvalidAddress
  else of_option InvalidAddress (ican_address address).

(** [isAddress]: whether [getAddress] accepts the value. *)
Definition isAddress (value : jsstring) : bool :=
  match getAddress value with
  | Ok _ => true
  | Throw _ => false
  end.

End WithPlatform.
End Ethers.

(** ** [app/src/utils/crypto.ts] *)

Module Crypto.
Section WithPlatform.
Context {P : Platform}.

Definition hexToBytes (hex : jsstring) : bytes :=
  let normalized := if Nat.even (length hex) then hex else 48 :: hex in
  map (fun i =>
         to_uint8 (default 0 (parseInt16 (take 2 (drop (i * 2) normalized)))))
      (seq 0 (length normalized / 2)).

Definition bytesToBase64 (bs : bytes) : result jsstring :=
  let binary := map byte_val bs in
  btoa binary.

Definition base64ToBytes (base64 : jsstring) : result bytes :=
  binary ← atob base64;
  Ok (map to_uint8 binary).

(** [crypto.subtle.importKey('raw', ..., { name: 'AES-GCM' }, ...)]: the
    key must have 128, 192 or 256 bits. *)
Definition importKey (raw : bytes) : result bytes :=
  if (length raw =? 16)%nat || (length raw =? 24)%nat || (length raw =? 32)%nat
  then Ok raw
  else Throw DataError.

Definition deriveKeyFromAddress (address : jsstring) : result bytes :=
  normalized ← Ethers.getAddress address;
  let addressBytes := hexToBytes (slice_from 2 normalized) in
  let hash := sha256 addressBytes in
  importKey hash.

Definition isValidAddress (address : jsstring) : bool :=
  Ethers.isAddress address.

Definition normalizeAddress (address : jsstring) : result jsstring :=
  Ethers.getAddress address.

(** The argument of [normalizeDecryptedAddress]: [string | bigint]. *)
Inductive decrypted_value :=
| VString (s : jsstring)
| VBigInt (n : Z).

Definition normalizeDecryptedAddress (value : decrypted_value) : result jsstring :=
  match value with
  | VString value =>
      normalizeAddress (if startsWith value (lit "0x") then value
                        else lit "0x" ++ value)
  | VBigInt value =>
      let hex := padStart 40 48 (bigint_toString16 value) in
      normalizeAddress (lit "0x" ++ hex)
  end.

(** The separator of the wire encoding, [.] *)
Definition dot : Z := 46.

Definition encryptMessage (message address : jsstring) (g : entropy)
  : result jsstring * entropy :=
  match deriveKeyFromAddress address with
  | Throw e => (Throw e, g)
  | Ok key =>
      let '(iv, g') := getRandomValues 12 g in
      let encoded := TextEncoder_encode message in
      (encrypted ← of_option OperationError (aes_gcm_encrypt key iv [] encoded);
       let tagLength := 16 in
       let data := array_slice 0 (Z.of_nat (length encrypted) - tagLength) encrypted in
       let tag := array_slice_from (Z.of_nat (length encrypted) - tagLength) encrypted in
       b_iv ← bytesToBase64 iv;
       b_data ← bytesToBase64 data;
       b_tag ← bytesToBase64 tag;
       Ok (b_iv ++ [dot] ++ b_data ++ [dot] ++ b_tag),
       g')
  end.

Definition invalid_payload : exn :=
  Error (lit "Invalid encrypted message payload").

Definition decryptMessage (payload address : jsstring) : result jsstring :=
  let parts := split dot payload in
  match parts with
  | [ivB64; dataB64; tagB64] =>
      iv ← base64ToBytes ivB64;
      data ← base64ToBytes dataB64;
      tag ← base64ToBytes tagB64;
      let combined := data ++ tag in
      key ← deriveKeyFromAddress address;
      decrypted ← of_option OperationError (aes_gcm_decrypt key iv [] combined);
      Ok (TextDecoder_decode decrypted)
  | _ => Throw invalid_payload
  end.

End WithPlatform.
End Crypto.

(** ** Identifiers as bytes

    A one-time identifier is 20 bytes; its address is [0x] and the forty
    hexadecimal digits of the bytes, and the store holds it as the number
    the bytes spell, most significant first. *)

Definition to_hex2 (b : byte) : jsstring :=
  [hex_digit (byte_val b / 16); hex_digit (byte_val b mod 16)].

Definition hex_of_bytes (bs : bytes) : jsstring := flat_map to_hex2 bs.

Definition address_of_bytes (id : bytes) : jsstring :=
  lit "0x" ++ hex_of_bytes id.

Definition be_value (bs : bytes) : Z :=
  fold_left (fun acc b => acc * 256 + byte_val b) bs 0.

(** The base64 text of a byte sequence. *)
Definition base64 (bs : bytes) : jsstring := b64_encode (map byte_val bs).

Import Crypto.

(** ** Predicates and functions the statements use *)

Definition octet (z : Z) : Prop := 0 <= z < 256.

(** The sextets of a byte sequence, without padding. *)
Fixpoint sextets (bs : list Z) : list Z :=
  match bs with
  | [] => []
  | [a] => [a / 4; (a mod 4) * 16]
  | [a; b] => [a / 4; (a mod 4) * 16 + b / 16; (b mod 16) * 4]
  | a :: b :: c :: rest =>
      a / 4 :: (a mod 4) * 16 + b / 16 :: (b mod 16) * 4 + c / 64 :: c mod 64
      :: sextets rest
  end.

Definition sextet (z : Z) : Prop := 0 <= z < 64.

Definition scalar (cp : Z) : Prop :=
  0 <= cp < 0x110000 /\ ~ (0xD800 <= cp <= 0xDFFF).

(** A well-formed string: units that are no surrogates, and pairs. *)
Inductive well_formed : jsstring -> Prop :=
| wf_nil : well_formed []
| wf_unit c s :
    0 <= c < 0x10000 -> is_high_surrogate c = false ->
    is_low_surrogate c = false -> well_formed s -> well_formed (c :: s)
| wf_pair h l s :
    is_high_surrogate h = true -> is_low_surrogate l = true ->
    well_formed s -> well_formed (h :: l :: s).

Definition nibble (v : Z) : Prop := 0 <= v < 16.

(** [s] spells [bs]: two digits of either case for each byte. *)
Definition spells (s : jsstring) (bs : bytes) : Prop :=
  map hex_value s
  = flat_map (fun b => [Some (byte_val b / 16); Some (byte_val b mod 16)]) bs.

(** An address with the prefix: forty digits after [0x]. *)
Definition hex_body (body : jsstring) : Prop :=
  length body = 40%nat /\ forallb Ethers.is_hex_digit body = true.

(** The [n] low hexadecimal digits of [v], most significant first. *)
Fixpoint hex_fixed (n : nat) (v : Z) : jsstring :=
  match n with
  | O => []
  | S n' => hex_fixed n' (v / 16) ++ [hex_digit (v mod 16)]
  end.

(** The [n] bytes of [v], most significant first. *)
Fixpoint be_bytes (n : nat) (v : Z) : bytes :=
  match n with
  | O => []
  | S n' => be_bytes n' (v / 256) ++ [to_uint8 (v mod 256)]
  end.

(** ** [tasks/EncryptedMessenger.ts]: the same cipher on Node *)

Module Task.

(** What Node's [Buffer] and [crypto] give the task script.  [gcm_seal] is
    [createCipheriv("aes-256-gcm", key, iv)] with [update], [final] and
    [getAuthTag]: the ciphertext and the tag; [gcm_open] is
    [createDecipheriv] with [setAuthTag], [update] and [final]; [None] is a
    thrown error.  Decoding base64 with [Buffer.from] never fails.  The
    script's [randomBytes] reads the random source, [update(message, "utf8")]
    encodes like [TextEncoder], [toString("base64")] is the base64 text and
    [createHash("sha256")] the platform's hash. *)
Class Node := {
  Buffer_from_hex : jsstring -> bytes;
  Buffer_from_base64 : jsstring -> bytes;
  Buffer_toString_utf8 : bytes -> jsstring;
  gcm_seal : bytes -> bytes -> bytes -> option (bytes * bytes);
  gcm_open : bytes -> bytes -> bytes -> bytes -> option bytes
}.

Class NodeLaws (P : Platform) (N : Node) : Prop := {
  node_sha256_length : forall m, length (sha256 m) = 32%nat;
  Buffer_from_hex_digits : forall s bs, spells s bs -> Buffer_from_hex s = bs;
  Buffer_from_base64_text : forall bs, Buffer_from_base64 (base64 bs) = bs;
  Buffer_toString_utf8_text : forall s,
    code_units s -> isWellFormed s = true ->
    Buffer_toString_utf8 (TextEncoder_encode s) = s;
  gcm_seal_tag : forall key iv pt,
    length key = 32%nat -> iv <> [] ->
    exists ct tag, gcm_seal key iv pt = Some (ct, tag) /\ length tag = 16%nat;
  gcm_open_seal : forall key iv pt ct tag,
    gcm_seal key iv pt = Some (ct, tag) -> gcm_open key iv tag ct = Some pt
}.

Section WithNode.
Context {P : Platform} {N : Node}.

Definition deriveKeyFromAddress (address : jsstring) : result bytes :=
  normalized ← Ethers.getAddress address;
  let addressBytes := Buffer_from_hex (slice_from 2 normalized) in
  Ok (sha256 addressBytes).

Definition encryptMessageWithAddress (message address : jsstring) (g : entropy)
  : result jsstring * entropy :=
  match deriveKeyFromAddress address with
  | Throw e => (Throw e, g)
  | Ok key =>
      let '(iv, g') := getRandomValues 12 g in
      ('(ciphertext, tag) ← of_option OperationError
                              (gcm_seal key iv (TextEncoder_encode message));
       Ok (base64 iv ++ [dot] ++ base64 ciphertext ++ [dot] ++ base64 tag),
       g')
  end.

Definition decryptMessageWithAddress (payload address : jsstring)
  : result jsstring :=
  let parts := split dot payload in
  match parts with
  | [ivB64; cipherB64; tagB64] =>
      let iv := Buffer_from_base64 ivB64 in
      let ciphertext := Buffer_from_base64 cipherB64 in
      let tag := Buffer_from_base64 tagB64 in
      key ← deriveKeyFromAddress address;
      plaintext ← of_option OperationError (gcm_open key iv tag ciphertext);
      Ok (Buffer_toString_utf8 plaintext)
  | _ => Throw invalid_payload
  end.

Definition normalizeDecryptedAddress (value : decrypted_value) : result jsstring :=
  match value with
  | VString value =>
      Ethers.getAddress (if startsWith value (lit "0x") then value
                         else lit "0x" ++ value)
  | VBigInt value =>
      let hex := padStart 40 48 (bigint_toString16 value) in
      Ethers.getAddress (lit "0x" ++ hex)
  end.

End WithNode.
End Task.

(** ** The [EncryptedMessenger] contract ([unnamed/part_001]) *)

Module Messenger.

(** [address]: a 160-bit number; [address(0)] is [0]. *)
Definition address := N.
(** [eaddress]: the handle of an encrypted address held by the FHE
    coprocessor; [externalEaddress]: the handle of an input not yet checked. *)
Definition eaddress := N.
Definition externalEaddress := N.

Record Message := {
  sender : address;
  encryptedMessage : list byte;
  encryptedKey : eaddress;
  timestamp : N
}.

(** The FHE library the contract calls, as far as the contract uses it:
    [FHE.fromExternal] checks the input proof for the calling contract and
    the transaction sender and gives the handle, or reverts. *)
Class FHEVM := {
  fromExternal :
    address (* this *) -> address (* msg.sender *) ->
    externalEaddress -> list byte (* inputProof *) -> option eaddress
}.

Inductive event :=
| MessageSent (sender recipient : address) (index : N).

(** What a transaction works on: the contract's mapping, the pairs
    (handle, account) the access control list of the FHE library was told to
    allow for good, and the events emitted so far. *)
Record state := {
  _messages : gmap address (list Message);
  acl : gset (eaddress * address);
  logs : list event
}.

(** The state after deployment. *)
Definition deployed : state := {| _messages := ∅; acl := ∅; logs := [] |}.

(** What a call sees of its transaction. *)
Record env := {
  msg_sender : address;
  block_timestamp : N
}.

Inductive failure :=
| Require (reason : string)     (* a failed [require] *)
| InputRefused                  (* [FHE.fromExternal] reverted *).

(** A statement: a value or a failure, and the state it leaves when it
    stops. *)
Definition stmt (A : Type) : Type := state -> (A + failure) * state.

Definition and_then {A B} (m : stmt A) (k : A -> stmt B) : stmt B :=
  fun st =>
    match m st with
    | (inl a, st') => k a st'
    | (inr f, st') => (inr f, st')
    end.

Notation "x <~ m ;; k" := (and_then m (fun x => k))
  (at level 100, m at next level, right associativity).
Notation "m ;;; k" := (and_then m (fun _ => k))
  (at level 100, right associativity).

Definition require (cond : bool) (reason : string) : stmt unit :=
  fun st => if cond then (inl tt, st) else (inr (Require reason), st).

(** [_messages[recipient]]: an absent key is the empty array. *)
Definition messages_of (st : state) (recipient : address) : list Message :=
  default [] (_messages st !! recipient).

Definition push (recipient : address) (m : Message) : stmt unit :=
  fun st =>
    (inl tt,
     {| _messages := <[recipient := messages_of st recipient ++ [m]]> (_messages st);
        acl := acl st; logs := logs st |}).

Definition emit (ev : state -> event) : stmt unit :=
  fun st =>
    (inl tt,
     {| _messages := _messages st; acl := acl st; logs := logs st ++ [ev st] |}).

Section Contract.
Context {F : FHEVM}.
(** [address(this)] *)
Variable this : address.

Definition FHE_fromExternal (e : env) (encryptedKey : externalEaddress)
    (inputProof : list byte) : stmt eaddress :=
  fun st =>
    match fromExternal this (msg_sender e) encryptedKey inputProof with
    | Some key => (inl key, st)
    | None => (inr InputRefused, st)
    end.

Definition FHE_allow (key : eaddress) (account : address) : stmt unit :=
  fun st =>
    (inl tt,
     {| _messages := _messages st; acl := {[ (key, account) ]} ∪ acl st;
        logs := logs st |}).

Definition FHE_allowThis (key : eaddress) : stmt unit := FHE_allow key this.

Definition sendMessage (e : env) (recipient : address)
    (encryptedMessage : list byte) (encryptedKey : externalEaddress)
    (inputProof : list byte) : stmt unit :=
  require (negb (recipient =? 0)%N) "Invalid recipient" ;;;
  require (0 <? length encryptedMessage)%nat "Empty message" ;;;
  key <~ FHE_fromExternal e encryptedKey inputProof ;;
  push recipient
    {| sender := msg_sender e;
       encryptedMessage := encryptedMessage;
       encryptedKey := key;
       timestamp := block_timestamp e |} ;;;
  FHE_allowThis key ;;;
  FHE_allow key recipient ;;;
  emit (fun st =>
          MessageSent (msg_sender e) recipient
            (N.of_nat (length (messages_of st recipient)) - 1)).

Definition getMessageCount (st : state) (recipient : address) : N :=
  N.of_nat (length (messages_of st recipient)).

(** [None]: the index is out of range and the call reverts. *)
Definition getMessageAt (st : state) (recipient : address) (index : N)
  : option (address * list byte * eaddress * N) :=
  message ← messages_of st recipient !! N.to_nat index;
  Some (sender message, encryptedMessage message, encryptedKey message,
        timestamp message).

(** One call of [sendMessage] with its transaction. *)
Record call := {
  c_env : env;
  c_recipient : address;
  c_message : list byte;
  c_key : externalEaddress;
  c_proof : list byte
}.

Definition send (c : call) : stmt unit :=
  sendMessage (c_env c) (c_recipient c) (c_message c) (c_key c) (c_proof c).

(** A transaction: a call that fails is rolled back. *)
Definition transact (st : state) (c : call) : option failure * state :=
  match send c st with
  | (inl _, st') => (None, st')
  | (inr f, _) => (Some f, st)
  end.

(** Transactions one after the other, all of them successful. *)
Fixpoint run (st : state) (calls : list call) : option state :=
  match calls with
  | [] => Some st
  | c :: rest =>
      match transact st c with
      | (None, st') => run st' rest
      | (Some _, _) => None
      end
  end.

(** The record a successful call stores. *)
Definition stored (c : call) : option (address * list byte * eaddress * N) :=
  key ← fromExternal this (msg_sender (c_env c)) (c_key c) (c_proof c);
  Some (msg_sender (c_env c), c_message c, key, block_timestamp (c_env c)).

End Contract.
End Messenger.

Import Messenger.

(** What is read back of a stored record. *)
Definition entry (m : Message) : address * list byte * eaddress * N :=
  (sender m, encryptedMessage m, encryptedKey m, timestamp m).

(** The records a run appends to the log of [r]. *)
Definition appended (calls : list call) (r : address) : list call :=
  filter (fun c => c_recipient c = r) calls.

(** ** The confidential key store *)







(** ** [Inbox.handleDecrypt] ([app/src/components/MessageComposer.tsx]) *)

Module Inbox.

(** [n.toString()] of a whole number that is not negative. *)
Fixpoint decimal_digits (fuel : nat) (n : Z) (acc : jsstring) : jsstring :=
  match fuel with
  | O => acc
  | S fuel' =>
      if n <? 10 then (48 + n) :: acc
      else decimal_digits fuel' (n / 10) ((48 + n mod 10) :: acc)
  end.

Definition number_toString (n : Z) : jsstring :=
  decimal_digits (Z.to_nat (Z.log2 n + 1)) n [].

(** [s.replace('0x', '')]: the first [0x] is taken out. *)
Fixpoint remove_first_0x (s : jsstring) : jsstring :=
  match s with
  | [] => []
  | c :: r =>
      match r with
      | d :: r' => if (c =? 48) && (d =? 120) then r' else c :: remove_first_0x r
      | [] => [c]
      end
  end.

Record MessageItem := {
  index : Z;
  sender : jsstring;
  encryptedMessage : jsstring;
  encryptedKey : jsstring;
  timestamp : Z;
  decryptedMessage : option jsstring;
  decryptedKey : option jsstring;
  decrypting : option bool
}.

Record keypair := { publicKey : jsstring; privateKey : jsstring }.

(** The arguments of [instance.userDecrypt], in its order. *)
Record request := {
  handleContractPairs : list (jsstring * jsstring);
  req_privateKey : jsstring;
  req_publicKey : jsstring;
  req_signature : jsstring;
  contractAddresses : list jsstring;
  userAddress : jsstring;
  startTimeStamp : jsstring;
  durationDays : jsstring
}.

(** The relayer instance and the wallet, as [handleDecrypt] uses them.
    [typed_data] is what [createEIP712] builds and the wallet signs. *)
Class Relayer := {
  typed_data : Type;
  signer : Type;
  generateKeypair : entropy -> keypair * entropy;
  createEIP712 : jsstring -> list jsstring -> jsstring -> jsstring -> typed_data;
  signTypedData : signer -> typed_data -> result jsstring;
  userDecrypt : request -> result (list (jsstring * decrypted_value));
  (** [CONTRACT_ADDRESS] of [config/contracts] *)
  CONTRACT_ADDRESS : jsstring;
  (** [err.message] of an exception raised by the platform *)
  platform_message : exn -> jsstring
}.

(** What the component reads from its hooks: the connected account, whether
    the relayer instance is there, and the signer promise with what it
    resolves to. *)
Record hooks `{Relayer} := {
  account : option jsstring;
  instance_ready : bool;
  signerPromise : option (option signer)
}.

(** The component state [handleDecrypt] writes. *)
Record ui := {
  messages : list MessageItem;
  error : option jsstring
}.

(** The random source and the clock ([Date.now()], in milliseconds). *)
Record world := { rng : entropy; now_ms : Z }.

(** What leaves the component during an attempt. *)
Inductive effect `{Relayer} :=
| Signed (s : signer) (data : typed_data)
| Requested (r : request).

Definition truthy (s : option jsstring) : bool :=
  match s with
  | Some (_ :: _) => true
  | _ => false
  end.

Definition setDecrypting (item : MessageItem) (flag : bool) (u : ui) : ui :=
  {| messages :=
       map (fun message =>
              if index message =? index item
              then {| index := index message; sender := sender message;
                      encryptedMessage := encryptedMessage message;
                      encryptedKey := encryptedKey message;
                      timestamp := timestamp message;
                      decryptedMessage := decryptedMessage message;
                      decryptedKey := decryptedKey message;
                      decrypting := Some flag |}
              else message)
           (messages u);
     error := error u |}.

Definition setDecrypted (item : MessageItem) (key text : jsstring) (u : ui) : ui :=
  {| messages :=
       map (fun message =>
              if index message =? index item
              then {| index := index message; sender := sender message;
                      encryptedMessage := encryptedMessage message;
                      encryptedKey := encryptedKey message;
                      timestamp := timestamp message;
                      decryptedMessage := Some text;
                      decryptedKey := Some key;
                      decrypting := Some false |}
              else message)
           (messages u);
     error := None |}.

Definition setError (message : jsstring) (u : ui) : ui :=
  {| messages := messages u; error := Some message |}.

(** The text shown for a caught exception: [err.message]. *)
Definition error_text `{Relayer} (e : exn) : jsstring :=
  match e with
  | Error message => message
  | _ => platform_message e
  end.

(** [result[item.encryptedKey]] *)
Fixpoint lookup_key (k : jsstring) (o : list (jsstring * decrypted_value))
  : option decrypted_value :=
  match o with
  | [] => None
  | (k', v) :: rest => if bool_decide (k' = k) then Some v else lookup_key k rest
  end.

Section WithPlatform.
Context {P : Platform} {R : Relayer}.

(** The body of the [try] block: the exception or the decrypted key and
    text, the world it leaves and what left the component. *)
Definition attempt (address : jsstring) (s : option signer) (item : MessageItem)
    (w : world) : result (jsstring * jsstring) * world * list effect :=
  match s with
  | None => (Throw (Error (lit "Signer not available.")), w, [])
  | Some signer =>
      let '(keypair, g) := generateKeypair (rng w) in
      let w' := {| rng := g; now_ms := now_ms w |} in
      let handleContractPairs := [(encryptedKey item, CONTRACT_ADDRESS)] in
      let startTimeStamp := number_toString (now_ms w / 1000) in
      let durationDays := lit "10" in
      let contractAddresses := [CONTRACT_ADDRESS] in
      let eip712 :=
        createEIP712 (publicKey keypair) contractAddresses startTimeStamp
          durationDays in
      match signTypedData signer eip712 with
      | Throw e => (Throw e, w', [Signed signer eip712])
      | Ok signature =>
          let r := {| handleContractPairs := handleContractPairs;
                      req_privateKey := privateKey keypair;
                      req_publicKey := publicKey keypair;
                      req_signature := remove_first_0x signature;
                      contractAddresses := contractAddresses;
                      userAddress := address;
                      startTimeStamp := startTimeStamp;
                      durationDays := durationDays |} in
          (result ← userDecrypt r;
           rawKey ← of_option (Error (lit "Failed to retrieve decrypted key."))
                      (lookup_key (encryptedKey item) result);
           decryptedKey ← normalizeDecryptedAddress rawKey;
           decryptedMessage ← decryptMessage (encryptedMessage item) decryptedKey;
           Ok (decryptedKey, decryptedMessage),
           w', [Signed signer eip712; Requested r])
      end
  end.

(** What the component keeps of an attempt. *)
Definition settle (item : MessageItem) (outcome : result (jsstring * jsstring))
    (u : ui) : ui :=
  match outcome with
  | Ok (decryptedKey, decryptedMessage) =>
      setDecrypted item decryptedKey decryptedMessage u
  | Throw e => setDecrypting item false (setError (error_text e) u)
  end.

Definition handleDecrypt (h : hooks) (item : MessageItem) (u : ui) (w : world)
  : ui * world * list effect :=
  match account h, instance_ready h, signerPromise h with
  | Some address, true, Some promise =>
      if truthy (Some address) then
        let u := setDecrypting item true u in
        let '(outcome, w', out) := attempt address promise item w in
        (settle item outcome u, w', out)
      else (setError (lit "Connect your wallet to decrypt messages.") u, w, [])
  | _, _, _ => (setError (lit "Connect your wallet to decrypt messages.") u, w, [])
  end.

End WithPlatform.
End Inbox.

Section SignedData.
Context {R : Inbox.Relayer}.

(** The typed data signed in an attempt, if it comes to that. *)
Definition signed_data (out : list Inbox.effect) : option Inbox.typed_data :=
  match out with
  | Inbox.Signed _ data :: _ => Some data
  | _ => None
  end.

End SignedData.

(** ** A small platform to evaluate the definitions on

    Not SHA-256 nor AES-GCM: a stand-in with the same interface, for running
    the functions above on concrete inputs. *)

Module Sample.

Definition digest32 (m : bytes) : bytes := take 32 (m ++ repeat x00 32).

Definition stamp (key : bytes) : bytes := take 16 (key ++ repeat x00 16).

Definition seal (key iv ad pt : bytes) : option bytes :=
  Some (pt ++ stamp key).

Definition unseal (key iv ad ct : bytes) : option bytes :=
  let n := (length ct - 16)%nat in
  if bool_decide (drop n ct = stamp key)
  then Some (take n ct) else None.

#[local] Instance platform : Platform := {|
  sha256 := digest32;
  keccak256 := digest32;
  aes_gcm_encrypt := seal;
  aes_gcm_decrypt := unseal;
  ican_address := fun _ => None
|}.

Definition zero_tape : entropy := {| tape := fun _ => x00; cursor := 0 |}.

Definition address1 : jsstring := lit "0x1111111111111111111111111111111111111111".

End Sample.

Module SampleChain.

(** An input is accepted when it comes with a proof; its handle is the
    number of the input. *)
#[local] Instance fhevm : FHEVM := {|
  fromExternal := fun _ _ key proof =>
    match proof with [] => None | _ :: _ => Some key end
|}.

Definition contract : address := 1000%N.
Definition alice : address := 1%N.
Definition bob : address := 2%N.

Definition to_bob (key : N) (text : list byte) (time : N) : call :=
  {| c_env := {| msg_sender := alice; block_timestamp := time |};
     c_recipient := bob; c_message := text; c_key := key; c_proof := [x01] |}.

End SampleChain.

Module SampleInbox.
Import Inbox.

#[local] Instance relayer : Relayer := {|
  typed_data := list jsstring;
  signer := jsstring;
  generateKeypair := fun g =>
    let '(bs, g') := getRandomValues 2 g in
    ({| publicKey := map byte_val (take 1 bs);
        privateKey := map byte_val (drop 1 bs) |}, g');
  createEIP712 := fun pub contracts start days => pub :: start :: days :: contracts;
  signTypedData := fun s data => Ok (lit "0x" ++ s ++ concat data);
  userDecrypt := fun r =>
    Ok (map (fun '(h, _) => (h, VBigInt 0x1111)) (handleContractPairs r));
  CONTRACT_ADDRESS := lit "0x00000000000000000000000000000000000000c0";
  platform_message := fun _ => lit "Failed to decrypt message."
|}.

Definition connected : hooks :=
  {| account := Some (lit "0x00000000000000000000000000000000000000a1");
     instance_ready := true;
     signerPromise := Some (Some (lit "a1")) |}.

Definition item (handle : jsstring) : MessageItem :=
  {| index := 0; sender := lit "0x00000000000000000000000000000000000000b2";
     encryptedMessage := lit "AAAA.AAAA.AAAA"; encryptedKey := handle;
     timestamp := 1700000000; decryptedMessage := None; decryptedKey := None;
     decrypting := None |}.

Definition start : world :=
  {| rng := Sample.zero_tape; now_ms := 1700000000123 |}.

End SampleInbox.

Module SampleNode.

#[local] Instance node : Task.Node := {|
  Task.Buffer_from_hex := hexToBytes;
  Task.Buffer_from_base64 := fun s =>
    match base64ToBytes s with Ok bs => bs | Throw _ => [] end;
  Task.Buffer_toString_utf8 := fun bs =>
    flat_map utf16_units (utf8_run utf8_initial bs);
  Task.gcm_seal := fun key iv pt => Some (pt, Sample.stamp key);
  Task.gcm_open := fun key iv tag ct =>
    if bool_decide (tag = Sample.stamp key) then Some ct else None
|}.

End SampleNode.

(** ** More of the platform and of [app/src/utils/crypto.ts] *)

(** [String.prototype.trim]: white space and line terminators are taken
    off both ends. *)
Definition trim_end (s : jsstring) : jsstring :=
  reverse (trim_start (reverse s)).

Definition trim (s : jsstring) : jsstring := trim_end (trim_start s).

(** [String.prototype.toWellFormed]: a surrogate on its own becomes U+FFFD. *)
Fixpoint toWellFormed (s : jsstring) : jsstring :=
  match s with
  | [] => []
  | c :: rest =>
      if is_high_surrogate c then
        match rest with
        | d :: rest' =>
            if is_low_surrogate d then c :: d :: toWellFormed rest'
            else 0xFFFD :: toWellFormed rest
        | [] => [0xFFFD]
        end
      else if is_low_surrogate c then 0xFFFD :: toWellFormed rest
      else c :: toWellFormed rest
  end.

(** A string without the byte order mark it starts with. *)
Definition without_bom (s : jsstring) : jsstring :=
  match s with
  | c :: rest => if c =? 0xFEFF then rest else s
  | [] => []
  end.

(** The number a string of hexadecimal digits writes. *)
Definition hex_number (s : jsstring) : Z :=
  fold_left (fun acc c => acc * 16 + default 0 (hex_value c)) s 0.

(** Every character is a hexadecimal digit. *)
Definition hex_digits (s : jsstring) : Prop :=
  forallb Ethers.is_hex_digit s = true.

(** [ethers.Wallet.createRandom()]: a wallet with a fresh key.  The code
    reads its address only; [createRandom] is the uncompressed public key of
    the new wallet, the byte [04] and the two coordinates. *)
Class Wallet := {
  createRandom : entropy -> bytes * entropy
}.

Section WithWallet.
Context {P : Platform} {W : Wallet}.

(** ethers' [computeAddress]: the last 20 bytes of the Keccak hash of the
    coordinates, as forty digits, checksummed by [getAddress]. *)
Definition computeAddress (publicKey : bytes) : result jsstring :=
  Ethers.getAddress (hex_of_bytes (drop 12 (keccak256 (drop 1 publicKey)))).

Definition generateEphemeralAddress (g : entropy) : result jsstring * entropy :=
  let '(publicKey, g') := createRandom g in
  (computeAddress publicKey, g').

End WithWallet.

(** ** [MessageComposer.handleSend] ([app/src/components/MessageComposer.tsx]) *)

Module Composer.

(** The component state. *)
Record form := {
  recipient : jsstring;
  message : jsstring;
  status : jsstring;
  isSending : bool;
  error : option jsstring;
  lastTxHash : jsstring
}.

(** What [input.encrypt()] resolves to. *)
Record encryptedInput := {
  handles : list bytes;
  inputProof : bytes
}.

(** What [handleSend] uses besides the hooks of the [Inbox]: the encrypted
    input of the relayer instance ([createEncryptedInput(contract, user)],
    [addAddress(value)], [encrypt()]) and the messenger contract behind the
    signer ([sendMessage], the hash of the transaction and [tx.wait()], which
    gives the hash of the receipt, or no receipt). *)
Class Sender `{R : Inbox.Relayer} := {
  transaction : Type;
  encrypt_address : jsstring -> jsstring -> jsstring -> result encryptedInput;
  contract_sendMessage :
    Inbox.signer -> jsstring -> jsstring -> option bytes -> bytes ->
    result transaction;
  tx_hash : transaction -> jsstring;
  tx_wait : transaction -> result (option jsstring)
}.

(** What leaves the component during [handleSend]. *)
Inductive effect `{Sender} :=
| InputEncrypted (contract user value : jsstring)
| Submitted (s : Inbox.signer) (recipient encryptedMessage : jsstring)
    (handle : option bytes) (proof : bytes)
| Waited (tx : transaction)
| OnSent.

(** A string in a condition: the empty string is false. *)
Definition nonempty (s : jsstring) : bool :=
  match s with
  | [] => false
  | _ :: _ => true
  end.

Definition setError (text : jsstring) (f : form) : form :=
  {| recipient := recipient f; message := message f; status := status f;
     isSending := isSending f; error := Some text; lastTxHash := lastTxHash f |}.

(** [setError(null)] and [setLastTxHash('')], the first steps. *)
Definition cleared (f : form) : form :=
  {| recipient := recipient f; message := message f; status := status f;
     isSending := isSending f; error := None; lastTxHash := [] |}.

Section WithPlatform.
Context {P : Platform} {W : Wallet} {R : Inbox.Relayer} {S : Sender}.

(** The body of the [try] block: the exception or the hash to show, the
    random source it leaves and what left the component. *)
Definition attempt (address : jsstring) (s : option Inbox.signer) (f : form)
    (g : entropy) : result jsstring * entropy * list effect :=
  match s with
  | None => (Throw (Error (lit "Signer not available.")), g, [])
  | Some signer =>
      let '(ephemeral, g1) := generateEphemeralAddress g in
      match ephemeral with
      | Throw e => (Throw e, g1, [])
      | Ok ephemeralAddress =>
          let '(encrypted, g2) :=
            encryptMessage (trim (message f)) ephemeralAddress g1 in
          match encrypted with
          | Throw e => (Throw e, g2, [])
          | Ok encryptedMessage =>
              let asked :=
                InputEncrypted Inbox.CONTRACT_ADDRESS address ephemeralAddress in
              match encrypt_address Inbox.CONTRACT_ADDRESS address
                      ephemeralAddress with
              | Throw e => (Throw e, g2, [asked])
              | Ok encryptedInput =>
                  match normalizeAddress (recipient f) with
                  | Throw e => (Throw e, g2, [asked])
                  | Ok to =>
                      let handle := head (handles encryptedInput) in
                      let proof := inputProof encryptedInput in
                      let sent :=
                        Submitted signer to encryptedMessage handle proof in
                      match contract_sendMessage signer to encryptedMessage
                              handle proof with
                      | Throw e => (Throw e, g2, [asked; sent])
                      | Ok tx =>
                          match tx_wait tx with
                          | Throw e => (Throw e, g2, [asked; sent; Waited tx])
                          | Ok receipt =>
                              (Ok (default (tx_hash tx) receipt), g2,
                               [asked; sent; Waited tx; OnSent])
                          end
                      end
                  end
              end
          end
      end
  end.

(** What the component keeps of an attempt. *)
Definition settle (f : form) (outcome : result jsstring) : form :=
  match outcome with
  | Ok hash =>
      {| recipient := []; message := []; status := lit "Message sent.";
         isSending := false; error := None; lastTxHash := hash |}
  | Throw e =>
      {| recipient := recipient f; message := message f; status := [];
         isSending := false; error := Some (Inbox.error_text e);
         lastTxHash := [] |}
  end.

Definition handleSend (h : Inbox.hooks) (f : form) (g : entropy)
  : form * entropy * list effect :=
  let f := cleared f in
  match Inbox.account h with
  | Some address =>
      if nonempty address then
        match Inbox.instance_ready h, Inbox.signerPromise h with
        | true, Some promise =>
            if nonempty (recipient f) && isValidAddress (recipient f) then
              if nonempty (trim (message f)) then
                let '(outcome, g', out) := attempt address promise f g in
                (settle f outcome, g', out)
              else (setError (lit "Message text cannot be empty.") f, g, [])
            else (setError (lit "Enter a valid recipient address.") f, g, [])
        | _, _ =>
            (setError (lit "Encryption service is still loading.") f, g, [])
        end
      else (setError (lit "Connect your wallet to send a message.") f, g, [])
  | None => (setError (lit "Connect your wallet to send a message.") f, g, [])
  end.

End WithPlatform.
End Composer.

(** ** [Inbox]: loading and showing the messages
    ([app/src/components/MessageComposer.tsx]) *)

Module Listing.
Import Inbox.

(** [publicClient.readContract] for [getMessageAt]: the contract address,
    the recipient and the index give the tuple of the record, or the read
    fails. *)
Definition reader : Type :=
  jsstring -> jsstring -> Z -> result (jsstring * jsstring * jsstring * Z).

(** The component state: the messages and the error, and [isLoading]. *)
Record view := {
  shown : ui;
  isLoading : bool
}.

Definition item_of (index : Z) (data : jsstring * jsstring * jsstring * Z)
  : MessageItem :=
  let '(sender, encryptedMessage, encryptedKey, timestamp) := data in
  {| index := index; sender := sender; encryptedMessage := encryptedMessage;
     encryptedKey := encryptedKey; timestamp := timestamp;
     decryptedMessage := None; decryptedKey := None; decrypting := None |}.

(** [Promise.all]: every value, or a failure. *)
Fixpoint all {A} (rs : list (result A)) : result (list A) :=
  match rs with
  | [] => Ok []
  | r :: rest =>
      match r, all rest with
      | Ok a, Ok l => Ok (a :: l)
      | Throw e, _ => Throw e
      | Ok _, Throw e => Throw e
      end
  end.

(** [Number(countData)] is finite below this bound. *)
Definition Number_overflow : Z := 2 ^ 1024 - 2 ^ 970.

Section WithRelayer.
Context {R : Relayer}.

(** [loadMessages] of the effect, from its start to its end: the state it
    leaves and the indices it asked the client for.  [mounted] is the flag
    when the reads have settled; the steps before the first [await] run while
    it is still set.  [Array.from] refuses a length of 2^32 or more, which
    [Number(countData)] is exactly when [countData] is. *)
Definition loadMessages (address : option jsstring)
    (publicClient : option reader) (countData : option Z) (mounted : bool)
    (v : view) : view * list Z :=
  match address, publicClient with
  | Some account, Some client =>
      if truthy (Some account) then
        let count :=
          match countData with
          | Some c => if c =? 0 then 0 else c
          | None => 0
          end in
        if (Number_overflow <=? count) || (count <=? 0) then
          ({| shown := {| messages := []; error := error (shown v) |};
              isLoading := isLoading v |}, [])
        else
          let loading :=
            {| shown := {| messages := messages (shown v); error := None |};
               isLoading := true |} in
          let failed :=
            {| shown := {| messages := messages (shown v);
                           error := Some (lit "Failed to load messages.") |};
               isLoading := false |} in
          if count <? 2 ^ 32 then
            let indices := seqZ 0 count in
            let results :=
              map (fun index =>
                     data ← client CONTRACT_ADDRESS account index;
                     Ok (item_of index data))
                  indices in
            (if mounted then
               match all results with
               | Ok results =>
                   {| shown := {| messages := reverse results; error := None |};
                      isLoading := false |}
               | Throw _ => failed
               end
             else loading,
             indices)
          else (failed, [])
      else (v, [])
  | _, _ => (v, [])
  end.

End WithRelayer.

(** What the list shows of an item: its text or the placeholder, and the
    label of its button. *)
Definition message_body (item : MessageItem) : jsstring :=
  match decryptedMessage item with
  | Some (c :: text) => c :: text
  | _ => lit "Encrypted payload stored on-chain."
  end.

Definition button_label (item : MessageItem) : jsstring :=
  match decrypting item with
  | Some true => lit "Decrypting..."
  | _ =>
      if truthy (decryptedMessage item) then lit "Decrypt again"
      else lit "Decrypt message"
  end.

End Listing.

(** ** Histories of the contract with failed calls *)

Section History.
Context {F : FHEVM}.
Variable this : address.

(** Transactions one after the other, accepted or not. *)
Fixpoint replay (st : state) (calls : list call) : state :=
  match calls with
  | [] => st
  | c :: rest => replay (snd (transact this st c)) rest
  end.

(** The calls of a history that went through, each judged in the state it
    met. *)
Fixpoint kept (st : state) (calls : list call) : list call :=
  match calls with
  | [] => []
  | c :: rest =>
      match transact this st c with
      | (None, st') => c :: kept st' rest
      | (Some _, _) => kept st rest
      end
  end.

(** The calls the contract accepts. *)
Definition accepted (c : call) : bool :=
  negb (c_recipient c =? 0)%N
  && (0 <? length (c_message c))%nat
  && bool_decide
       (is_Some (fromExternal this (msg_sender (c_env c)) (c_key c) (c_proof c))).

End History.

(** ** The ledger behind the inbox *)

Section ChainReader.
(** How the client writes what the contract holds: the account it reads
    for, and the address, text, handle of a record. *)
Variable account_of : jsstring -> address.
Variable show_address : address -> jsstring.
Variable show_text : list byte -> jsstring.
Variable show_handle : eaddress -> jsstring.

(** [readContract] answered from a state of the contract: the tuple
    [getMessageAt] returns, as the client decodes it; a call that reverts is
    a failed read. *)
Definition chain_reader (st : state) : Listing.reader :=
  fun _ account index =>
    if index <? 0 then Throw (Error (lit "execution reverted"))
    else
      match getMessageAt st (account_of account) (Z.to_N index) with
      | Some (sender, text, key, time) =>
          Ok (show_address sender, show_text text, show_handle key, Z.of_N time)
      | None => Throw (Error (lit "execution reverted"))
      end.

End ChainReader.

(** ** Sample services *)

Module SampleWallet.

(** The hash of the sample platform keeps the start of its input: the
    address of such a wallet is that of the number 0x1111. *)
#[local] Instance wallet : Wallet := {|
  createRandom := fun g =>
    let '(bs, g') := getRandomValues 32 g in
    (x04 :: repeat x00 30 ++ [x11; x11] ++ bs, g')
|}.

End SampleWallet.

Module SampleSender.

#[local] Instance sender : Composer.Sender (R:=SampleInbox.relayer) := {|
  Composer.transaction := jsstring;
  Composer.encrypt_address := fun contract user value =>
    Ok {| Composer.handles := [map to_uint8 value]; Composer.inputProof := [x01] |};
  Composer.contract_sendMessage := fun s to text handle proof =>
    match handle with
    | Some _ => Ok (lit "0x7e57")
    | None => Throw (Error (lit "missing argument"))
    end;
  Composer.tx_hash := fun tx => tx;
  Composer.tx_wait := fun tx => Ok (Some tx)
|}.

Definition draft : Composer.form :=
  {| Composer.recipient := lit "0x00000000000000000000000000000000000000b2";
     Composer.message := lit "  Hello  ";
     Composer.status := []; Composer.isSending := false;
     Composer.error := None; Composer.lastTxHash := [] |}.

End SampleSender.

Module SampleNote.

(** A record whose payload is "Hi!" under the address of the number 0x1111,
    which the sample relayer gives for every handle. *)
Definition payload : jsstring :=
  match fst (encryptMessage (P:=Sample.platform) (lit "Hi!")
               (lit "0x0000000000000000000000000000000000001111")
               Sample.zero_tape) with
  | Ok text => text
  | Throw _ => []
  end.

(** The payload of an empty text. *)
Definition blank : jsstring :=
  match fst (encryptMessage (P:=Sample.platform) []
               (lit "0x0000000000000000000000000000000000001111")
               Sample.zero_tape) with
  | Ok text => text
  | Throw _ => []
  end.

(** The payload the sample composer sends for its draft. *)
Definition sent : jsstring :=
  match fst (encryptMessage (P:=Sample.platform) (lit "Hello")
               (lit "0x0000000000000000000000000000000000001111")
               Sample.zero_tape) with
  | Ok text => text
  | Throw _ => []
  end.

Definition record (text : jsstring) : Inbox.MessageItem :=
  {| Inbox.index := 7;
     Inbox.sender := lit "0x00000000000000000000000000000000000000a1";
     Inbox.encryptedMessage := text; Inbox.encryptedKey := lit "0xaa";
     Inbox.timestamp := 1700000000; Inbox.decryptedMessage := None;
     Inbox.decryptedKey := None; Inbox.decrypting := None |}.

Definition item : Inbox.MessageItem := record payload.

End SampleNote.

Module SampleListing.

(** A ledger of three records. *)
Definition client : Listing.reader := fun contract recipient index =>
  if (0 <=? index) && (index <? 3)
  then Ok (lit "0x00000000000000000000000000000000000000b2",
           lit "AAAA.AAAA.AAAA", lit "0xaa", 1700000000 + index)
  else Throw (Error (lit "execution reverted")).

Definition empty : Listing.view :=
  {| Listing.shown := {| Inbox.messages := []; Inbox.error := None |};
     Listing.isLoading := false |}.

End SampleListing.

(** * Proofs *)

(** ** The platform functions on examples *)

Example atob_ex1 : atob (lit "AA==") = Ok [0].
Proof. reflexivity. Qed.
Example btoa_ex1 : btoa (lit "Man") = Ok (lit "TWFu").
Proof. reflexivity. Qed.
Example btoa_ex2 : btoa (lit "Ma") = Ok (lit "TWE=").
Proof. reflexivity. Qed.
Example atob_ex2 : atob (lit "TWE=") = Ok (lit "Ma").
Proof. reflexivity. Qed.
Example atob_ex3 : atob (lit "TWE") = Ok (lit "Ma").
Proof. reflexivity. Qed.
Example atob_ex4 : atob (lit "T") = Throw InvalidCharacterError.
Proof. reflexivity. Qed.
Example atob_ex5 : atob (lit "A===") = Throw InvalidCharacterError.
Proof. reflexivity. Qed.
Example split_ex : split 46 (lit "a.b..c") = [lit "a"; lit "b"; []; lit "c"].
Proof. reflexivity. Qed.

Example enc_ex1 : TextEncoder_encode [0xD800] = [xef; xbf; xbd].
Proof. reflexivity. Qed.
Example enc_ex2 : TextEncoder_encode [0x20AC; 0xD83D; 0xDE00; 0xE9] = [xe2; x82; xac; xf0; x9f; x98; x80; xc3; xa9].
Proof. reflexivity. Qed.
Example dec_ex2 : TextDecoder_decode [xe2; x82; xac; xf0; x9f; x98; x80; xc3; xa9] = [0x20AC; 0xD83D; 0xDE00; 0xE9].
Proof. reflexivity. Qed.
Example dec_ex3 : TextDecoder_decode [xef; xbb; xbf; x41] = [0x41].
Proof. reflexivity. Qed.
Example dec_ex4 : TextDecoder_decode [xe2; x82; x41; xff; xed; xa0; x80] = [0xFFFD; 0x41; 0xFFFD; 0xFFFD; 0xFFFD; 0xFFFD].
Proof. reflexivity. Qed.
Example hex_ex1 : bigint_toString16 255 = lit "ff".
Proof. reflexivity. Qed.
Example hex_ex2 : bigint_toString16 0 = lit "0".
Proof. reflexivity. Qed.
Example hex_ex3 : bigint_toString16 4096 = lit "1000".
Proof. reflexivity. Qed.
Example hex_ex4 : bigint_toString16 (-26) = lit "-1a".
Proof. reflexivity. Qed.
Example pi_ex1 : parseInt16 (lit "fF") = Some 255.
Proof. reflexivity. Qed.
Example pi_ex2 : parseInt16 (lit "0x") = None.
Proof. reflexivity. Qed.
Example pi_ex3 : parseInt16 (lit "1g") = Some 1.
Proof. reflexivity. Qed.
Example pi_ex4 : parseInt16 (lit "-1") = Some (-1).
Proof. reflexivity. Qed.
Example pi_ex5 : parseInt16 (lit "0x1f") = Some 31.
Proof. reflexivity. Qed.
Example pi_ex6 : parseInt16 (lit " f") = Some 15.
Proof. reflexivity. Qed.

(** ** Arithmetic helpers *)

Ltac zbool :=
  repeat match goal with
    | |- context [Z.ltb ?a ?b] => destruct (Z.ltb_spec a b)
    | |- context [Z.leb ?a ?b] => destruct (Z.leb_spec a b)
    | |- context [Z.eqb ?a ?b] => destruct (Z.eqb_spec a b)
    | H : context [Z.ltb ?a ?b] |- _ => destruct (Z.ltb_spec a b)
    | H : context [Z.leb ?a ?b] |- _ => destruct (Z.leb_spec a b)
    | H : context [Z.eqb ?a ?b] |- _ => destruct (Z.eqb_spec a b)
    end; simpl in *.

Ltac zdiv := Z.div_mod_to_equations; lia.

Lemma list_ind3 {A} (Q : list A -> Prop) :
  Q [] -> (forall a, Q [a]) -> (forall a b, Q [a; b]) ->
  (forall a b c r, Q r -> Q (a :: b :: c :: r)) ->
  forall l, Q l.
Proof.
  intros H0 H1 H2 H3.
  fix IH 1. intros [|a [|b [|c r]]].
  - exact H0.
  - apply H1.
  - apply H2.
  - apply H3, IH.
Qed.

Lemma byte_val_range b : 0 <= byte_val b < 256.
Proof.
  unfold byte_val. pose proof (Byte.to_N_bounded b). lia.
Qed.

Lemma to_uint8_byte_val b : to_uint8 (byte_val b) = b.
Proof.
  unfold to_uint8. pose proof (byte_val_range b).
  rewrite Z.mod_small by lia. unfold byte_val.
  rewrite N2Z.id, Byte.of_to_N. reflexivity.
Qed.

Lemma byte_val_to_uint8 z : 0 <= z < 256 -> byte_val (to_uint8 z) = z.
Proof.
  intros Hz. unfold to_uint8, byte_val.
  rewrite Z.mod_small by lia.
  destruct (Byte.of_N (Z.to_N z)) as [b|] eqn:E.
  - apply Byte.to_of_N in E. rewrite E. lia.
  - apply Byte.of_N_None_iff in E. lia.
Qed.

Lemma map_to_uint8_byte_val (bs : bytes) : map to_uint8 (map byte_val bs) = bs.
Proof.
  induction bs as [|b bs IH]; simpl; [reflexivity|].
  now rewrite to_uint8_byte_val, IH.
Qed.

(** ** Base64 *)

Lemma Forall_octet_byte_val (bs : bytes) : Forall octet (map byte_val bs).
Proof.
  apply Forall_forall. intros z Hz. apply list_elem_of_In in Hz.
  apply in_map_iff in Hz as (b & <- & _). apply byte_val_range.
Qed.

Lemma sextets_range bs : Forall octet bs -> Forall sextet (sextets bs).
Proof.
  induction bs as [|a|a b|a b c r IH] using list_ind3; intros H; simpl.
  - constructor.
  - inversion_clear H. unfold octet, sextet in *. repeat constructor; zdiv.
  - inversion_clear H as [|? ? ? H']. inversion_clear H'.
    unfold octet, sextet in *. repeat constructor; zdiv.
  - inversion_clear H as [|? ? ? H']. inversion_clear H' as [|? ? ? H''].
    inversion_clear H''.
    unfold octet, sextet in *. repeat constructor; try zdiv. now apply IH.
Qed.

Lemma b64_value_char v : sextet v -> b64_value (b64_char v) = Some v.
Proof.
  unfold sextet, b64_value, b64_char. intros Hv.
  zbool; try lia; f_equal; lia.
Qed.

Lemma b64_char_plain v :
  sextet v ->
  b64_char v <> pad /\ b64_char v <> 46
  /\ is_ascii_whitespace (b64_char v) = false.
Proof.
  unfold sextet, b64_char, pad, is_ascii_whitespace. intros Hv.
  zbool; repeat split; try lia; try reflexivity.
Qed.

Lemma strip_padding_cons c r :
  c <> pad -> strip_padding (c :: r) = c :: strip_padding r.
Proof.
  intros Hc. destruct r as [|d [|e r]]; simpl; try reflexivity;
    destruct (Z.eqb_spec c pad); try contradiction; reflexivity.
Qed.

Lemma strip_padding_encode bs :
  Forall octet bs -> strip_padding (b64_encode bs) = map b64_char (sextets bs).
Proof.
  intros H. pose proof (sextets_range bs H) as Hs. clear H.
  induction bs as [|a|a b|a b c r IH] using list_ind3;
    cbn [b64_encode sextets map] in *.
  - reflexivity.
  - inversion_clear Hs as [|? ? H1 Hs']. inversion_clear Hs' as [|? ? H2 _].
    rewrite !strip_padding_cons by (now apply b64_char_plain). reflexivity.
  - inversion_clear Hs as [|? ? H1 Hs']. inversion_clear Hs' as [|? ? H2 Hs''].
    inversion_clear Hs'' as [|? ? H3 _].
    rewrite !strip_padding_cons by (now apply b64_char_plain). reflexivity.
  - inversion_clear Hs as [|? ? H1 Hs']. inversion_clear Hs' as [|? ? H2 Hs''].
    inversion_clear Hs'' as [|? ? H3 Hs']. inversion_clear Hs' as [|? ? H4 Hs''].
    rewrite !strip_padding_cons by (now apply b64_char_plain).
    now rewrite IH.
Qed.

Lemma b64_values_chars vs :
  Forall sextet vs -> b64_values (map b64_char vs) = Some vs.
Proof.
  induction 1 as [|v vs Hv _ IH]; simpl; [reflexivity|].
  now rewrite b64_value_char, IH.
Qed.

Lemma b64_decode_sextets bs :
  Forall octet bs -> b64_decode_values (sextets bs) = bs.
Proof.
  induction bs as [|a|a b|a b c r IH] using list_ind3; intros H; simpl.
  - reflexivity.
  - inversion_clear H. unfold octet in *. f_equal. zdiv.
  - inversion_clear H as [|? ? ? H']. inversion_clear H'. unfold octet in *.
    f_equal; [zdiv|]. f_equal. zdiv.
  - inversion_clear H as [|? ? ? H']. inversion_clear H' as [|? ? ? H''].
    inversion_clear H''. unfold octet in *.
    rewrite IH by assumption.
    f_equal; [zdiv|]. f_equal; [zdiv|]. f_equal. zdiv.
Qed.

Lemma length_b64_encode bs : exists k, length (b64_encode bs) = (4 * k)%nat.
Proof.
  induction bs as [|a|a b|a b c r [k IH]] using list_ind3; cbn [b64_encode length].
  - now exists 0%nat.
  - now exists 1%nat.
  - now exists 1%nat.
  - exists (S k). lia.
Qed.

Lemma length_sextets bs :
  exists k, length (sextets bs) = (4 * k)%nat
            \/ length (sextets bs) = (4 * k + 2)%nat
            \/ length (sextets bs) = (4 * k + 3)%nat.
Proof.
  induction bs as [|a|a b|a b c r [k IH]] using list_ind3; cbn [sextets length].
  - exists 0%nat. lia.
  - exists 0%nat. lia.
  - exists 0%nat. lia.
  - exists (S k). lia.
Qed.

Lemma b64_encode_plain bs :
  Forall octet bs ->
  Forall (fun c => c <> 46 /\ is_ascii_whitespace c = false) (b64_encode bs).
Proof.
  intros H. pose proof (sextets_range bs H) as Hs. clear H.
  assert (Hp : pad <> 46 /\ is_ascii_whitespace pad = false) by (split; [discriminate|reflexivity]).
  induction bs as [|a|a b|a b c r IH] using list_ind3; simpl in *.
  - constructor.
  - inversion_clear Hs as [|? ? H1 Hs']. inversion_clear Hs' as [|? ? H2 _].
    repeat constructor; try (now apply b64_char_plain); apply Hp.
  - inversion_clear Hs as [|? ? H1 Hs']. inversion_clear Hs' as [|? ? H2 Hs''].
    inversion_clear Hs'' as [|? ? H3 _].
    repeat constructor; try (now apply b64_char_plain); apply Hp.
  - inversion_clear Hs as [|? ? H1 Hs']. inversion_clear Hs' as [|? ? H2 Hs''].
    inversion_clear Hs'' as [|? ? H3 Hs']. inversion_clear Hs' as [|? ? H4 Hs''].
    repeat (constructor; [split; now apply b64_char_plain|]). now apply IH.
Qed.

Lemma filter_all {A} (f : A -> bool) l :
  Forall (fun x => f x = true) l -> List.filter f l = l.
Proof.
  induction 1 as [|x l Hx _ IH]; simpl; [reflexivity|]. now rewrite Hx, IH.
Qed.

Lemma atob_b64_encode bs : Forall octet bs -> atob (b64_encode bs) = Ok bs.
Proof.
  intros H. unfold atob.
  rewrite filter_all.
  2:{ eapply Forall_impl; [apply (b64_encode_plain bs H)|].
      simpl. intros c [_ ->]. reflexivity. }
  destruct (length_b64_encode bs) as [k HL].
  replace (Z.of_nat (length (b64_encode bs)) mod 4) with 0 by (rewrite HL; zdiv).
  cbn [Z.eqb]. rewrite strip_padding_encode by assumption.
  rewrite length_map.
  destruct (length_sextets bs) as [j HS].
  destruct (Z.eqb_spec (Z.of_nat (length (sextets bs)) mod 4) 1) as [E|_].
  { exfalso. zdiv. }
  rewrite b64_values_chars by (now apply sextets_range).
  now rewrite b64_decode_sextets.
Qed.

Lemma bytesToBase64_eq (bs : bytes) :
  bytesToBase64 bs = Ok (b64_encode (map byte_val bs)).
Proof.
  unfold bytesToBase64, btoa.
  replace (forallb _ _) with true; [reflexivity|].
  symmetry. apply forallb_forall. intros z Hz.
  apply in_map_iff in Hz as (b & <- & _).
  pose proof (byte_val_range b). zbool; lia.
Qed.

Lemma base64ToBytes_encode (bs : bytes) :
  base64ToBytes (b64_encode (map byte_val bs)) = Ok bs.
Proof.
  unfold base64ToBytes.
  rewrite atob_b64_encode by apply Forall_octet_byte_val.
  simpl. now rewrite map_to_uint8_byte_val.
Qed.

(** ** [split] *)

Lemma split_plain sep s : Forall (fun c => c <> sep) s -> split sep s = [s].
Proof.
  induction 1 as [|c s Hc _ IH]; simpl; [reflexivity|].
  destruct (Z.eqb_spec c sep); [contradiction|]. now rewrite IH.
Qed.

Lemma split_app sep a r :
  Forall (fun c => c <> sep) a -> split sep (a ++ sep :: r) = a :: split sep r.
Proof.
  induction 1 as [|c s Hc _ IH]; simpl.
  - now rewrite Z.eqb_refl.
  - destruct (Z.eqb_spec c sep); [contradiction|]. now rewrite IH.
Qed.

Lemma split_nonempty sep s : split sep s <> [].
Proof.
  destruct s as [|c s]; simpl; [discriminate|].
  destruct (c =? sep); [discriminate|]. destruct (split sep s); discriminate.
Qed.

(** ** UTF-8 and UTF-16 *)

Lemma utf8_lead_ascii b : 0 <= b <= 0x7F -> utf8_step utf8_initial b = ([b], utf8_initial).
Proof.
  intros H. unfold utf8_step, utf8_lead. cbn [bytes_needed utf8_initial].
  cbn [Z.eqb]. destruct (Z.leb_spec b 0x7F); [reflexivity|lia].
Qed.

Lemma utf8_lead_two b :
  0xC2 <= b <= 0xDF ->
  utf8_step utf8_initial b
  = ([], {| code_point := b mod 32; bytes_seen := 0; bytes_needed := 1;
            lower_boundary := 0x80; upper_boundary := 0xBF |}).
Proof.
  intros H. unfold utf8_step, utf8_lead. cbn [bytes_needed utf8_initial Z.eqb].
  destruct (Z.leb_spec b 0x7F); [lia|].
  destruct (Z.leb_spec 0xC2 b); [|lia].
  destruct (Z.leb_spec b 0xDF); [|lia]. reflexivity.
Qed.

Lemma utf8_lead_three b :
  0xE0 <= b <= 0xEF ->
  utf8_step utf8_initial b
  = ([], {| code_point := b mod 16; bytes_seen := 0; bytes_needed := 2;
            lower_boundary := if b =? 0xE0 then 0xA0 else 0x80;
            upper_boundary := if b =? 0xED then 0x9F else 0xBF |}).
Proof.
  intros H. unfold utf8_step, utf8_lead. cbn [bytes_needed utf8_initial Z.eqb].
  destruct (Z.leb_spec b 0x7F); [lia|].
  destruct (Z.leb_spec 0xC2 b); [|lia].
  destruct (Z.leb_spec b 0xDF); [lia|].
  destruct (Z.leb_spec 0xE0 b); [|lia].
  destruct (Z.leb_spec b 0xEF); [|lia]. reflexivity.
Qed.

Lemma utf8_lead_four b :
  0xF0 <= b <= 0xF4 ->
  utf8_step utf8_initial b
  = ([], {| code_point := b mod 8; bytes_seen := 0; bytes_needed := 3;
            lower_boundary := if b =? 0xF0 then 0x90 else 0x80;
            upper_boundary := if b =? 0xF4 then 0x8F else 0xBF |}).
Proof.
  intros H. unfold utf8_step, utf8_lead. cbn [bytes_needed utf8_initial Z.eqb].
  destruct (Z.leb_spec b 0x7F); [lia|].
  destruct (Z.leb_spec 0xC2 b); [|lia].
  destruct (Z.leb_spec b 0xDF); [lia|].
  destruct (Z.leb_spec 0xE0 b); [|lia].
  destruct (Z.leb_spec b 0xEF); [lia|].
  destruct (Z.leb_spec 0xF0 b); [|lia].
  destruct (Z.leb_spec b 0xF4); [|lia]. reflexivity.
Qed.

Lemma utf8_continue_last cp seen needed lo hi b :
  needed <> 0 -> lo <= b <= hi -> seen + 1 = needed ->
  utf8_step {| code_point := cp; bytes_seen := seen; bytes_needed := needed;
               lower_boundary := lo; upper_boundary := hi |} b
  = ([cp * 64 + b mod 64], utf8_initial).
Proof.
  intros Hn Hb Hs. unfold utf8_step.
  cbn [bytes_needed bytes_seen code_point lower_boundary upper_boundary].
  destruct (Z.eqb_spec needed 0); [contradiction|].
  destruct (Z.leb_spec lo b); [|lia].
  destruct (Z.leb_spec b hi); [|lia].
  destruct (Z.eqb_spec (seen + 1) needed); [reflexivity|contradiction].
Qed.

Lemma utf8_continue_more cp seen needed lo hi b :
  needed <> 0 -> lo <= b <= hi -> seen + 1 <> needed ->
  utf8_step {| code_point := cp; bytes_seen := seen; bytes_needed := needed;
               lower_boundary := lo; upper_boundary := hi |} b
  = ([], {| code_point := cp * 64 + b mod 64; bytes_seen := seen + 1;
            bytes_needed := needed;
            lower_boundary := 0x80; upper_boundary := 0xBF |}).
Proof.
  intros Hn Hb Hs. unfold utf8_step.
  cbn [bytes_needed bytes_seen code_point lower_boundary upper_boundary].
  destruct (Z.eqb_spec needed 0); [contradiction|].
  destruct (Z.leb_spec lo b); [|lia].
  destruct (Z.leb_spec b hi); [|lia].
  destruct (Z.eqb_spec (seen + 1) needed); [contradiction|reflexivity].
Qed.

Lemma utf8_run_cons st b rest :
  utf8_run st (to_uint8 b :: rest)
  = (let '(out, st') := utf8_step st (byte_val (to_uint8 b)) in out ++ utf8_run st' rest).
Proof. reflexivity. Qed.

Ltac utf8_next lem := rewrite utf8_run_cons, byte_val_to_uint8 by lia;
  rewrite lem by lia; cbn iota beta; cbn [app].

Lemma utf8_run_encode cp rest :
  scalar cp ->
  utf8_run utf8_initial (utf8_encode_code_point cp ++ rest)
  = cp :: utf8_run utf8_initial rest.
Proof.
  intros [Hr Hs]. unfold utf8_encode_code_point.
  destruct (Z.ltb_spec cp 0x80);
    [|destruct (Z.ltb_spec cp 0x800); [|destruct (Z.ltb_spec cp 0x10000)]];
    cbn [app].
  - utf8_next utf8_lead_ascii. reflexivity.
  - pose proof (Z.div_mod cp 64 ltac:(lia)) as E.
    pose proof (Z.mod_pos_bound cp 64 ltac:(lia)) as Br.
    set (q := cp / 64) in *. set (r := cp mod 64) in *. clearbody q r.
    utf8_next utf8_lead_two. utf8_next utf8_continue_last.
    f_equal. zdiv.
  - pose proof (Z.div_mod cp 4096 ltac:(lia)) as E.
    pose proof (Z.mod_pos_bound cp 4096 ltac:(lia)) as Br.
    assert (E2 : (cp / 64) mod 64 = (cp mod 4096) / 64) by zdiv.
    assert (E3 : cp mod 64 = (cp mod 4096) mod 64) by zdiv.
    rewrite E2, E3.
    set (q := cp / 4096) in *. set (r := cp mod 4096) in *. clearbody q r.
    clear E2 E3.
    pose proof (Z.div_mod r 64 ltac:(lia)) as E'.
    pose proof (Z.mod_pos_bound r 64 ltac:(lia)) as Br'.
    set (q' := r / 64) in *. set (r' := r mod 64) in *. clearbody q' r'.
    utf8_next utf8_lead_three.
    rewrite utf8_run_cons, byte_val_to_uint8 by lia.
    rewrite utf8_continue_more; [|lia| |lia].
    2:{ destruct (Z.eqb_spec (224 + q) 224); destruct (Z.eqb_spec (224 + q) 237); lia. }
    cbn iota beta; cbn [app].
    utf8_next utf8_continue_last.
    f_equal. zdiv.
  - pose proof (Z.div_mod cp 262144 ltac:(lia)) as E.
    pose proof (Z.mod_pos_bound cp 262144 ltac:(lia)) as Br.
    assert (E2 : (cp / 4096) mod 64 = (cp mod 262144) / 4096) by zdiv.
    assert (E3 : (cp / 64) mod 64 = ((cp mod 262144) mod 4096) / 64) by zdiv.
    assert (E4 : cp mod 64 = ((cp mod 262144) mod 4096) mod 64) by zdiv.
    rewrite E2, E3, E4.
    set (q := cp / 262144) in *. set (r := cp mod 262144) in *. clearbody q r.
    clear E2 E3 E4.
    pose proof (Z.div_mod r 4096 ltac:(lia)) as E'.
    pose proof (Z.mod_pos_bound r 4096 ltac:(lia)) as Br'.
    set (q' := r / 4096) in *. set (r' := r mod 4096) in *. clearbody q' r'.
    pose proof (Z.div_mod r' 64 ltac:(lia)) as E''.
    pose proof (Z.mod_pos_bound r' 64 ltac:(lia)) as Br''.
    set (q'' := r' / 64) in *. set (r'' := r' mod 64) in *. clearbody q'' r''.
    utf8_next utf8_lead_four.
    rewrite utf8_run_cons, byte_val_to_uint8 by lia.
    rewrite utf8_continue_more; [|lia| |lia].
    2:{ destruct (Z.eqb_spec (240 + q) 240); destruct (Z.eqb_spec (240 + q) 244); lia. }
    cbn iota beta; cbn [app].
    utf8_next utf8_continue_more.
    utf8_next utf8_continue_last.
    f_equal. zdiv.
Qed.

Lemma utf8_run_flat cps :
  Forall scalar cps ->
  utf8_run utf8_initial (flat_map utf8_encode_code_point cps) = cps.
Proof.
  induction 1 as [|cp cps Hc _ IH]; [reflexivity|].
  cbn [flat_map]. now rewrite utf8_run_encode, IH.
Qed.

Lemma isWellFormed_well_formed s :
  code_units s -> isWellFormed s = true -> well_formed s.
Proof.
  remember (length s) as n eqn:Hn.
  revert s Hn. induction n as [n IH] using lt_wf_ind. intros s Hn Hu Hw.
  destruct s as [|c s]; [constructor|].
  cbn [isWellFormed] in Hw. inversion_clear Hu as [|? ? Hc Hu'].
  destruct (is_high_surrogate c) eqn:Eh.
  - destruct s as [|d s]; [discriminate|].
    apply andb_prop in Hw as [Hd Hw]. inversion_clear Hu' as [|? ? _ Hu''].
    apply wf_pair; try assumption.
    apply (IH (length s)); simpl in *; auto; lia.
  - apply andb_prop in Hw as [Hl Hw]. apply negb_true_iff in Hl.
    apply wf_unit; try assumption.
    apply (IH (length s)); simpl in *; auto; lia.
Qed.

Lemma code_points_scalar s : well_formed s -> Forall scalar (code_points s).
Proof.
  induction 1 as [|c s Hc Hh Hl _ IH|h l s Hh Hl _ IH]; cbn [code_points].
  - constructor.
  - rewrite Hh, Hl. constructor; [|assumption].
    unfold scalar, is_high_surrogate, is_low_surrogate in *. zbool; lia.
  - rewrite Hh, Hl. constructor; [|assumption].
    unfold scalar, is_high_surrogate, is_low_surrogate in *. zbool; lia.
Qed.

Lemma utf16_units_code_points s :
  well_formed s -> flat_map utf16_units (code_points s) = s.
Proof.
  induction 1 as [|c s Hc Hh Hl _ IH|h l s Hh Hl _ IH]; cbn [code_points].
  - reflexivity.
  - rewrite Hh, Hl. cbn [flat_map]. rewrite IH. unfold utf16_units.
    destruct (Z.ltb_spec c 0x10000); [reflexivity|lia].
  - rewrite Hh, Hl. cbn [flat_map]. rewrite IH. unfold utf16_units.
    unfold is_high_surrogate, is_low_surrogate in *.
    destruct (Z.ltb_spec (65536 + (h - 55296) * 1024 + (l - 56320)) 65536);
      zbool; try lia; try discriminate.
    cbn [app]. f_equal; [zdiv|]. f_equal. zdiv.
Qed.

Lemma drop_bom_code_points s :
  well_formed s -> head s <> Some 0xFEFF ->
  drop_bom (code_points s) = code_points s.
Proof.
  intros Hw Hb. destruct Hw as [|c s Hc Hh Hl _|h l s Hh Hl _]; cbn [code_points].
  - reflexivity.
  - rewrite Hh, Hl. cbn [drop_bom].
    destruct (Z.eqb_spec c 0xFEFF) as [->|]; [now elim Hb|reflexivity].
  - rewrite Hh, Hl. cbn [drop_bom].
    unfold is_high_surrogate, is_low_surrogate in *.
    destruct (Z.eqb_spec (65536 + (h - 55296) * 1024 + (l - 56320)) 0xFEFF);
      [zbool; try lia; discriminate|reflexivity].
Qed.

(** Decoding the encoding of a well-formed string that does not start with
    the byte order mark gives the string back. *)
Lemma TextDecoder_decode_encode s :
  code_units s -> isWellFormed s = true -> head s <> Some 0xFEFF ->
  TextDecoder_decode (TextEncoder_encode s) = s.
Proof.
  intros Hu Hw Hb. apply isWellFormed_well_formed in Hw; [|assumption].
  unfold TextDecoder_decode, TextEncoder_encode.
  rewrite utf8_run_flat by now apply code_points_scalar.
  rewrite drop_bom_code_points by assumption.
  now apply utf16_units_code_points.
Qed.

(** ** The envelope cipher *)

Section Envelope.
Context {P : Platform} {L : PlatformLaws P}.

Lemma base64_no_dot bs : Forall (fun c => c <> dot) (base64 bs).
Proof.
  eapply Forall_impl; [apply b64_encode_plain, Forall_octet_byte_val|].
  simpl. now intros c [Hc _].
Qed.

Lemma split_wire a b c :
  split dot (base64 a ++ [dot] ++ base64 b ++ [dot] ++ base64 c)
  = [base64 a; base64 b; base64 c].
Proof.
  cbn [app]. rewrite split_app by apply base64_no_dot.
  rewrite split_app by apply base64_no_dot.
  now rewrite split_plain by apply base64_no_dot.
Qed.

Lemma importKey_sha256 m : importKey (sha256 m) = Ok (sha256 m).
Proof.
  unfold importKey. rewrite sha256_length. reflexivity.
Qed.

Lemma deriveKeyFromAddress_valid address :
  isValidAddress address = true ->
  exists normalized,
    Ethers.getAddress address = Ok normalized
    /\ deriveKeyFromAddress address
       = Ok (sha256 (hexToBytes (slice_from 2 normalized))).
Proof.
  unfold isValidAddress, Ethers.isAddress, deriveKeyFromAddress.
  destruct (Ethers.getAddress address) as [n|e]; [|discriminate].
  intros _. exists n. split; [reflexivity|].
  cbn. apply importKey_sha256.
Qed.

Lemma array_slice_tag {A} (xs : list A) :
  (16 <= length xs)%nat ->
  array_slice 0 (Z.of_nat (length xs) - 16) xs = take (length xs - 16) xs
  /\ array_slice_from (Z.of_nat (length xs) - 16) xs = drop (length xs - 16) xs.
Proof.
  intros H. unfold array_slice, array_slice_from.
  assert (E0 : rel_index (Z.of_nat (length xs)) 0 = 0).
  { unfold rel_index. cbn [Z.ltb Z.compare]. lia. }
  assert (E1 : rel_index (Z.of_nat (length xs)) (Z.of_nat (length xs) - 16)
               = Z.of_nat (length xs) - 16).
  { unfold rel_index.
    destruct (Z.ltb_spec (Z.of_nat (length xs) - 16) 0); lia. }
  rewrite E0, E1. cbn [Z.to_nat]. rewrite drop_0.
  replace (Z.to_nat (Z.of_nat (length xs) - 16 - 0)) with (length xs - 16)%nat by lia.
  replace (Z.to_nat (Z.of_nat (length xs) - 16)) with (length xs - 16)%nat by lia.
  split; reflexivity.
Qed.

(** What [encryptMessage] returns for a valid address. *)
Lemma encryptMessage_ok message address g :
  isValidAddress address = true ->
  exists key iv body tag g',
    encryptMessage message address g
    = (Ok (base64 iv ++ [dot] ++ base64 body ++ [dot] ++ base64 tag), g')
    /\ getRandomValues 12 g = (iv, g')
    /\ deriveKeyFromAddress address = Ok key
    /\ length key = 32%nat
    /\ aes_gcm_encrypt key iv [] (TextEncoder_encode message) = Some (body ++ tag)
    /\ length tag = 16%nat.
Proof.
  intros Hv. destruct (deriveKeyFromAddress_valid address Hv) as (n & Hn & Hk).
  set (key := sha256 (hexToBytes (slice_from 2 n))) in *.
  destruct (getRandomValues 12 g) as [iv g'] eqn:Hg.
  destruct (aes_gcm_encrypt_length key iv [] (TextEncoder_encode message))
    as (ct & Hct & Hlen); [apply sha256_length|].
  destruct (array_slice_tag ct ltac:(lia)) as [Hbody Htag].
  exists key, iv, (take (length ct - 16) ct), (drop (length ct - 16) ct), g'.
  repeat split.
  - unfold encryptMessage. rewrite Hk, Hg, Hct. cbn.
    change (Z.pos (Pos.of_succ_nat (length ct)) - 16) with (Z.of_nat (length ct) - 16).
    rewrite Hbody, Htag, !bytesToBase64_eq. reflexivity.
  - assumption.
  - apply sha256_length.
  - now rewrite take_drop.
  - rewrite length_drop. lia.
Qed.

Lemma base64ToBytes_base64 bs : base64ToBytes (base64 bs) = Ok bs.
Proof. apply base64ToBytes_encode. Qed.

(** On a payload of three fields that decode, the result is the verdict of
    the cipher on the key of the address, the first field as iv and the
    second field followed by the third. *)
Lemma decryptMessage_fields payload address a b c iv data tag key :
  split dot payload = [a; b; c] ->
  base64ToBytes a = Ok iv -> base64ToBytes b = Ok data ->
  base64ToBytes c = Ok tag ->
  deriveKeyFromAddress address = Ok key ->
  decryptMessage payload address
  = match aes_gcm_decrypt key iv [] (data ++ tag) with
    | Some decrypted => Ok (TextDecoder_decode decrypted)
    | None => Throw OperationError
    end.
Proof.
  intros Hs Ha Hb Hc Hk. unfold decryptMessage.
  rewrite Hs, Ha, Hb, Hc, Hk. cbn.
  destruct (aes_gcm_decrypt key iv [] (data ++ tag)); reflexivity.
Qed.

Lemma decryptMessage_wire iv data tag address key :
  deriveKeyFromAddress address = Ok key ->
  decryptMessage (base64 iv ++ [dot] ++ base64 data ++ [dot] ++ base64 tag) address
  = match aes_gcm_decrypt key iv [] (data ++ tag) with
    | Some decrypted => Ok (TextDecoder_decode decrypted)
    | None => Throw OperationError
    end.
Proof.
  intros Hk.
  eapply decryptMessage_fields; eauto using split_wire, base64ToBytes_base64.
Qed.

(** Decrypting what was encrypted under the same address gives the text
    the decoder makes of the encoded message. *)
Lemma decryptMessage_encryptMessage message address g :
  isValidAddress address = true ->
  exists payload g',
    encryptMessage message address g = (Ok payload, g')
    /\ decryptMessage payload address
       = Ok (TextDecoder_decode (TextEncoder_encode message)).
Proof.
  intros Hv.
  destruct (encryptMessage_ok message address g Hv)
    as (key & iv & body & tag & g' & He & _ & Hk & _ & Hc & _).
  eexists _, g'. split; [exact He|].
  rewrite (decryptMessage_wire _ _ _ _ key Hk).
  now rewrite (aes_gcm_decrypt_encrypt _ _ _ _ _ Hc).
Qed.

End Envelope.

(** The sample platform obeys the laws. *)
#[local] Instance sample_laws : PlatformLaws Sample.platform.
Proof.
  split.
  - intros m. cbn. unfold Sample.digest32.
    rewrite length_take, length_app, repeat_length. lia.
  - intros key iv ad pt Hk. exists (pt ++ Sample.stamp key). split; [reflexivity|].
    rewrite length_app. unfold Sample.stamp.
    rewrite length_take, length_app, repeat_length. lia.
  - intros key iv ad pt ct H.
    change (Sample.seal key iv ad pt = Some ct) in H.
    change (Sample.unseal key iv ad ct = Some pt).
    unfold Sample.seal in H. injection H as <-.
    assert (Ht : length (Sample.stamp key) = 16%nat).
    { unfold Sample.stamp. rewrite length_take, length_app, repeat_length. lia. }
    unfold Sample.unseal. cbv zeta.
    replace (length (pt ++ Sample.stamp key) - 16)%nat with (length pt)
      by (rewrite length_app; lia).
    rewrite drop_app_length, take_app_length.
    rewrite bool_decide_eq_true_2 by reflexivity. reflexivity.
Qed.

(** ** Hexadecimal digits and addresses *)

Ltac zprune :=
  repeat (match goal with
          | |- context [Z.ltb ?a ?b] => destruct (Z.ltb_spec a b)
          | |- context [Z.leb ?a ?b] => destruct (Z.leb_spec a b)
          | |- context [Z.eqb ?a ?b] => destruct (Z.eqb_spec a b)
          | H : context [Z.ltb ?a ?b] |- _ => destruct (Z.ltb_spec a b)
          | H : context [Z.leb ?a ?b] |- _ => destruct (Z.leb_spec a b)
          | H : context [Z.eqb ?a ?b] |- _ => destruct (Z.eqb_spec a b)
          end;
          cbn [andb orb negb] in *;
          try discriminate; try (exfalso; lia)).

Lemma hex_value_digit v : nibble v -> hex_value (hex_digit v) = Some v.
Proof.
  unfold nibble, hex_value, hex_digit. intros Hv. zprune; f_equal; lia.
Qed.

Lemma hex_value_range c v : hex_value c = Some v -> nibble v.
Proof.
  unfold nibble, hex_value. zprune; intros [= <-]; lia.
Qed.

Lemma hex_value_upper c : hex_value (toUpperCase_ascii c) = hex_value c.
Proof.
  unfold hex_value, toUpperCase_ascii. zprune; try reflexivity; try lia; f_equal; lia.
Qed.

Lemma hex_value_lower c : hex_value (toLowerCase_ascii c) = hex_value c.
Proof.
  unfold hex_value, toLowerCase_ascii. zprune; try reflexivity; try lia; f_equal; lia.
Qed.

Lemma lower_upper_lower c :
  toLowerCase_ascii (toUpperCase_ascii (toLowerCase_ascii c)) = toLowerCase_ascii c.
Proof.
  unfold toUpperCase_ascii, toLowerCase_ascii. zprune; lia.
Qed.

Lemma lower_lower c :
  toLowerCase_ascii (toLowerCase_ascii c) = toLowerCase_ascii c.
Proof.
  unfold toLowerCase_ascii. zprune; lia.
Qed.

(** Two digits read by [parseInt]. *)
Lemma parseInt16_pair c1 c2 v1 v2 :
  hex_value c1 = Some v1 -> hex_value c2 = Some v2 ->
  parseInt16 [c1; c2] = Some (v1 * 16 + v2).
Proof.
  intros H1 H2.
  assert (W : is_js_whitespace c1 = false).
  { unfold hex_value in H1. unfold is_js_whitespace.
    zprune; reflexivity. }
  unfold parseInt16. cbn [trim_start]. rewrite W.
  assert (S1 : (c1 =? 45) = false).
  { unfold hex_value in H1. zprune; reflexivity. }
  assert (S2 : (c1 =? 43) = false).
  { unfold hex_value in H1. zprune; reflexivity. }
  rewrite S1, S2.
  assert (X : (c2 =? 120) || (c2 =? 88) = false).
  { unfold hex_value in H2. zprune; reflexivity. }
  rewrite X, andb_false_r. cbn [hex_prefix]. rewrite H1. cbn [hex_prefix default].
  rewrite H2. cbn. f_equal. lia.
Qed.

Lemma spells_hex_of_bytes bs : spells (hex_of_bytes bs) bs.
Proof.
  unfold spells, hex_of_bytes.
  induction bs as [|b bs IH]; [reflexivity|].
  cbn [flat_map to_hex2 app map]. pose proof (byte_val_range b).
  rewrite !hex_value_digit by (unfold nibble; zdiv). now rewrite IH.
Qed.

Lemma spells_length s bs : spells s bs -> length s = (2 * length bs)%nat.
Proof.
  unfold spells. intros H. apply (f_equal length) in H.
  rewrite length_map in H. rewrite H. clear H.
  induction bs as [|b bs IH]; [reflexivity|]. cbn [flat_map app length]. lia.
Qed.

Lemma hexToBytes_loop s bs :
  spells s bs ->
  map (fun i => to_uint8 (default 0 (parseInt16 (take 2 (drop (i * 2) s)))))
      (seq 0 (length bs)) = bs.
Proof.
  revert s. induction bs as [|b bs IH]; intros s H; [reflexivity|].
  unfold spells in H. cbn [flat_map app] in H.
  destruct s as [|c1 [|c2 s]]; try discriminate.
  cbn [map] in H. injection H as H1 H2 H.
  cbn [length seq map]. f_equal.
  - change (take 2 (drop (0 * 2) (c1 :: c2 :: s))) with [c1; c2].
    rewrite (parseInt16_pair _ _ _ _ H1 H2).
    cbn [default]. pose proof (byte_val_range b).
    replace (byte_val b / 16 * 16 + byte_val b mod 16) with (byte_val b) by zdiv.
    apply to_uint8_byte_val.
  - rewrite <- seq_shift, map_map. rewrite <- (IH s H) at 2.
    apply map_ext. intros i. reflexivity.
Qed.

Lemma hexToBytes_spells s bs : spells s bs -> hexToBytes s = bs.
Proof.
  intros H. unfold hexToBytes. cbv zeta.
  assert (E : Nat.even (length s) = true).
  { rewrite (spells_length s bs H). apply Nat.even_spec. now exists (length bs). }
  rewrite E, (spells_length s bs H).
  replace (2 * length bs / 2)%nat with (length bs).
  2:{ rewrite Nat.mul_comm. now rewrite Nat.div_mul. }
  now apply hexToBytes_loop.
Qed.

Section Address.
Context {P : Platform}.

Lemma lit_0x : lit "0x" = [48; 120].
Proof. reflexivity. Qed.

Lemma map_imap_invariant {A B} (g : A -> B) (f : nat -> A -> A) l :
  (forall i c, g (f i c) = g c) -> map g (imap f l) = map g l.
Proof.
  revert f. induction l as [|x l IH]; intros f Hf; [reflexivity|].
  cbn [imap map]. rewrite Hf. f_equal. apply IH. intros i c. apply Hf.
Qed.

Lemma length_imap' {A B} (f : nat -> A -> B) l : length (imap f l) = length l.
Proof.
  revert f. induction l as [|x l IH]; intros f; [reflexivity|].
  cbn [imap length]. now rewrite IH.
Qed.

(** The checksum only changes the case of the digits. *)
Lemma getChecksumAddress_shape body :
  exists f,
    (forall i c, f i c = c \/ f i c = toUpperCase_ascii c)
    /\ Ethers.getChecksumAddress (lit "0x" ++ body)
       = lit "0x" ++ imap f (map toLowerCase_ascii body).
Proof.
  unfold Ethers.getChecksumAddress. rewrite lit_0x.
  eexists (fun i c => if 8 <=? Ethers.hash_nibble _ i then toUpperCase_ascii c else c).
  split.
  - intros i c. destruct (8 <=? _); auto.
  - reflexivity.
Qed.

Lemma map_lower_imap f body :
  (forall i c, f i c = c \/ f i c = toUpperCase_ascii c) ->
  map toLowerCase_ascii (imap f (map toLowerCase_ascii body))
  = map toLowerCase_ascii body.
Proof.
  revert f. induction body as [|x l IH]; intros f Hf; [reflexivity|].
  cbn [map imap]. f_equal.
  - destruct (Hf 0%nat (toLowerCase_ascii x)) as [-> | ->].
    + apply lower_lower.
    + apply lower_upper_lower.
  - apply IH. intros i c. apply Hf.
Qed.

Lemma map_lower_getChecksumAddress body :
  map toLowerCase_ascii (Ethers.getChecksumAddress (lit "0x" ++ body))
  = map toLowerCase_ascii (lit "0x" ++ body).
Proof.
  destruct (getChecksumAddress_shape body) as (f & Hf & ->).
  rewrite !map_app. f_equal. now apply map_lower_imap.
Qed.

Lemma getChecksumAddress_ext a b :
  map toLowerCase_ascii a = map toLowerCase_ascii b ->
  Ethers.getChecksumAddress a = Ethers.getChecksumAddress b.
Proof.
  intros H. unfold Ethers.getChecksumAddress. now rewrite H.
Qed.

Lemma getChecksumAddress_idempotent body :
  Ethers.getChecksumAddress (Ethers.getChecksumAddress (lit "0x" ++ body))
  = Ethers.getChecksumAddress (lit "0x" ++ body).
Proof.
  apply getChecksumAddress_ext, map_lower_getChecksumAddress.
Qed.

Lemma map_hex_value_getChecksumAddress body :
  map hex_value (drop 2 (Ethers.getChecksumAddress (lit "0x" ++ body)))
  = map hex_value body.
Proof.
  destruct (getChecksumAddress_shape body) as (f & Hf & ->).
  rewrite lit_0x. cbn [app skipn]. rewrite drop_0.
  rewrite map_imap_invariant.
  - rewrite map_map. apply map_ext. intros c. apply hex_value_lower.
  - intros i c. destruct (Hf i c) as [-> | ->]; [reflexivity|apply hex_value_upper].
Qed.

Lemma forallb_is_hex_digit l :
  forallb Ethers.is_hex_digit l
  = forallb (fun o : option Z => match o with Some _ => true | None => false end)
            (map hex_value l).
Proof.
  induction l as [|c l IH]; [reflexivity|].
  cbn [forallb map]. rewrite IH. unfold Ethers.is_hex_digit.
  destruct (hex_value c); reflexivity.
Qed.

Lemma matches_prefixed body :
  hex_body body -> Ethers.matches_hex_address (lit "0x" ++ body) = true.
Proof.
  intros [Hl Hd]. unfold Ethers.matches_hex_address.
  replace (startsWith (lit "0x" ++ body) (lit "0x")) with true by reflexivity.
  change (drop 2 (lit "0x" ++ body)) with body.
  rewrite Hl, Hd. reflexivity.
Qed.

Lemma hex_body_checksum body :
  hex_body body ->
  exists body',
    Ethers.getChecksumAddress (lit "0x" ++ body) = lit "0x" ++ body'
    /\ hex_body body' /\ map hex_value body' = map hex_value body.
Proof.
  intros [Hl Hd].
  pose proof (map_hex_value_getChecksumAddress body) as Hm.
  destruct (getChecksumAddress_shape body) as (f & Hf & E).
  rewrite E in Hm |- *. rewrite lit_0x in Hm. cbn [app skipn] in Hm.
  rewrite drop_0 in Hm.
  eexists. split; [reflexivity|]. split; [split|exact Hm].
  - now rewrite length_imap', length_map.
  - rewrite forallb_is_hex_digit, Hm, <- forallb_is_hex_digit. exact Hd.
Qed.

(** [getAddress] accepts its own results and leaves them as they are. *)
Lemma getAddress_checksummed body :
  hex_body body ->
  Ethers.getAddress (Ethers.getChecksumAddress (lit "0x" ++ body))
  = Ok (Ethers.getChecksumAddress (lit "0x" ++ body)).
Proof.
  intros Hb. destruct (hex_body_checksum body Hb) as (body' & E & Hb' & _).
  pose proof (getChecksumAddress_idempotent body) as Hi.
  rewrite E in Hi |- *.
  unfold Ethers.getAddress. rewrite matches_prefixed by assumption.
  replace (startsWith (lit "0x" ++ body') (lit "0x")) with true by reflexivity.
  cbv zeta. rewrite Hi.
  unfold Ethers.jsstring_eqb. rewrite bool_decide_eq_true_2 by reflexivity.
  rewrite orb_true_r. reflexivity.
Qed.

Lemma hex_body_of_bytes id : length id = 20%nat -> hex_body (hex_of_bytes id).
Proof.
  intros Hl. split.
  - rewrite (spells_length _ id (spells_hex_of_bytes id)). lia.
  - rewrite forallb_is_hex_digit, (spells_hex_of_bytes id).
    clear Hl. induction id as [|b id IH]; [reflexivity|].
    cbn [flat_map app forallb]. exact IH.
Qed.

Lemma not_mixed_case_lower id :
  Ethers.is_mixed_case (address_of_bytes id) = false.
Proof.
  unfold Ethers.is_mixed_case.
  replace (existsb _ (address_of_bytes id)) with false; [reflexivity|].
  symmetry. unfold address_of_bytes. rewrite lit_0x. cbn [app existsb].
  replace ((65 <=? 48) && (48 <=? 70)) with false by reflexivity.
  replace ((65 <=? 120) && (120 <=? 70)) with false by reflexivity.
  cbn [orb]. unfold hex_of_bytes.
  induction id as [|b id IH]; [reflexivity|].
  cbn [flat_map to_hex2 app existsb]. rewrite IH.
  pose proof (byte_val_range b).
  unfold hex_digit. zprune; try reflexivity; exfalso; zdiv.
Qed.

(** The address of an identifier is accepted and checksummed. *)
Lemma getAddress_of_bytes id :
  length id = 20%nat ->
  Ethers.getAddress (address_of_bytes id)
  = Ok (Ethers.getChecksumAddress (address_of_bytes id)).
Proof.
  intros Hl. unfold Ethers.getAddress.
  unfold address_of_bytes at 1.
  rewrite matches_prefixed by now apply hex_body_of_bytes.
  replace (startsWith (address_of_bytes id) (lit "0x")) with true by reflexivity.
  cbv zeta. now rewrite not_mixed_case_lower.
Qed.

(** The digits of the checksummed address still spell the identifier. *)
Lemma spells_checksummed id :
  spells (slice_from 2 (Ethers.getChecksumAddress (address_of_bytes id))) id.
Proof.
  unfold spells, slice_from, address_of_bytes.
  rewrite map_hex_value_getChecksumAddress. apply spells_hex_of_bytes.
Qed.

End Address.

(** ** [bigint.toString(16)] and [padStart] *)

Lemma hex_fixed_zero n : hex_fixed n 0 = repeat 48 n.
Proof.
  induction n as [|n IH]; [reflexivity|].
  cbn [hex_fixed]. change (0 / 16) with 0. rewrite IH.
  change [hex_digit (0 mod 16)] with (repeat 48 1).
  rewrite <- repeat_app. f_equal. lia.
Qed.

Lemma length_hex_fixed n v : length (hex_fixed n v) = n.
Proof.
  revert v. induction n as [|n IH]; intros v; [reflexivity|].
  cbn [hex_fixed]. rewrite length_app, IH. cbn. lia.
Qed.

Lemma hex_digits_pos_spec fuel : forall k n acc,
  0 < n < 16 ^ Z.of_nat k -> n < 2 ^ Z.of_nat fuel ->
  exists d, hex_digits_pos fuel n acc = d ++ acc
            /\ (length d <= k)%nat
            /\ repeat 48 (k - length d) ++ d = hex_fixed k n.
Proof.
  induction fuel as [|fuel IH]; intros k n acc Hn Hf.
  - cbn in Hf. lia.
  - destruct k as [|k]; [cbn in Hn; lia|].
    cbn [hex_digits_pos hex_fixed].
    destruct (Z.ltb_spec n 16) as [Hs|Hs].
    + exists [hex_digit n]. split; [reflexivity|]. split; [cbn; lia|].
      cbn [length]. replace (S k - 1)%nat with k by lia.
      rewrite Z.div_small, Z.mod_small by lia. now rewrite hex_fixed_zero.
    + assert (H16 : 16 ^ Z.of_nat (S k) = 16 * 16 ^ Z.of_nat k).
      { rewrite Nat2Z.inj_succ, Z.pow_succ_r by lia. reflexivity. }
      assert (H2 : 2 ^ Z.of_nat (S fuel) = 2 * 2 ^ Z.of_nat fuel).
      { rewrite Nat2Z.inj_succ, Z.pow_succ_r by lia. reflexivity. }
      destruct (IH k (n / 16) (hex_digit (n mod 16) :: acc))
        as (d & Hd & Hl & Hp).
      { split; [zdiv|]. apply Z.div_lt_upper_bound; lia. }
      { apply Z.div_lt_upper_bound; lia. }
      exists (d ++ [hex_digit (n mod 16)]). split; [|split].
      * rewrite Hd, <- app_assoc. reflexivity.
      * rewrite length_app. cbn. lia.
      * rewrite length_app. cbn [length].
        replace (S k - (length d + 1))%nat with (k - length d)%nat by lia.
        now rewrite app_assoc, Hp.
Qed.

Lemma padStart_toString16 k v :
  (1 <= k)%nat -> 0 <= v < 16 ^ Z.of_nat k ->
  padStart k 48 (bigint_toString16 v) = hex_fixed k v.
Proof.
  intros Hk Hv. destruct (Z.eq_dec v 0) as [->|Hz].
  - change (bigint_toString16 0) with (repeat 48 1). unfold padStart.
    rewrite hex_fixed_zero, repeat_length, <- repeat_app. f_equal. lia.
  - unfold bigint_toString16, padStart.
    destruct (Z.ltb_spec v 0); [lia|].
    destruct (hex_digits_pos_spec (Z.to_nat (Z.log2 v + 1)) k v [])
      as (d & Hd & Hl & Hp); [lia| |].
    { pose proof (Z.log2_nonneg v). rewrite Z2Nat.id by lia.
      apply Z.log2_spec. lia. }
    rewrite Hd, app_nil_r. exact Hp.
Qed.

Lemma be_value_app bs b : be_value (bs ++ [b]) = be_value bs * 256 + byte_val b.
Proof.
  unfold be_value. now rewrite fold_left_app.
Qed.

Lemma be_value_range bs : 0 <= be_value bs < 256 ^ Z.of_nat (length bs).
Proof.
  induction bs as [|b bs IH] using rev_ind; [cbn; lia|].
  rewrite be_value_app, length_app. cbn [length].
  replace (Z.of_nat (length bs + 1)) with (Z.succ (Z.of_nat (length bs))) by lia.
  rewrite Z.pow_succ_r by lia. pose proof (byte_val_range b). lia.
Qed.

Lemma hex_of_bytes_app a b : hex_of_bytes (a ++ b) = hex_of_bytes a ++ hex_of_bytes b.
Proof. unfold hex_of_bytes. apply flat_map_app. Qed.

Lemma hex_fixed_be_value bs :
  hex_fixed (2 * length bs) (be_value bs) = hex_of_bytes bs.
Proof.
  induction bs as [|b bs IH] using rev_ind; [reflexivity|].
  rewrite be_value_app, length_app, hex_of_bytes_app. cbn [length].
  replace (2 * (length bs + 1))%nat with (S (S (2 * length bs))) by lia.
  cbn [hex_fixed]. pose proof (byte_val_range b).
  replace ((be_value bs * 256 + byte_val b) / 16 / 16) with (be_value bs) by zdiv.
  rewrite IH, <- app_assoc. f_equal.
  unfold hex_of_bytes. cbn [flat_map to_hex2 app]. f_equal; [f_equal; zdiv|].
  f_equal. f_equal. zdiv.
Qed.

(** The number of an identifier prints, padded, as its forty digits. *)
Lemma padStart_be_value id :
  length id = 20%nat ->
  padStart 40 48 (bigint_toString16 (be_value id)) = hex_of_bytes id.
Proof.
  intros Hl. rewrite padStart_toString16.
  - rewrite <- hex_fixed_be_value, Hl. reflexivity.
  - lia.
  - pose proof (be_value_range id) as Hr. rewrite Hl in Hr.
    change (16 ^ Z.of_nat 40) with (256 ^ Z.of_nat 20). exact Hr.
Qed.

Section Keys.
Context {P : Platform} {L : PlatformLaws P}.

Lemma deriveKeyFromAddress_of_bytes id :
  length id = 20%nat ->
  deriveKeyFromAddress (address_of_bytes id) = Ok (sha256 id).
Proof.
  intros Hl. unfold deriveKeyFromAddress.
  rewrite getAddress_of_bytes by assumption. cbn [mbind result_bind JS.bind].
  rewrite (hexToBytes_spells _ id (spells_checksummed id)).
  apply importKey_sha256.
Qed.

Lemma deriveKeyFromAddress_checksummed id :
  length id = 20%nat ->
  deriveKeyFromAddress (Ethers.getChecksumAddress (address_of_bytes id))
  = Ok (sha256 id).
Proof.
  intros Hl. unfold deriveKeyFromAddress. unfold address_of_bytes at 1.
  rewrite getAddress_checksummed by now apply hex_body_of_bytes.
  cbn [mbind result_bind JS.bind].
  rewrite (hexToBytes_spells _ id (spells_checksummed id)).
  apply importKey_sha256.
Qed.

End Keys.

(** * The claims about the envelope cipher *)

(** A lone surrogate is not kept: under every platform, what comes back is
    U+FFFD. *)
Lemma decrypt_encrypt_lone_surrogate {P : Platform} {L : PlatformLaws P} address g :
  isValidAddress address = true ->
  exists payload g',
    encryptMessage [0xD800] address g = (Ok payload, g')
    /\ decryptMessage payload address = Ok [0xFFFD].
Proof.
  intros Hv. destruct (decryptMessage_encryptMessage [0xD800] address g Hv)
    as (payload & g' & He & Hd).
  exists payload, g'. split; [exact He|]. rewrite Hd. reflexivity.
Qed.

(** The byte order mark at the start is not kept either. *)
Lemma decrypt_encrypt_leading_bom {P : Platform} {L : PlatformLaws P} address g :
  isValidAddress address = true ->
  exists payload g',
    encryptMessage (0xFEFF :: lit "hi") address g = (Ok payload, g')
    /\ decryptMessage payload address = Ok (lit "hi").
Proof.
  intros Hv. destruct (decryptMessage_encryptMessage (0xFEFF :: lit "hi") address g Hv)
    as (payload & g' & He & Hd).
  exists payload, g'. split; [exact He|]. rewrite Hd. reflexivity.
Qed.

(** C1, as stated, fails: the round trip does not return every string.
    The string made of the single code unit 0xD800 comes back as U+FFFD. *)
Lemma roundtrip_not_for_every_string :
  ~ (forall (P : Platform), PlatformLaws P ->
     forall m i g, isValidAddress i = true ->
       exists payload g',
         encryptMessage m i g = (Ok payload, g')
         /\ decryptMessage payload i = Ok m).
Proof.
  intros H.
  destruct (H Sample.platform sample_laws [0xD800] Sample.address1 Sample.zero_tape
              eq_refl) as (payload & g' & He & Hd).
  destruct (@decrypt_encrypt_lone_surrogate Sample.platform sample_laws
              Sample.address1 Sample.zero_tape eq_refl) as (payload' & g'' & He' & Hd').
  rewrite He in He'. injection He' as <- <-.
  rewrite Hd in Hd'. discriminate.
Qed.

(** C1, amended: for every well-formed plaintext string that does not start
    with the byte order mark and every valid address, decrypting the
    encryption under the same address returns the plaintext. *)
Theorem decrypt_encrypt_roundtrip {P : Platform} {L : PlatformLaws P} m i g :
  isValidAddress i = true ->
  code_units m -> isWellFormed m = true -> head m <> Some 0xFEFF ->
  exists payload g',
    encryptMessage m i g = (Ok payload, g')
    /\ decryptMessage payload i = Ok m.
Proof.
  intros Hv Hu Hw Hb.
  destruct (decryptMessage_encryptMessage m i g Hv) as (payload & g' & He & Hd).
  exists payload, g'. split; [exact He|].
  now rewrite Hd, TextDecoder_decode_encode.
Qed.

(** The round trip on the sample platform, for the sentence of the test. *)
Lemma decrypt_encrypt_roundtrip_witness :
  exists payload g',
    encryptMessage (P:=Sample.platform) (lit "Meet at the blue station.") Sample.address1 Sample.zero_tape
    = (Ok payload, g')
    /\ decryptMessage (P:=Sample.platform) payload Sample.address1 = Ok (lit "Meet at the blue station.").
Proof.
  apply (@decrypt_encrypt_roundtrip Sample.platform sample_laws).
  - reflexivity.
  - unfold code_units. apply Forall_forall. intros c Hc.
    apply list_elem_of_In in Hc. vm_compute in Hc.
    repeat (destruct Hc as [<- | Hc]; [lia|]). destruct Hc.
  - reflexivity.
  - discriminate.
Defined.

(** C2: for every plaintext and valid address, [encryptMessage] returns the
    base64 texts of iv, body and tag joined by dots, in this order: exactly
    three fields, each decoding to its bytes; the iv is the next 12 bytes of
    the random source, which moves on by 12; the tag has 16 bytes, and body and tag are the AES-GCM
    encryption of the UTF-8 plaintext under the 32-byte key of the address,
    with no additional data. *)
Theorem encryptMessage_wire_format {P : Platform} {L : PlatformLaws P}
    message address g :
  isValidAddress address = true ->
  exists key iv body tag g',
    encryptMessage message address g
    = (Ok (base64 iv ++ [dot] ++ base64 body ++ [dot] ++ base64 tag), g')
    /\ split dot (base64 iv ++ [dot] ++ base64 body ++ [dot] ++ base64 tag)
       = [base64 iv; base64 body; base64 tag]
    /\ base64ToBytes (base64 iv) = Ok iv
    /\ base64ToBytes (base64 body) = Ok body
    /\ base64ToBytes (base64 tag) = Ok tag
    /\ iv = map (tape g) (seq (cursor g) 12)
    /\ length iv = 12%nat
    /\ tape g' = tape g
    /\ cursor g' = (cursor g + 12)%nat
    /\ length tag = 16%nat
    /\ deriveKeyFromAddress address = Ok key
    /\ length key = 32%nat
    /\ aes_gcm_encrypt key iv [] (TextEncoder_encode message) = Some (body ++ tag).
Proof.
  intros Hv.
  destruct (encryptMessage_ok message address g Hv)
    as (key & iv & body & tag & g' & He & Hg & Hk & Hkl & Hc & Ht).
  exists key, iv, body, tag, g'.
  unfold getRandomValues in Hg. injection Hg as <- <-.
  repeat split; auto using split_wire, base64ToBytes_base64;
    try (now rewrite length_map, length_seq).
Qed.

(** The wire format on the sample platform. *)
Lemma encryptMessage_wire_format_witness :
  exists key iv body tag g',
    encryptMessage (P:=Sample.platform) (lit "Hi!") Sample.address1 Sample.zero_tape
    = (Ok (base64 iv ++ [dot] ++ base64 body ++ [dot] ++ base64 tag), g')
    /\ split dot (base64 iv ++ [dot] ++ base64 body ++ [dot] ++ base64 tag)
       = [base64 iv; base64 body; base64 tag]
    /\ base64ToBytes (base64 iv) = Ok iv
    /\ base64ToBytes (base64 body) = Ok body
    /\ base64ToBytes (base64 tag) = Ok tag
    /\ iv = map (tape Sample.zero_tape) (seq (cursor Sample.zero_tape) 12)
    /\ length iv = 12%nat
    /\ tape g' = tape Sample.zero_tape
    /\ cursor g' = (cursor Sample.zero_tape + 12)%nat
    /\ length tag = 16%nat
    /\ deriveKeyFromAddress (P:=Sample.platform) Sample.address1 = Ok key
    /\ length key = 32%nat
    /\ aes_gcm_encrypt (Platform:=Sample.platform) key iv [] (TextEncoder_encode (lit "Hi!")) = Some (body ++ tag).
Proof.
  apply (@encryptMessage_wire_format Sample.platform sample_laws).
  reflexivity.
Defined.

(** C3: for every 20-byte identifier, the key derived from its address,
    written in lower case or checksummed, is the SHA-256 hash of the 20
    bytes, 32 bytes long: [getAddress] normalizes the address, and the digits
    after [0x] are read back as the bytes of the identifier. *)
Theorem deriveKeyFromAddress_sha256 {P : Platform} {L : PlatformLaws P} id :
  length id = 20%nat ->
  exists normalized,
    Ethers.getAddress (address_of_bytes id) = Ok normalized
    /\ Ethers.getAddress normalized = Ok normalized
    /\ hexToBytes (slice_from 2 normalized) = id
    /\ deriveKeyFromAddress (address_of_bytes id) = Ok (sha256 id)
    /\ deriveKeyFromAddress normalized = Ok (sha256 id)
    /\ length (sha256 id) = 32%nat.
Proof.
  intros Hl. exists (Ethers.getChecksumAddress (address_of_bytes id)).
  split; [now apply getAddress_of_bytes|].
  split; [apply getAddress_checksummed; now apply hex_body_of_bytes|].
  split; [apply hexToBytes_spells, spells_checksummed|].
  split; [now apply deriveKeyFromAddress_of_bytes|].
  split; [now apply deriveKeyFromAddress_checksummed|].
  apply sha256_length.
Qed.

(** The key of the identifier made of twenty bytes 0x11. *)
Lemma deriveKeyFromAddress_sha256_witness :
  exists normalized,
    Ethers.getAddress (P:=Sample.platform) (address_of_bytes (repeat x11 20))
    = Ok normalized
    /\ Ethers.getAddress (P:=Sample.platform) normalized = Ok normalized
    /\ hexToBytes (slice_from 2 normalized) = repeat x11 20
    /\ deriveKeyFromAddress (P:=Sample.platform) (address_of_bytes (repeat x11 20))
       = Ok (sha256 (Platform:=Sample.platform) (repeat x11 20))
    /\ deriveKeyFromAddress (P:=Sample.platform) normalized
       = Ok (sha256 (Platform:=Sample.platform) (repeat x11 20))
    /\ length (sha256 (Platform:=Sample.platform) (repeat x11 20)) = 32%nat.
Proof.
  apply (@deriveKeyFromAddress_sha256 Sample.platform sample_laws).
  reflexivity.
Defined.

(** ** [decryptMessage] on payloads that are not well formed *)

Lemma base64ToBytes_throw s e : base64ToBytes s = Throw e -> e = InvalidCharacterError.
Proof.
  unfold base64ToBytes, atob. cbv zeta.
  destruct (_ =? 1); [now intros [= <-]|].
  destruct (b64_values _); [discriminate|now intros [= <-]].
Qed.

Section Malformed.
Context {P : Platform}.

Lemma deriveKeyFromAddress_throw address e :
  deriveKeyFromAddress address = Throw e -> e = InvalidAddress \/ e = DataError.
Proof.
  unfold deriveKeyFromAddress, Ethers.getAddress.
  destruct (Ethers.matches_hex_address address).
  - cbv zeta. destruct (_ || _); cbn [mbind result_bind JS.bind].
    + unfold importKey. destruct (_ || _); [discriminate|]. intros [= <-]. now right.
    + intros [= <-]. now left.
  - destruct (ican_address address); cbn [of_option mbind result_bind JS.bind].
    + unfold importKey. destruct (_ || _); [discriminate|]. intros [= <-]. now right.
    + intros [= <-]. now left.
Qed.

Lemma decryptMessage_parts payload address :
  length (split dot payload) <> 3%nat ->
  decryptMessage payload address = Throw invalid_payload.
Proof.
  unfold decryptMessage. cbv zeta.
  destruct (split dot payload) as [|a [|b [|c [|d l]]]]; cbn [length]; try reflexivity.
  intros H. now elim H.
Qed.

Lemma decryptMessage_three payload address a b c :
  split dot payload = [a; b; c] ->
  decryptMessage payload address <> Throw invalid_payload.
Proof.
  intros Hs. unfold decryptMessage. rewrite Hs.
  destruct (base64ToBytes a) as [iv|e] eqn:Ea; cbn [mbind result_bind JS.bind].
  2:{ apply base64ToBytes_throw in Ea as ->. discriminate. }
  destruct (base64ToBytes b) as [data|e] eqn:Eb; cbn [mbind result_bind JS.bind].
  2:{ apply base64ToBytes_throw in Eb as ->. discriminate. }
  destruct (base64ToBytes c) as [tag|e] eqn:Ec; cbn [mbind result_bind JS.bind].
  2:{ apply base64ToBytes_throw in Ec as ->. discriminate. }
  destruct (deriveKeyFromAddress address) as [key|e] eqn:Ek;
    cbn [mbind result_bind JS.bind].
  2:{ apply deriveKeyFromAddress_throw in Ek as [-> | ->]; discriminate. }
  destruct (aes_gcm_decrypt key iv [] (data ++ tag));
    cbn [of_option mbind result_bind JS.bind]; discriminate.
Qed.

Lemma decryptMessage_bad_base64 payload address a b c :
  split dot payload = [a; b; c] ->
  (exists e, base64ToBytes a = Throw e \/ base64ToBytes b = Throw e
             \/ base64ToBytes c = Throw e) ->
  decryptMessage payload address = Throw InvalidCharacterError.
Proof.
  intros Hs He. unfold decryptMessage. rewrite Hs.
  destruct (base64ToBytes a) as [iv|e] eqn:Ea; cbn [mbind result_bind JS.bind].
  2:{ now apply base64ToBytes_throw in Ea as ->. }
  destruct (base64ToBytes b) as [data|e] eqn:Eb; cbn [mbind result_bind JS.bind].
  2:{ now apply base64ToBytes_throw in Eb as ->. }
  destruct (base64ToBytes c) as [tag|e] eqn:Ec; cbn [mbind result_bind JS.bind].
  2:{ now apply base64ToBytes_throw in Ec as ->. }
  destruct He as (e & [H | [H | H]]); discriminate.
Qed.

End Malformed.

(** Any way of cutting the output of the cipher into a second and a third
    field decrypts: the two fields are only joined again. *)
Lemma decryptMessage_any_cut {P : Platform} {L : PlatformLaws P}
    address key iv pt ct data tag :
  deriveKeyFromAddress address = Ok key ->
  aes_gcm_encrypt key iv [] pt = Some ct ->
  data ++ tag = ct ->
  decryptMessage (base64 iv ++ [dot] ++ base64 data ++ [dot] ++ base64 tag) address
  = Ok (TextDecoder_decode pt).
Proof.
  intros Hk Hc <-. rewrite (decryptMessage_wire _ _ _ _ key Hk).
  now rewrite (aes_gcm_decrypt_encrypt _ _ _ _ _ Hc).
Qed.

(** C4, as stated, fails: field lengths are not checked.  A payload whose
    third field holds 17 bytes (the last byte of the body moved in front of
    the tag) and whose iv holds 13 bytes does not fail at all: it is
    decrypted. *)
Lemma wrong_field_lengths_not_rejected :
  ~ (forall (P : Platform), PlatformLaws P ->
     forall payload address a b c iv data tag,
       split dot payload = [a; b; c] ->
       base64ToBytes a = Ok iv -> base64ToBytes b = Ok data ->
       base64ToBytes c = Ok tag ->
       length iv <> 12%nat \/ length tag <> 16%nat ->
       exists e, decryptMessage payload address = Throw e).
Proof.
  intros H.
  pose (iv := repeat x00 13). pose (data := @nil byte).
  pose (tag := x41 :: Sample.stamp (Sample.digest32 (repeat x11 20))).
  destruct (H Sample.platform sample_laws
              (base64 iv ++ [dot] ++ base64 data ++ [dot] ++ base64 tag)
              Sample.address1 _ _ _ iv data tag
              (split_wire iv data tag)
              (base64ToBytes_base64 iv) (base64ToBytes_base64 data)
              (base64ToBytes_base64 tag)) as [e He].
  - left. vm_compute. discriminate.
  - assert (E : decryptMessage (P:=Sample.platform)
                  (base64 iv ++ [dot] ++ base64 data ++ [dot] ++ base64 tag)
                  Sample.address1 = Ok (lit "A")) by (vm_compute; reflexivity).
    rewrite E in He. discriminate He.
Qed.

(** C4, amended: [decryptMessage] fails with the error "Invalid encrypted
    message payload" exactly when the payload does not have three fields
    between dots.  With three fields, a field that is not base64 text makes
    it fail with the decoder's error, and otherwise the fields are handed to
    the cipher whatever their lengths: the result is the cipher's verdict on
    the key of the address, the first field and the other two joined. *)
Theorem decryptMessage_malformed {P : Platform} payload address :
  (decryptMessage payload address = Throw invalid_payload
   <-> length (split dot payload) <> 3%nat)
  /\ (forall a b c,
        split dot payload = [a; b; c] ->
        (exists e, base64ToBytes a = Throw e \/ base64ToBytes b = Throw e
                   \/ base64ToBytes c = Throw e) ->
        decryptMessage payload address = Throw InvalidCharacterError)
  /\ (forall a b c iv data tag key,
        split dot payload = [a; b; c] ->
        base64ToBytes a = Ok iv -> base64ToBytes b = Ok data ->
        base64ToBytes c = Ok tag ->
        deriveKeyFromAddress address = Ok key ->
        decryptMessage payload address
        = match aes_gcm_decrypt key iv [] (data ++ tag) with
          | Some decrypted => Ok (TextDecoder_decode decrypted)
          | None => Throw OperationError
          end).
Proof.
  split; [split|split].
  - intros Hd Hl.
    destruct (split dot payload) as [|a [|b [|c [|d l]]]] eqn:Hs; try (now elim Hl).
    now apply (decryptMessage_three payload address a b c Hs).
  - apply decryptMessage_parts.
  - intros a b c. apply decryptMessage_bad_base64.
  - intros a b c iv data tag key. apply decryptMessage_fields.
Qed.

(** Two fields, and three fields of which one is not base64 text. *)
Lemma decryptMessage_malformed_witness :
  decryptMessage (P:=Sample.platform) (lit "AAAA.AAAA") Sample.address1
  = Throw invalid_payload
  /\ decryptMessage (P:=Sample.platform) (lit "AAAA.A*AA.AAAA") Sample.address1
     = Throw InvalidCharacterError.
Proof.
  split.
  - apply (proj1 (@decryptMessage_malformed Sample.platform (lit "AAAA.AAAA")
                    Sample.address1)).
    vm_compute. discriminate.
  - apply (proj1 (proj2 (@decryptMessage_malformed Sample.platform
                           (lit "AAAA.A*AA.AAAA") Sample.address1))
             (lit "AAAA") (lit "A*AA") (lit "AAAA")).
    + reflexivity.
    + exists InvalidCharacterError. right. left. reflexivity.
Defined.

(** ** The decrypted key as a number *)

Lemma length_be_bytes n v : length (be_bytes n v) = n.
Proof.
  revert v. induction n as [|n IH]; intros v; [reflexivity|].
  cbn [be_bytes]. rewrite length_app, IH. cbn. lia.
Qed.

Lemma be_value_be_bytes n v :
  0 <= v < 256 ^ Z.of_nat n -> be_value (be_bytes n v) = v.
Proof.
  revert v. induction n as [|n IH]; intros v Hv.
  - cbn in Hv. cbn. lia.
  - cbn [be_bytes]. rewrite be_value_app.
    rewrite Nat2Z.inj_succ, Z.pow_succ_r in Hv by lia.
    rewrite IH by (split; [zdiv|apply Z.div_lt_upper_bound; lia]).
    rewrite byte_val_to_uint8 by zdiv. zdiv.
Qed.

Section Normalize.
Context {P : Platform} {L : PlatformLaws P}.

Lemma normalizeDecryptedAddress_be_value id :
  length id = 20%nat ->
  normalizeDecryptedAddress (VBigInt (be_value id))
  = Ok (Ethers.getChecksumAddress (address_of_bytes id)).
Proof.
  intros Hl. unfold normalizeDecryptedAddress, normalizeAddress.
  rewrite padStart_be_value by assumption.
  now apply getAddress_of_bytes.
Qed.

Lemma getAddress_without_prefix body :
  startsWith body (lit "0x") = false -> hex_body body ->
  Ethers.getAddress body = Ethers.getAddress (lit "0x" ++ body).
Proof.
  intros Hs Hb. unfold Ethers.getAddress.
  rewrite matches_prefixed by assumption.
  replace (Ethers.matches_hex_address body) with true.
  2:{ unfold Ethers.matches_hex_address. rewrite Hs.
      destruct Hb as [-> ->]. reflexivity. }
  rewrite Hs.
  replace (startsWith (lit "0x" ++ body) (lit "0x")) with true by reflexivity.
  reflexivity.
Qed.

End Normalize.

(** C10: [normalizeDecryptedAddress] gives the checksummed address of the
    identifier a decrypted key stands for.  A bigint below 2^160 is printed
    in hexadecimal and padded with zeros to exactly forty digits, which are
    the digits of its 20 bytes; a string gets [0x] in front only when it does
    not start with it.  The key derived from the result is the SHA-256 hash
    of the 20 bytes, the key of the original address. *)
Theorem normalizeDecryptedAddress_key {P : Platform} {L : PlatformLaws P} v :
  0 <= v < 2 ^ 160 ->
  let id := be_bytes 20 v in
  let address := Ethers.getChecksumAddress (address_of_bytes id) in
  length id = 20%nat /\ be_value id = v
  /\ padStart 40 48 (bigint_toString16 v) = hex_of_bytes id
  /\ length (padStart 40 48 (bigint_toString16 v)) = 40%nat
  /\ normalizeDecryptedAddress (VBigInt v) = Ok address
  /\ (forall s, normalizeDecryptedAddress (VString s)
                = Ethers.getAddress (if startsWith s (lit "0x") then s
                                     else lit "0x" ++ s))
  /\ normalizeDecryptedAddress (VString (hex_of_bytes id)) = Ok address
  /\ normalizeDecryptedAddress (VString (address_of_bytes id)) = Ok address
  /\ normalizeDecryptedAddress (VString address) = Ok address
  /\ deriveKeyFromAddress address = Ok (sha256 id)
  /\ deriveKeyFromAddress (address_of_bytes id) = Ok (sha256 id).
Proof.
  intros Hv id address.
  assert (Hl : length id = 20%nat) by apply length_be_bytes.
  assert (Hb : be_value id = v).
  { apply be_value_be_bytes. change (256 ^ Z.of_nat 20) with (2 ^ 160). exact Hv. }
  assert (Hp : padStart 40 48 (bigint_toString16 v) = hex_of_bytes id).
  { rewrite <- Hb. now apply padStart_be_value. }
  assert (Hh : hex_body (hex_of_bytes id)) by now apply hex_body_of_bytes.
  split; [exact Hl|]. split; [exact Hb|]. split; [exact Hp|].
  split; [rewrite Hp; apply Hh|].
  split; [rewrite <- Hb; now apply normalizeDecryptedAddress_be_value|].
  split; [reflexivity|].
  split.
  { unfold normalizeDecryptedAddress, normalizeAddress.
    destruct (startsWith (hex_of_bytes id) (lit "0x")) eqn:Hs.
    - exfalso. destruct id as [|b id]; [discriminate|].
      cbn in Hs. apply andb_prop in Hs as [_ Hs]. apply andb_prop in Hs as [Hs _].
      pose proof (Z.mod_pos_bound (byte_val b) 16 ltac:(lia)) as Hm.
      revert Hs Hm. generalize (byte_val b mod 16). intros z Hs Hm.
      unfold hex_digit in Hs.
      destruct (Z.ltb_spec z 10); apply Z.eqb_eq in Hs; lia.
    - now apply getAddress_of_bytes. }
  split.
  { unfold normalizeDecryptedAddress, normalizeAddress.
    replace (startsWith (address_of_bytes id) (lit "0x")) with true by reflexivity.
    now apply getAddress_of_bytes. }
  split.
  { unfold normalizeDecryptedAddress, normalizeAddress.
    destruct (hex_body_checksum _ Hh) as (body' & E & _).
    unfold address, address_of_bytes. rewrite E.
    replace (startsWith (lit "0x" ++ body') (lit "0x")) with true by reflexivity.
    rewrite <- E. now apply getAddress_checksummed. }
  split; [now apply deriveKeyFromAddress_checksummed|].
  now apply deriveKeyFromAddress_of_bytes.
Qed.

(** A small number gets its leading zeros. *)
Lemma normalizeDecryptedAddress_key_witness :
  normalizeDecryptedAddress (P:=Sample.platform) (VBigInt 0x1111)
  = Ok (lit "0x0000000000000000000000000000000000001111").
Proof.
  pose proof (@normalizeDecryptedAddress_key Sample.platform sample_laws 0x1111
                ltac:(lia)) as H.
  cbv zeta in H. destruct H as (_ & _ & _ & _ & H & _).
  rewrite H. vm_compute. reflexivity.
Defined.

(** ** The message ledger *)

Section Ledger.
Context {F : FHEVM}.
Variable this : address.

Lemma messages_of_insert st r l r' :
  default [] (<[r := l]> (_messages st) !! r') =
  if decide (r = r') then l else messages_of st r'.
Proof.
  unfold messages_of. destruct (decide (r = r')) as [->|Hne].
  - now rewrite lookup_insert_eq.
  - now rewrite lookup_insert_ne.
Qed.

Lemma messages_of_pushed (ms : gmap address (list Message)) r l a lg :
  messages_of {| _messages := <[r := l]> ms; acl := a; logs := lg |} r = l.
Proof.
  unfold messages_of. cbn [_messages]. now rewrite lookup_insert_eq.
Qed.

(** A successful call: what was checked and the state it leaves. *)
Lemma send_success c st st' :
  send this c st = (inl tt, st') ->
  c_recipient c <> 0%N /\ c_message c <> []
  /\ exists key,
       fromExternal this (msg_sender (c_env c)) (c_key c) (c_proof c) = Some key
       /\ let m := {| sender := msg_sender (c_env c);
                      encryptedMessage := c_message c;
                      encryptedKey := key;
                      timestamp := block_timestamp (c_env c) |} in
          st' = {| _messages :=
                     <[c_recipient c := messages_of st (c_recipient c) ++ [m]]>
                       (_messages st);
                   acl := {[ (key, c_recipient c) ]} ∪ ({[ (key, this) ]} ∪ acl st);
                   logs := logs st ++
                           [MessageSent (msg_sender (c_env c)) (c_recipient c)
                              (N.of_nat (length (messages_of st (c_recipient c))))] |}.
Proof.
  unfold send, sendMessage, and_then, require, FHE_fromExternal, push,
    FHE_allowThis, FHE_allow, emit.
  destruct (N.eqb_spec (c_recipient c) 0) as [E|E]; cbn [negb]; [discriminate|].
  destruct (c_message c) as [|b bs] eqn:Em; cbn [length Nat.ltb Nat.leb]; [discriminate|].
  destruct (fromExternal this (msg_sender (c_env c)) (c_key c) (c_proof c))
    as [key|] eqn:Ek; [|discriminate].
  cbn [_messages acl logs]. intros [= <-].
  split; [assumption|]. split; [discriminate|].
  exists key. split; [reflexivity|]. cbv zeta. f_equal. f_equal. f_equal.
  rewrite messages_of_pushed, length_app. cbn [length]. f_equal. lia.
Qed.

Lemma transact_success st c st' :
  transact this st c = (None, st') -> send this c st = (inl tt, st').
Proof.
  unfold transact. destruct (send this c st) as [[[]|f] st'']; now intros [= <-].
Qed.

Lemma run_messages calls : forall st st',
  run this st calls = Some st' ->
  forall r,
    map (fun m => Some (entry m)) (messages_of st' r)
    = map (fun m => Some (entry m)) (messages_of st r)
      ++ map (stored this) (appended calls r).
Proof.
  induction calls as [|c calls IH]; intros st st' Hrun r.
  - cbn in Hrun. injection Hrun as <-. cbn. now rewrite app_nil_r.
  - cbn [run] in Hrun.
    destruct (transact this st c) as [[f|] st1] eqn:Ht; [discriminate|].
    apply transact_success, send_success in Ht as (Hr & Hm & key & Hk & ->).
    rewrite (IH _ _ Hrun r). unfold appended. rewrite filter_cons.
    unfold messages_of at 1. cbn [_messages]. rewrite messages_of_insert.
    destruct (decide (c_recipient c = r)) as [->|Hne].
    + rewrite map_app, <- app_assoc. f_equal. cbn [map app]. f_equal.
      unfold stored. rewrite Hk. reflexivity.
    + reflexivity.
Qed.

Lemma run_app calls more st :
  run this st (calls ++ more) = (st' ← run this st calls; run this st' more).
Proof.
  revert st. induction calls as [|c calls IH]; intros st; [reflexivity|].
  cbn [app run]. destruct (transact this st c) as [[f|] st1]; [reflexivity|].
  apply IH.
Qed.

Lemma getMessageAt_entry st r k :
  getMessageAt st r (N.of_nat k) = entry <$> (messages_of st r !! k).
Proof.
  unfold getMessageAt. rewrite Nat2N.id.
  destruct (messages_of st r !! k); reflexivity.
Qed.

Lemma run_count calls st st' r :
  run this st calls = Some st' ->
  length (messages_of st' r)
  = (length (messages_of st r) + length (appended calls r))%nat.
Proof.
  intros Hrun. pose proof (run_messages calls st st' Hrun r) as H.
  apply (f_equal length) in H. now rewrite length_app, !length_map in H.
Qed.

Lemma run_kept calls st st' r k :
  run this st calls = Some st' ->
  (k < length (messages_of st r))%nat ->
  messages_of st' r !! k = messages_of st r !! k.
Proof.
  intros Hrun Hk. pose proof (run_messages calls st st' Hrun r) as H.
  apply (f_equal (fun l => l !! k)) in H.
  rewrite lookup_app_l in H by now rewrite length_map.
  rewrite !list_lookup_fmap in H.
  destruct (messages_of st' r !! k) as [m'|], (messages_of st r !! k) as [m|];
    cbn in H; try discriminate; [|reflexivity].
  destruct m, m'. unfold entry in H. cbn in H. congruence.
Qed.

Lemma run_stored calls st r k c :
  run this deployed calls = Some st ->
  appended calls r !! k = Some c ->
  exists m, messages_of st r !! k = Some m /\ stored this c = Some (entry m).
Proof.
  intros Hrun Hc. pose proof (run_messages calls deployed st Hrun r) as H.
  change (messages_of deployed r) with (@nil Message) in H. cbn [map app] in H.
  apply (f_equal (fun l => l !! k)) in H.
  rewrite !list_lookup_fmap, Hc in H. cbn in H.
  destruct (messages_of st r !! k) as [m|]; [|discriminate].
  exists m. split; [reflexivity|]. cbn in H. now injection H as <-.
Qed.

(** The events of a run: one for each call, in order, its index the length
    of the recipient's log before the call. *)
Lemma run_logs calls : forall st st',
  run this st calls = Some st' ->
  exists evs,
    logs st' = logs st ++ evs
    /\ forall i c, calls !! i = Some c ->
         evs !! i
         = Some (MessageSent (msg_sender (c_env c)) (c_recipient c)
                   (N.of_nat (length (messages_of st (c_recipient c))
                              + length (appended (take i calls) (c_recipient c))))).
Proof.
  induction calls as [|c calls IH]; intros st st' Hrun.
  - cbn in Hrun. injection Hrun as <-. exists []. split; [now rewrite app_nil_r|].
    intros i c Hc. discriminate.
  - cbn [run] in Hrun.
    destruct (transact this st c) as [[f|] st1] eqn:Ht; [discriminate|].
    apply transact_success, send_success in Ht as (Hr & Hm & key & Hk & E).
    cbv zeta in E.
    destruct (IH _ _ Hrun) as (evs & Hl & He).
    rewrite E in Hl. cbn [logs] in Hl. rewrite <- app_assoc in Hl.
    eexists. split; [exact Hl|].
    intros [|i] c' Hc'.
    + cbn in Hc'. injection Hc' as <-. cbn. repeat f_equal. lia.
    + cbn [lookup list_lookup] in Hc'. cbn [app].
      change ((?x :: evs) !! S i) with (evs !! i).
      rewrite (He i c' Hc'). f_equal. f_equal. f_equal.
      rewrite E. unfold messages_of at 1. cbn [_messages].
      rewrite messages_of_insert. unfold appended. cbn [take]. rewrite filter_cons.
      destruct (decide (c_recipient c = c_recipient c')) as [->|Hne].
      * rewrite length_app. cbn [length]. lia.
      * reflexivity.
Qed.

End Ledger.

Section Store.
Context {F : FHEVM}.
Variable this : address.

(** The accounts allowed for a handle after a run: the contract, and the
    recipients of the calls that stored it. *)
Lemma run_acl calls : forall st st',
  run this st calls = Some st' ->
  forall h p,
    (h, p) ∈ acl st' <->
    (h, p) ∈ acl st
    \/ exists c, c ∈ calls
         /\ fromExternal this (msg_sender (c_env c)) (c_key c) (c_proof c) = Some h
         /\ (p = this \/ p = c_recipient c).
Proof.
  induction calls as [|c calls IH]; intros st st' Hrun h p.
  - cbn in Hrun. injection Hrun as <-. split; [now left|].
    intros [H | (c & Hc & _)]; [assumption|]. now apply elem_of_nil in Hc.
  - cbn [run] in Hrun.
    destruct (transact this st c) as [[f|] st1] eqn:Ht; [discriminate|].
    apply transact_success, send_success in Ht as (Hr & Hm & key & Hk & E).
    cbv zeta in E. rewrite (IH _ _ Hrun h p). rewrite E. cbn [acl].
    rewrite !elem_of_union, !elem_of_singleton. split.
    + intros [[[= -> ->] | [[= -> ->] | H]] | (c' & Hc' & Hk' & Hp)].
      * right. exists c. split; [left|]. split; [exact Hk|now right].
      * right. exists c. split; [left|]. split; [exact Hk|now left].
      * now left.
      * right. exists c'. split; [now right|]. now split.
    + intros [H | (c' & Hc' & Hk' & Hp)]; [left; right; right; exact H|].
      apply elem_of_cons in Hc' as [-> | Hc'].
      * left. rewrite Hk in Hk'. injection Hk' as ->.
        destruct Hp as [-> | ->]; [right; left|left]; reflexivity.
      * right. exists c'. now repeat split.
Qed.


End Store.

(** * The claims about the ledger and the key store *)

(** C6: [sendMessage] fails with "Invalid recipient" for every call whose
    recipient is the zero address, and with "Empty message" for every call
    whose ciphertext is empty and whose recipient passed that first check; a
    call with an empty ciphertext fails in either case.  The checks come
    before any change: the state when the call stops is the state it started
    in, and so is the state after the transaction, as after every failed
    call; the contract has no other [require]. *)
Theorem sendMessage_rejects {F : FHEVM} this c st :
  (c_recipient c = 0%N ->
   send this c st = (inr (Require "Invalid recipient"), st)
   /\ transact this st c = (Some (Require "Invalid recipient"), st))
  /\ (c_recipient c <> 0%N -> c_message c = [] ->
      send this c st = (inr (Require "Empty message"), st)
      /\ transact this st c = (Some (Require "Empty message"), st))
  /\ (c_message c = [] ->
      exists reason,
        send this c st = (inr (Require reason), st)
        /\ transact this st c = (Some (Require reason), st)
        /\ reason = (if (c_recipient c =? 0)%N then "Invalid recipient"
                     else "Empty message")%string)
  /\ (forall f st', send this c st = (inr f, st') ->
      st' = st
      /\ (f = Require "Invalid recipient" /\ c_recipient c = 0%N
          \/ f = Require "Empty message" /\ c_recipient c <> 0%N
             /\ c_message c = []
          \/ f = InputRefused /\ c_recipient c <> 0%N /\ c_message c <> []))
  /\ (forall f st', transact this st c = (Some f, st') ->
      st' = st
      /\ forall r, getMessageCount st' r = getMessageCount st r
                   /\ forall k, getMessageAt st' r k = getMessageAt st r k).
Proof.
  assert (H0 : c_recipient c = 0%N ->
               send this c st = (inr (Require "Invalid recipient"), st)).
  { intros Hr. unfold send, sendMessage, and_then, require. now rewrite Hr. }
  assert (H1 : c_recipient c <> 0%N -> c_message c = [] ->
               send this c st = (inr (Require "Empty message"), st)).
  { intros Hr Hm. unfold send, sendMessage, and_then, require. rewrite Hm.
    destruct (N.eqb_spec (c_recipient c) 0); [contradiction|]. reflexivity. }
  split; [|split; [|split; [|split]]].
  - intros Hr. split; [now apply H0|]. unfold transact. now rewrite H0.
  - intros Hr Hm. split; [now apply H1|]. unfold transact. now rewrite H1.
  - intros Hm. destruct (N.eqb_spec (c_recipient c) 0) as [Hr|Hr].
    + exists "Invalid recipient"%string. split; [now apply H0|].
      split; [|reflexivity]. unfold transact. now rewrite H0.
    + exists "Empty message"%string. split; [now apply H1|].
      split; [|reflexivity]. unfold transact. now rewrite H1.
  - intros f st'.
    destruct (N.eqb_spec (c_recipient c) 0) as [Hr|Hr].
    { rewrite (H0 Hr). intros [= <- <-]. split; [reflexivity|]. now left. }
    destruct (c_message c) as [|b bs] eqn:Hm.
    { rewrite (H1 Hr eq_refl). intros [= <- <-]. split; [reflexivity|].
      right. left. now repeat split. }
    unfold send, sendMessage, and_then, require, FHE_fromExternal, push,
      FHE_allowThis, FHE_allow, emit.
    rewrite Hm. destruct (N.eqb_spec (c_recipient c) 0) as [|_]; [contradiction|].
    cbn [negb length Nat.ltb Nat.leb].
    destruct (fromExternal this (msg_sender (c_env c)) (c_key c) (c_proof c));
      [discriminate|].
    intros [= <- <-]. split; [reflexivity|]. right. right. now repeat split.
  - intros f st'. unfold transact.
    destruct (send this c st) as [[[]|f'] st'']; intros [= <- <-].
    split; [reflexivity|]. intros r. split; [reflexivity|]. reflexivity.
Qed.

(** The two rejections on the sample chain. *)
Lemma sendMessage_rejects_witness :
  transact (F:=SampleChain.fhevm) SampleChain.contract deployed
    {| c_env := {| msg_sender := 1%N; block_timestamp := 0%N |};
       c_recipient := 0%N; c_message := [x41]; c_key := 5%N; c_proof := [x01] |}
  = (Some (Require "Invalid recipient"), deployed)
  /\ transact (F:=SampleChain.fhevm) SampleChain.contract deployed
       (SampleChain.to_bob 5 [] 0)
     = (Some (Require "Empty message"), deployed).
Proof.
  split.
  - apply (proj1 (@sendMessage_rejects SampleChain.fhevm SampleChain.contract
                    _ deployed)). reflexivity.
  - apply (proj1 (proj2 (@sendMessage_rejects SampleChain.fhevm
                           SampleChain.contract _ deployed))).
    + discriminate.
    + reflexivity.
Defined.

(** C7: after a run of successful calls from the deployed contract, for
    every recipient the count is the number of calls addressed to it, the
    [k]-th of them is read back at index [k] with its sender, ciphertext, key
    handle and timestamp, nothing is read past the count, and the event of
    each call carries the length of the recipient's log before the call; more
    calls leave what is stored where it is and never lower a count.  The count
    of a recipient without calls is zero. *)
Theorem ledger_log {F : FHEVM} this calls st :
  run this deployed calls = Some st ->
  forall r,
    getMessageCount st r = N.of_nat (length (appended calls r))
    /\ (forall k c, appended calls r !! k = Some c ->
          exists record, stored this c = Some record
                         /\ getMessageAt st r (N.of_nat k) = Some record)
    /\ (forall k, (getMessageCount st r <= k)%N -> getMessageAt st r k = None)
    /\ (forall i c, calls !! i = Some c -> c_recipient c = r ->
          logs st !! i
          = Some (MessageSent (msg_sender (c_env c)) r
                    (N.of_nat (length (appended (take i calls) r)))))
    /\ (forall more st', run this st more = Some st' ->
          (getMessageCount st r <= getMessageCount st' r)%N
          /\ forall k, (k < getMessageCount st r)%N ->
               getMessageAt st' r k = getMessageAt st r k)
    /\ (appended calls r = [] -> getMessageCount st r = 0%N)
    /\ getMessageCount deployed r = 0%N.
Proof.
  intros Hrun r.
  assert (Hc : length (messages_of st r) = length (appended calls r)).
  { rewrite (run_count this calls deployed st r Hrun). reflexivity. }
  split; [unfold getMessageCount; now rewrite Hc|].
  split.
  { intros k c Hk. destruct (run_stored this calls st r k c Hrun Hk) as (m & Hm & Hs).
    exists (entry m). split; [exact Hs|].
    rewrite getMessageAt_entry, Hm. reflexivity. }
  split.
  { intros k Hk. unfold getMessageAt, getMessageCount in *.
    rewrite lookup_ge_None_2 by lia. reflexivity. }
  split.
  { intros i c Hi <-. destruct (run_logs this calls deployed st Hrun) as (evs & Hl & He).
    rewrite Hl. cbn [logs deployed app]. rewrite (He i c Hi). reflexivity. }
  split.
  { intros more st' Hmore.
    pose proof (run_count this more st st' r Hmore) as Hc'.
    split; [unfold getMessageCount; lia|].
    intros k Hk. unfold getMessageCount in Hk.
    rewrite <- (N2Nat.id k), !getMessageAt_entry.
    rewrite (run_kept this more st st' r (N.to_nat k) Hmore) by lia. reflexivity. }
  split.
  { intros He. unfold getMessageCount. now rewrite Hc, He. }
  reflexivity.
Qed.

(** Two messages to the same recipient. *)
Lemma ledger_log_witness :
  exists st,
    run (F:=SampleChain.fhevm) SampleChain.contract deployed
      [SampleChain.to_bob 5 [x41] 10; SampleChain.to_bob 6 [x42] 11] = Some st
    /\ getMessageCount st SampleChain.bob = 2%N
    /\ getMessageAt st SampleChain.bob 1
       = Some (SampleChain.alice, [x42], 6%N, 11%N).
Proof.
  pose proof (@ledger_log SampleChain.fhevm SampleChain.contract
                [SampleChain.to_bob 5 [x41] 10; SampleChain.to_bob 6 [x42] 11]) as H.
  destruct (run (F:=SampleChain.fhevm) SampleChain.contract deployed
              [SampleChain.to_bob 5 [x41] 10; SampleChain.to_bob 6 [x42] 11])
    as [st|] eqn:Hrun; [|vm_compute in Hrun; discriminate Hrun].
  exists st. split; [reflexivity|].
  destruct (H st eq_refl SampleChain.bob) as (Hcount & Hget & _).
  split; [rewrite Hcount; reflexivity|].
  destruct (Hget 1%nat (SampleChain.to_bob 6 [x42] 11) eq_refl)
    as (record & Hs & Hg).
  change (N.of_nat 1) with 1%N in Hg. rewrite Hg, <- Hs. reflexivity.
Defined.




Import Inbox.

(** * The claim about the decrypt session *)

Lemma setDecrypting_twice item a b u :
  setDecrypting item b (setDecrypting item a u) = setDecrypting item b u.
Proof.
  unfold setDecrypting. cbn [messages error]. f_equal.
  rewrite map_map. apply map_ext. intros m.
  destruct (index m =? index item) eqn:E; cbn [index]; now rewrite E.
Qed.

Lemma setDecrypted_setDecrypting item a key text u :
  setDecrypted item key text (setDecrypting item a u) = setDecrypted item key text u.
Proof.
  unfold setDecrypted, setDecrypting. cbn [messages error]. f_equal.
  rewrite map_map. apply map_ext. intros m.
  destruct (index m =? index item) eqn:E; cbn [index]; now rewrite E.
Qed.

Lemma setDecrypting_setError item a t u :
  setDecrypting item a (setError t u) = setError t (setDecrypting item a u).
Proof. reflexivity. Qed.

Section Session.
Context {P : Platform} {R : Relayer}.

(** What an attempt leaves in the component. *)
Lemma settle_start item outcome u :
  settle item outcome (setDecrypting item true u)
  = match outcome with
    | Ok (key, text) => setDecrypted item key text u
    | Throw e => setError (error_text e) (setDecrypting item false u)
    end.
Proof.
  unfold settle. destruct outcome as [[key text]|e].
  - apply setDecrypted_setDecrypting.
  - now rewrite setDecrypting_setError, setDecrypting_twice.
Qed.


(** The signed data does not depend on the item. *)
Lemma signed_data_same_for_all_items h item1 item2 u1 u2 w :
  signed_data (snd (handleDecrypt h item1 u1 w))
  = signed_data (snd (handleDecrypt h item2 u2 w)).
Proof.
  unfold handleDecrypt.
  destruct (account h) as [address|]; [|reflexivity].
  destruct (instance_ready h); [|reflexivity].
  destruct (signerPromise h) as [[s|]|]; [| |reflexivity].
  - destruct (truthy (Some address)); [|reflexivity].
    unfold attempt. destruct (generateKeypair (rng w)) as [kp g].
    destruct (signTypedData s _); reflexivity.
  - destruct (truthy (Some address)); reflexivity.
Qed.

End Session.

(** C9, as stated, fails: the signed authorization names no handle.  Two
    attempts at the same time on records with different handles sign the
    same typed data; the handle is only in the request sent with it. *)
Lemma signed_data_names_no_handle :
  ~ (forall (P : Platform) (R : Relayer) h item1 item2 u w d1 d2,
       signed_data (snd (handleDecrypt h item1 u w)) = Some d1 ->
       signed_data (snd (handleDecrypt h item2 u w)) = Some d2 ->
       encryptedKey item1 <> encryptedKey item2 ->
       d1 <> d2).
Proof.
  intros H.
  eapply (H Sample.platform SampleInbox.relayer SampleInbox.connected
            (SampleInbox.item (lit "0xaa")) (SampleInbox.item (lit "0xbb"))
            {| messages := []; error := None |} SampleInbox.start).
  - reflexivity.
  - reflexivity.
  - discriminate.
  - reflexivity.
Qed.

(** C9, amended: an attempt with a connected account, a relayer instance
    and a signer draws a keypair from the random source, which moves on;
    has the signer sign typed data made of the public key, the contract
    address, the current time in seconds and a duration of 10 days; and, when
    the signature is given, sends one request that names the handle of the
    record with the contract address, the two keys, the signature, the
    account, the same start and the same 10 days.  Of the attempt the
    component keeps the decrypted key and text, or the error, and nothing
    else: the key stored is the address [normalizeDecryptedAddress] makes of
    the relayer's answer for the handle, the text is what [decryptMessage]
    makes of the payload under it, and the error is that of the step that
    failed; neither key pair nor signature is in the state left. *)
Theorem handleDecrypt_session {P : Platform} {R : Relayer}
    h item u w address s :
  account h = Some address -> address <> [] ->
  instance_ready h = true -> signerPromise h = Some (Some s) ->
  let keys := fst (generateKeypair (rng w)) in
  let start := number_toString (now_ms w / 1000) in
  let data := createEIP712 (publicKey keys) [CONTRACT_ADDRESS] start (lit "10") in
  let r := fun signature =>
    {| handleContractPairs := [(encryptedKey item, CONTRACT_ADDRESS)];
       req_privateKey := privateKey keys;
       req_publicKey := publicKey keys;
       req_signature := remove_first_0x signature;
       contractAddresses := [CONTRACT_ADDRESS];
       userAddress := address;
       startTimeStamp := start;
       durationDays := lit "10" |} in
  let outcome :=
    match signTypedData s data with
    | Throw e => Throw e
    | Ok signature =>
        result ← userDecrypt (r signature);
        rawKey ← of_option (Error (lit "Failed to retrieve decrypted key."))
                   (lookup_key (encryptedKey item) result);
        decryptedKey ← normalizeDecryptedAddress rawKey;
        decryptedMessage ← decryptMessage (encryptedMessage item) decryptedKey;
        Ok (decryptedKey, decryptedMessage)
    end in
  let out :=
    match signTypedData s data with
    | Throw _ => [Signed s data]
    | Ok signature => [Signed s data; Requested (r signature)]
    end in
  let u' := fst (fst (handleDecrypt h item u w)) in
  handleDecrypt h item u w
  = (settle item outcome (setDecrypting item true u),
     {| rng := snd (generateKeypair (rng w)); now_ms := now_ms w |}, out)
  /\ match outcome with
     | Ok (key, text) =>
         u' = setDecrypted item key text u
         /\ exists signature result rawKey,
              signTypedData s data = Ok signature
              /\ userDecrypt (r signature) = Ok result
              /\ lookup_key (encryptedKey item) result = Some rawKey
              /\ normalizeDecryptedAddress rawKey = Ok key
              /\ decryptMessage (encryptedMessage item) key = Ok text
     | Throw e => u' = setError (error_text e) (setDecrypting item false u)
     end
  /\ forall k x',
       messages u' !! k = Some x' ->
       exists x,
         messages u !! k = Some x
         /\ index x' = index x /\ sender x' = sender x
         /\ encryptedMessage x' = encryptedMessage x
         /\ encryptedKey x' = encryptedKey x /\ timestamp x' = timestamp x
         /\ (decryptedKey x' = decryptedKey x
             /\ decryptedMessage x' = decryptedMessage x
             \/ exists key text,
                  outcome = Ok (key, text)
                  /\ decryptedKey x' = Some key /\ decryptedMessage x' = Some text).
Proof.
  intros Ha Hne Hi Hs keys start data r outcome out u'.
  assert (E : handleDecrypt h item u w
              = (settle item outcome (setDecrypting item true u),
                 {| rng := snd (generateKeypair (rng w)); now_ms := now_ms w |},
                 out)).
  { unfold handleDecrypt. rewrite Ha, Hi, Hs.
    replace (truthy (Some address)) with true
      by (destruct address; [contradiction|reflexivity]).
    unfold attempt. subst outcome out keys start data r.
    destruct (generateKeypair (rng w)) as [kp g]. cbn [fst snd].
    destruct (signTypedData s _) as [signature|e]; reflexivity. }
  assert (Eu : u' = settle item outcome (setDecrypting item true u)).
  { subst u'. now rewrite E. }
  split; [exact E|]. rewrite Eu, settle_start. clear E Eu u'. split.
  - destruct outcome as [[key text]|e] eqn:Eo; [|reflexivity].
    split; [reflexivity|]. subst outcome.
    destruct (signTypedData s data) as [signature|e]; [|discriminate].
    exists signature.
    destruct (userDecrypt (r signature)) as [result|e] eqn:Er;
      cbn [mbind result_bind JS.bind] in Eo; [|discriminate].
    exists result.
    destruct (lookup_key (encryptedKey item) result) as [rawKey|] eqn:El;
      cbn [of_option mbind result_bind JS.bind] in Eo; [|discriminate].
    exists rawKey.
    destruct (normalizeDecryptedAddress rawKey) as [key'|e] eqn:En;
      cbn [mbind result_bind JS.bind] in Eo; [|discriminate].
    destruct (decryptMessage (encryptedMessage item) key') as [text'|e] eqn:Ed;
      cbn [mbind result_bind JS.bind] in Eo; [|discriminate].
    injection Eo as <- <-. now repeat split.
  - intros k x'. destruct outcome as [[key text]|e].
    + unfold setDecrypted. cbn [messages]. rewrite list_lookup_fmap.
      destruct (messages u !! k) as [x|]; [|discriminate].
      cbn [fmap option_fmap option_map]. intros [= <-]. exists x.
      split; [reflexivity|].
      destruct (index x =? index item); cbn;
        repeat split; try reflexivity; [right; now exists key, text|now left].
    + unfold setError, setDecrypting. cbn [messages]. rewrite list_lookup_fmap.
      destruct (messages u !! k) as [x|]; [|discriminate].
      cbn [fmap option_fmap option_map]. intros [= <-]. exists x.
      split; [reflexivity|].
      destruct (index x =? index item); cbn; repeat split; try reflexivity;
        now left.
Qed.

(** One attempt with the sample relayer. *)
Lemma handleDecrypt_session_witness :
  exists u,
    handleDecrypt (P:=Sample.platform) (R:=SampleInbox.relayer)
      SampleInbox.connected (SampleInbox.item (lit "0xaa"))
      {| messages := [SampleInbox.item (lit "0xaa")]; error := None |}
      SampleInbox.start
    = (u,
       {| rng := {| tape := fun _ => x00; cursor := 2 |}; now_ms := 1700000000123 |},
       [@Signed SampleInbox.relayer (lit "a1")
          [[0]; lit "1700000000"; lit "10";
           lit "0x00000000000000000000000000000000000000c0"];
        @Requested SampleInbox.relayer
          {| handleContractPairs :=
               [(lit "0xaa", lit "0x00000000000000000000000000000000000000c0")];
             req_privateKey := [0];
             req_publicKey := [0];
             req_signature :=
               lit "a1" ++ [0] ++ lit "1700000000" ++ lit "10"
               ++ lit "0x00000000000000000000000000000000000000c0";
             contractAddresses := [lit "0x00000000000000000000000000000000000000c0"];
             userAddress := lit "0x00000000000000000000000000000000000000a1";
             startTimeStamp := lit "1700000000";
             durationDays := lit "10" |}]).
Proof.
  destruct (@handleDecrypt_session Sample.platform SampleInbox.relayer
              SampleInbox.connected (SampleInbox.item (lit "0xaa"))
              {| messages := [SampleInbox.item (lit "0xaa")]; error := None |}
              SampleInbox.start
              (lit "0x00000000000000000000000000000000000000a1") (lit "a1")
              eq_refl ltac:(discriminate) eq_refl eq_refl)
    as (E & _).
  rewrite E. eexists. f_equal.
Defined.

(** ** The task script *)

Section TaskProofs.
Context {P : Platform} {N : Task.Node} {L : Task.NodeLaws P N}.

Lemma task_deriveKey_valid address :
  isValidAddress address = true ->
  exists key, Task.deriveKeyFromAddress address = Ok key /\ length key = 32%nat.
Proof.
  unfold isValidAddress, Ethers.isAddress, Task.deriveKeyFromAddress.
  destruct (Ethers.getAddress address) as [n|e]; [|discriminate].
  intros _. eexists. split; [reflexivity|]. apply Task.node_sha256_length.
Qed.

Lemma length_getRandomValues n g : length (fst (getRandomValues n g)) = n.
Proof.
  unfold getRandomValues. cbn [fst]. now rewrite length_map, length_seq.
Qed.

(** X1: the task script's copy of the cipher has the same round trip: for
    every well-formed plaintext and valid address,
    [decryptMessageWithAddress] gives back what [encryptMessageWithAddress]
    was given, and the payload is [iv.body.tag] in base64 with 12 and 16
    bytes of iv and tag. *)
Theorem task_decrypt_encrypt_roundtrip m i g :
  isValidAddress i = true -> code_units m -> isWellFormed m = true ->
  exists iv body tag g',
    Task.encryptMessageWithAddress m i g
    = (Ok (base64 iv ++ [dot] ++ base64 body ++ [dot] ++ base64 tag), g')
    /\ length iv = 12%nat /\ length tag = 16%nat
    /\ Task.decryptMessageWithAddress
         (base64 iv ++ [dot] ++ base64 body ++ [dot] ++ base64 tag) i
       = Ok m.
Proof.
  intros Hv Hu Hw. destruct (task_deriveKey_valid i Hv) as (key & Hk & Hl).
  pose proof (length_getRandomValues 12 g) as Hiv.
  destruct (getRandomValues 12 g) as [iv g'] eqn:Hg. cbn [fst] in Hiv.
  destruct (Task.gcm_seal_tag key iv (TextEncoder_encode m) Hl)
    as (ct & tag & Hs & Ht).
  { intros ->. discriminate Hiv. }
  exists iv, ct, tag, g'. split; [|split; [exact Hiv|split; [exact Ht|]]].
  - unfold Task.encryptMessageWithAddress. rewrite Hk, Hg, Hs. reflexivity.
  - unfold Task.decryptMessageWithAddress. rewrite split_wire.
    rewrite !Task.Buffer_from_base64_text, Hk. cbn [mbind result_bind JS.bind].
    rewrite (Task.gcm_open_seal _ _ _ _ _ Hs). cbn [of_option mbind result_bind JS.bind].
    now rewrite Task.Buffer_toString_utf8_text.
Qed.

End TaskProofs.

Section TaskParts.
Context {P : Platform} {N : Task.Node}.

Lemma task_deriveKey_throw address e :
  Task.deriveKeyFromAddress address = Throw e -> e = InvalidAddress.
Proof.
  unfold Task.deriveKeyFromAddress, Ethers.getAddress.
  destruct (Ethers.matches_hex_address address).
  - cbv zeta. destruct (_ || _); cbn [mbind result_bind JS.bind];
      [discriminate|now intros [= <-]].
  - destruct (ican_address address); cbn [of_option mbind result_bind JS.bind];
      [discriminate|now intros [= <-]].
Qed.

(** X2: the task script's [decryptMessageWithAddress] raises "Invalid
    encrypted message payload" exactly when the payload does not have three
    fields between dots; with three fields the result is what the cipher
    makes of the decoded fields under the key of the address. *)
Theorem task_decrypt_parts payload address :
  (Task.decryptMessageWithAddress payload address = Throw invalid_payload
   <-> length (split dot payload) <> 3%nat)
  /\ (forall a b c key,
        split dot payload = [a; b; c] ->
        Task.deriveKeyFromAddress address = Ok key ->
        Task.decryptMessageWithAddress payload address
        = match Task.gcm_open key (Task.Buffer_from_base64 a)
                  (Task.Buffer_from_base64 c) (Task.Buffer_from_base64 b) with
          | Some plaintext => Ok (Task.Buffer_toString_utf8 plaintext)
          | None => Throw OperationError
          end).
Proof.
  split; [split|].
  - intros Hd Hl. unfold Task.decryptMessageWithAddress in Hd. cbv zeta in Hd.
    destruct (split dot payload) as [|a [|b [|c [|d l]]]] eqn:Hs; try (now elim Hl).
    destruct (Task.deriveKeyFromAddress address) as [key|e] eqn:Ek;
      cbn [mbind result_bind JS.bind] in Hd.
    + destruct (Task.gcm_open _ _ _ _); discriminate Hd.
    + apply task_deriveKey_throw in Ek as ->. discriminate Hd.
  - intros Hl. unfold Task.decryptMessageWithAddress. cbv zeta.
    destruct (split dot payload) as [|a [|b [|c [|d l]]]]; cbn [length] in Hl;
      try reflexivity. now elim Hl.
  - intros a b c key Hs Hk. unfold Task.decryptMessageWithAddress.
    rewrite Hs, Hk. cbn [mbind result_bind JS.bind].
    destruct (Task.gcm_open _ _ _ _); reflexivity.
Qed.

End TaskParts.

#[local] Instance sample_node_laws : Task.NodeLaws Sample.platform SampleNode.node.
Proof.
  split.
  - apply (@sha256_length Sample.platform sample_laws).
  - intros s bs. apply hexToBytes_spells.
  - intros bs. cbn. now rewrite base64ToBytes_base64.
  - intros s Hu Hw. cbn. apply isWellFormed_well_formed in Hw; [|assumption].
    unfold TextEncoder_encode.
    rewrite utf8_run_flat by now apply code_points_scalar.
    now apply utf16_units_code_points.
  - intros key iv pt _ _. exists pt, (Sample.stamp key). split; [reflexivity|].
    unfold Sample.stamp. rewrite length_take, length_app, repeat_length. lia.
  - intros key iv pt ct tag. cbn. intros [= <- <-].
    now rewrite bool_decide_eq_true_2.
Qed.

(** The round trip of the task script on the sample platform. *)
Lemma task_decrypt_encrypt_roundtrip_witness :
  exists iv body tag g',
    Task.encryptMessageWithAddress (P:=Sample.platform) (N:=SampleNode.node)
      (lit "Sepolia relay check") Sample.address1 Sample.zero_tape
    = (Ok (base64 iv ++ [dot] ++ base64 body ++ [dot] ++ base64 tag), g')
    /\ length iv = 12%nat /\ length tag = 16%nat
    /\ Task.decryptMessageWithAddress (P:=Sample.platform) (N:=SampleNode.node)
         (base64 iv ++ [dot] ++ base64 body ++ [dot] ++ base64 tag)
         Sample.address1
       = Ok (lit "Sepolia relay check").
Proof.
  apply (@task_decrypt_encrypt_roundtrip Sample.platform SampleNode.node
           sample_node_laws).
  - reflexivity.
  - unfold code_units. apply Forall_forall. intros c Hc.
    apply list_elem_of_In in Hc. vm_compute in Hc.
    repeat (destruct Hc as [<- | Hc]; [lia|]). destruct Hc.
  - reflexivity.
Defined.

(** X3: [decryptMessage] returns a text only if the payload has three
    fields that decode, the address has a key, and the cipher accepted the
    first field as iv with the second and third joined; the text is the
    decoding of what the cipher returned.  A failed verification yields no
    output. *)
Theorem decryptMessage_fail_closed {P : Platform} payload address m :
  decryptMessage payload address = Ok m ->
  exists a b c iv data tag key pt,
    split dot payload = [a; b; c]
    /\ base64ToBytes a = Ok iv /\ base64ToBytes b = Ok data
    /\ base64ToBytes c = Ok tag
    /\ deriveKeyFromAddress address = Ok key
    /\ aes_gcm_decrypt key iv [] (data ++ tag) = Some pt
    /\ m = TextDecoder_decode pt.
Proof.
  unfold decryptMessage. cbv zeta.
  destruct (split dot payload) as [|a [|b [|c [|d l]]]] eqn:Hs; try discriminate.
  destruct (base64ToBytes a) as [iv|e] eqn:Ea; [|discriminate].
  destruct (base64ToBytes b) as [data|e] eqn:Eb; [|discriminate].
  destruct (base64ToBytes c) as [tag|e] eqn:Ec; [|discriminate].
  destruct (deriveKeyFromAddress address) as [key|e] eqn:Ek; [|discriminate].
  cbn [mbind result_bind JS.bind].
  destruct (aes_gcm_decrypt key iv [] (data ++ tag)) as [pt|] eqn:Ed; [|discriminate].
  cbn [of_option mbind result_bind JS.bind]. intros [= <-].
  exists a, b, c, iv, data, tag, key, pt. now repeat split.
Qed.

(** The fields behind a decrypted payload of the sample platform. *)
Lemma decryptMessage_fail_closed_witness :
  exists a b c iv data tag key pt,
    split dot (lit "AAAAAAAAAAAAAAAA.SGkh.EREREREREREREREREREREQ==") = [a; b; c]
    /\ base64ToBytes a = Ok iv /\ base64ToBytes b = Ok data
    /\ base64ToBytes c = Ok tag
    /\ deriveKeyFromAddress (P:=Sample.platform) Sample.address1 = Ok key
    /\ aes_gcm_decrypt (Platform:=Sample.platform) key iv [] (data ++ tag) = Some pt
    /\ lit "Hi!" = TextDecoder_decode pt.
Proof.
  apply (@decryptMessage_fail_closed Sample.platform _ Sample.address1).
  vm_compute. reflexivity.
Defined.

(** * More of the code *)

Section HexDigits.
Context {P : Platform}.

Lemma hex_number_app s c : hex_number (s ++ [c]) = hex_number s * 16 + default 0 (hex_value c).
Proof. unfold hex_number. now rewrite fold_left_app. Qed.

(** A string of digits of even length spells bytes. *)
Lemma hex_digits_spells s :
  hex_digits s -> Nat.even (length s) = true ->
  exists bs, spells s bs.
Proof.
  remember (length s) as n eqn:Hn. revert s Hn.
  induction n as [n IH] using lt_wf_ind. intros s Hn Hd He.
  destruct s as [|c1 [|c2 s]].
  - exists []. reflexivity.
  - subst n. discriminate He.
  - unfold hex_digits in Hd. cbn [forallb] in Hd.
    apply andb_prop in Hd as [H1 Hd]. apply andb_prop in Hd as [H2 Hd].
    unfold Ethers.is_hex_digit in H1, H2.
    destruct (hex_value c1) as [v1|] eqn:E1; [|discriminate].
    destruct (hex_value c2) as [v2|] eqn:E2; [|discriminate].
    destruct (IH (length s) ltac:(subst n; cbn; lia) s eq_refl Hd) as [bs Hbs].
    { subst n. cbn [length] in He. now rewrite Nat.even_succ_succ in He. }
    exists (to_uint8 (v1 * 16 + v2) :: bs).
    unfold spells in *. cbn [map flat_map app]. rewrite E1, E2, Hbs.
    apply hex_value_range in E1, E2. unfold nibble in *.
    rewrite byte_val_to_uint8 by lia.
    repeat f_equal; zdiv.
Qed.
End HexDigits.

Lemma spells_be_value bs : forall s acc,
  spells s bs ->
  fold_left (fun acc c => acc * 16 + default 0 (hex_value c)) s acc
  = fold_left (fun acc b => acc * 256 + byte_val b) bs acc.
Proof.
  induction bs as [|b bs IH]; intros s acc H.
  - unfold spells in H. cbn in H. apply map_eq_nil in H. now subst s.
  - unfold spells in H. cbn [flat_map app] in H.
    destruct s as [|c1 [|c2 s]]; try discriminate.
    cbn [map] in H. injection H as H1 H2 H.
    cbn [fold_left]. rewrite H1, H2. cbn [from_option id].
    rewrite (IH s _ H). f_equal. pose proof (byte_val_range b). zdiv.
Qed.

Lemma hexToBytes_odd s :
  Nat.even (length s) = false -> hexToBytes s = hexToBytes (48 :: s).
Proof.
  intros H. unfold hexToBytes. cbv zeta. rewrite H.
  cbn [length]. rewrite Nat.even_succ. rewrite <- Nat.negb_even, H. reflexivity.
Qed.

Lemma length_hexToBytes s : length (hexToBytes s) = ((length s + 1) / 2)%nat.
Proof.
  unfold hexToBytes. cbv zeta. rewrite length_map, length_seq.
  destruct (Nat.even (length s)) eqn:E.
  - apply Nat.even_spec in E as [k E]. rewrite E.
    rewrite !(Nat.mul_comm 2 k), Nat.div_mul, Nat.div_add_l by lia.
    cbn. lia.
  - cbn [length]. assert (O : Nat.odd (length s) = true) by now rewrite <- Nat.negb_even, E.
    apply Nat.odd_spec in O as [k O]. rewrite O.
    replace (S (2 * k + 1)) with ((k + 1) * 2)%nat by lia.
    replace (2 * k + 1 + 1)%nat with ((k + 1) * 2)%nat by lia.
    reflexivity.
Qed.

(** X5: [hexToBytes] reads a string of hexadecimal digits of any length
    and case as the bytes, most significant first, of the number the string
    writes: a string of odd length is read as if it had a zero in front, the
    result has half as many bytes, rounded up, and the bytes written in
    hexadecimal come back as they were. *)
Theorem hexToBytes_hex_number s :
  hex_digits s ->
  length (hexToBytes s) = ((length s + 1) / 2)%nat
  /\ be_value (hexToBytes s) = hex_number s
  /\ (Nat.even (length s) = false -> hexToBytes s = hexToBytes (48 :: s))
  /\ (forall bs, spells s bs -> hexToBytes s = bs)
  /\ (forall bs, hexToBytes (hex_of_bytes bs) = bs).
Proof.
  intros Hd. split; [apply length_hexToBytes|].
  split; [|split; [apply hexToBytes_odd|split]].
  - destruct (Nat.even (length s)) eqn:E.
    + destruct (hex_digits_spells s Hd E) as [bs Hbs].
      rewrite (hexToBytes_spells s bs Hbs). unfold be_value, hex_number.
      symmetry. now apply spells_be_value.
    + rewrite (hexToBytes_odd s E).
      assert (Hd' : hex_digits (48 :: s)) by (unfold hex_digits; cbn [forallb]; now rewrite Hd).
      destruct (hex_digits_spells (48 :: s) Hd') as [bs Hbs].
      { cbn [length]. now rewrite Nat.even_succ, <- Nat.negb_even, E. }
      rewrite (hexToBytes_spells _ bs Hbs). unfold be_value, hex_number.
      rewrite <- (spells_be_value bs _ 0 Hbs). reflexivity.
  - apply hexToBytes_spells.
  - intros bs. apply hexToBytes_spells, spells_hex_of_bytes.
Qed.

(** Three digits, of both cases. *)
Lemma hexToBytes_hex_number_witness :
  length (hexToBytes (lit "aBc")) = 2%nat
  /\ be_value (hexToBytes (lit "aBc")) = 0xabc.
Proof.
  destruct (hexToBytes_hex_number (lit "aBc") eq_refl) as (Hl & Hv & _).
  split; [exact Hl|]. rewrite Hv. reflexivity.
Defined.

(** ** base64 *)

Lemma length_b64_encode_exact bs :
  length (b64_encode bs) = (4 * ((length bs + 2) / 3))%nat.
Proof.
  induction bs as [|a|a b|a b c r IH] using list_ind3; cbn [b64_encode length].
  - reflexivity.
  - reflexivity.
  - reflexivity.
  - rewrite IH.
    replace (S (S (S (length r))) + 2)%nat with (1 * 3 + (length r + 2))%nat by lia.
    rewrite Nat.div_add_l by lia. lia.
Qed.

Lemma strip_padding_plain s :
  Forall (fun c => c <> pad) s -> strip_padding s = s.
Proof.
  induction 1 as [|c s Hc _ IH]; [reflexivity|].
  now rewrite strip_padding_cons, IH.
Qed.

Lemma sextets_chars_plain bs :
  Forall octet bs ->
  Forall (fun c => c <> pad /\ is_ascii_whitespace c = false) (map b64_char (sextets bs)).
Proof.
  intros H. apply sextets_range in H. apply Forall_fmap.
  eapply Forall_impl; [exact H|]. intros v Hv. cbn.
  destruct (b64_char_plain v Hv) as (H1 & _ & H3). now split.
Qed.

(** Text without its padding decodes as well. *)
Lemma atob_unpadded bs :
  Forall octet bs -> atob (map b64_char (sextets bs)) = Ok bs.
Proof.
  intros H. pose proof (sextets_chars_plain bs H) as Hp. unfold atob.
  rewrite filter_all.
  2:{ eapply Forall_impl; [exact Hp|]. cbn. intros c [_ ->]. reflexivity. }
  assert (Hs : strip_padding (map b64_char (sextets bs)) = map b64_char (sextets bs)).
  { apply strip_padding_plain. eapply Forall_impl; [exact Hp|]. now intros c [Hc _]. }
  rewrite Hs, length_map.
  destruct (Z.of_nat (length (sextets bs)) mod 4 =? 0); rewrite length_map;
    destruct (length_sextets bs) as [j HS];
    (destruct (Z.eqb_spec (Z.of_nat (length (sextets bs)) mod 4) 1) as [E|_];
     [exfalso; zdiv|]);
    rewrite b64_values_chars by (now apply sextets_range);
    now rewrite b64_decode_sextets.
Qed.

(** X4: [base64ToBytes] undoes [bytesToBase64]: for every byte array the
    encoder does not fail, its text has four characters for every three bytes
    begun and no dot in it, and the decoder gives the bytes back, from the
    text as it is and from the text without its padding. *)
Theorem base64ToBytes_bytesToBase64 (bs : bytes) :
  exists s,
    bytesToBase64 bs = Ok s
    /\ base64ToBytes s = Ok bs
    /\ length s = (4 * ((length bs + 2) / 3))%nat
    /\ Forall (fun c => c <> dot) s
    /\ base64ToBytes (strip_padding s) = Ok bs.
Proof.
  exists (b64_encode (map byte_val bs)).
  split; [apply bytesToBase64_eq|]. split; [apply base64ToBytes_encode|].
  split; [now rewrite length_b64_encode_exact, length_map|].
  split.
  { eapply Forall_impl; [apply b64_encode_plain, Forall_octet_byte_val|].
    cbn. now intros c [Hc _]. }
  rewrite strip_padding_encode by apply Forall_octet_byte_val.
  unfold base64ToBytes. rewrite atob_unpadded by apply Forall_octet_byte_val.
  cbn. now rewrite map_to_uint8_byte_val.
Qed.

(** ** Spellings of an address *)

Lemma lower_hex_digit c v : hex_value c = Some v -> toLowerCase_ascii c = hex_digit v.
Proof.
  unfold hex_value, toLowerCase_ascii, hex_digit. zprune; intros [= <-]; zprune; lia.
Qed.

Lemma spells_lower s bs : spells s bs -> map toLowerCase_ascii s = hex_of_bytes bs.
Proof.
  revert s. induction bs as [|b bs IH]; intros s H.
  - unfold spells in H. cbn in H. apply map_eq_nil in H. now subst s.
  - unfold spells in H. cbn [flat_map app] in H.
    destruct s as [|c1 [|c2 s]]; try discriminate.
    cbn [map] in H. injection H as H1 H2 H.
    cbn [map]. rewrite (lower_hex_digit _ _ H1), (lower_hex_digit _ _ H2).
    rewrite (IH s H). reflexivity.
Qed.

Lemma hex_body_no_prefix body : hex_body body -> startsWith body (lit "0x") = false.
Proof.
  intros [Hl Hd]. destruct body as [|c1 [|c2 body]]; try discriminate.
  cbn [forallb] in Hd. apply andb_prop in Hd as [_ Hd]. apply andb_prop in Hd as [H2 _].
  unfold Ethers.is_hex_digit, hex_value in H2.
  rewrite lit_0x. cbn [startsWith].
  destruct (Z.eqb_spec 120 c2) as [<-|]; [discriminate H2|].
  now rewrite andb_false_r.
Qed.

Section Spellings.
Context {P : Platform} {L : PlatformLaws P}.

Lemma hex_body_id body :
  hex_body body ->
  exists id, length id = 20%nat /\ spells body id
             /\ Ethers.getChecksumAddress (lit "0x" ++ body)
                = Ethers.getChecksumAddress (address_of_bytes id).
Proof.
  intros [Hl Hd]. destruct (hex_digits_spells body Hd) as [id Hs].
  { now rewrite Hl. }
  exists id. split; [|split; [exact Hs|]].
  - apply spells_length in Hs. lia.
  - apply getChecksumAddress_ext. unfold address_of_bytes.
    rewrite !map_app. f_equal. rewrite <- (spells_lower _ _ Hs).
    rewrite map_map. apply map_ext. intros c. symmetry. apply lower_lower.
Qed.

(** What [getAddress] makes of [0x] and forty digits. *)
Lemma getAddress_hex_body body :
  hex_body body ->
  Ethers.getAddress (lit "0x" ++ body)
  = if negb (Ethers.is_mixed_case (lit "0x" ++ body))
       || Ethers.jsstring_eqb (Ethers.getChecksumAddress (lit "0x" ++ body))
            (lit "0x" ++ body)
    then Ok (Ethers.getChecksumAddress (lit "0x" ++ body))
    else Throw InvalidAddress.
Proof.
  intros Hb. unfold Ethers.getAddress. rewrite matches_prefixed by assumption.
  replace (startsWith (lit "0x" ++ body) (lit "0x")) with true by reflexivity.
  reflexivity.
Qed.

(** X7: an address written as [0x] and forty hexadecimal digits is valid
    exactly when its letters are all of one case or it is its own checksum
    spelling.  Every valid spelling of the same twenty bytes is normalized to
    the same checksummed address, which [normalizeAddress] leaves as it is
    and which has 42 characters; the spelling without [0x] is treated alike;
    a spelling that is not valid is refused with the error of the library;
    and the key of a valid spelling is the hash of the twenty bytes. *)
Theorem normalizeAddress_spellings body :
  hex_body body ->
  exists id,
    length id = 20%nat /\ spells body id
    /\ let sum := Ethers.getChecksumAddress (address_of_bytes id) in
       (isValidAddress (lit "0x" ++ body) = true
        <-> Ethers.is_mixed_case (lit "0x" ++ body) = false \/ lit "0x" ++ body = sum)
       /\ (isValidAddress (lit "0x" ++ body) = true ->
           normalizeAddress (lit "0x" ++ body) = Ok sum
           /\ deriveKeyFromAddress (lit "0x" ++ body) = Ok (sha256 id))
       /\ (isValidAddress (lit "0x" ++ body) = false ->
           normalizeAddress (lit "0x" ++ body) = Throw InvalidAddress)
       /\ normalizeAddress body = normalizeAddress (lit "0x" ++ body)
       /\ normalizeAddress sum = Ok sum
       /\ normalizeAddress (address_of_bytes id) = Ok sum
       /\ length sum = 42%nat.
Proof.
  intros Hb. destruct (hex_body_id body Hb) as (id & Hl & Hs & Hc).
  exists id. split; [exact Hl|]. split; [exact Hs|]. cbv zeta.
  pose proof (getAddress_hex_body body Hb) as Hg. rewrite Hc in Hg.
  unfold isValidAddress, Ethers.isAddress, normalizeAddress.
  split; [|split; [|split; [|split; [|split; [|split]]]]].
  - rewrite Hg. unfold Ethers.jsstring_eqb.
    destruct (Ethers.is_mixed_case (lit "0x" ++ body)); cbn [negb orb].
    + destruct (bool_decide_reflect
                  (Ethers.getChecksumAddress (address_of_bytes id) = lit "0x" ++ body))
        as [E|E].
      * split; [intros _; now right|reflexivity].
      * split; [discriminate|]. intros [?|E']; [discriminate|]. now elim E.
    + split; [intros _; now left|reflexivity].
  - rewrite Hg. destruct (_ || _); [|discriminate]. intros _. split; [reflexivity|].
    unfold deriveKeyFromAddress. rewrite Hg. cbn [mbind result_bind JS.bind].
    rewrite (hexToBytes_spells _ id (spells_checksummed id)).
    apply importKey_sha256.
  - rewrite Hg. destruct (_ || _); [discriminate|reflexivity].
  - apply getAddress_without_prefix; [now apply hex_body_no_prefix|assumption].
  - unfold address_of_bytes. apply getAddress_checksummed. now apply hex_body_of_bytes.
  - now apply getAddress_of_bytes.
  - destruct (getChecksumAddress_shape (hex_of_bytes id)) as (f & _ & E).
    unfold address_of_bytes. rewrite E, length_app, length_imap', length_map.
    destruct (hex_body_of_bytes id Hl) as [-> _]. reflexivity.
Qed.

End Spellings.

(** A mixed spelling that is not the checksum is refused. *)
Lemma normalizeAddress_spellings_witness :
  normalizeAddress (P:=Sample.platform)
    (lit "0x" ++ lit "00000000000000000000000000000000000000Ab")
  = Throw InvalidAddress.
Proof.
  destruct (@normalizeAddress_spellings Sample.platform sample_laws
              (lit "00000000000000000000000000000000000000Ab")
              (conj eq_refl eq_refl)) as (id & _ & _ & H).
  cbv zeta in H. destruct H as (_ & _ & Hbad & _).
  apply Hbad. reflexivity.
Defined.

(** ** [hexToBytes] on text that is not hexadecimal *)

Lemma hex_prefix_none s :
  Forall (fun c => hex_value c = None) s -> hex_prefix None s = None.
Proof.
  destruct 1 as [|c s Hc _]; [reflexivity|]. cbn [hex_prefix]. now rewrite Hc.
Qed.

Lemma Forall_trim_start (Q : Z -> Prop) s : Forall Q s -> Forall Q (trim_start s).
Proof.
  induction 1 as [|c s Hc Hs IH]; [constructor|].
  cbn [trim_start]. destruct (is_js_whitespace c); [exact IH|now constructor].
Qed.

Lemma parseInt16_none s :
  Forall (fun c => hex_value c = None) s -> parseInt16 s = None.
Proof.
  intros H. apply Forall_trim_start in H. unfold parseInt16.
  destruct (trim_start s) as [|c r]; [reflexivity|].
  inversion_clear H as [|? ? Hc Hr].
  assert (A1 : hex_prefix None (c :: r) = None) by (cbn; now rewrite Hc).
  assert (A2 : hex_prefix None r = None) by now apply hex_prefix_none.
  assert (A3 : forall z x r', r = z :: x :: r' -> hex_prefix None r' = None).
  { intros z x r' ->. inversion_clear Hr as [|? ? _ Hr1].
    inversion_clear Hr1 as [|? ? _ Hr2]. now apply hex_prefix_none. }
  assert (N48 : (c =? 48) = false).
  { destruct (Z.eqb_spec c 48) as [->|]; [discriminate Hc|reflexivity]. }
  destruct (c =? 45); [|destruct (c =? 43)].
  - destruct r as [|z [|x r']]; try (now rewrite A2).
    destruct (_ && _); [now rewrite (A3 z x r' eq_refl)|now rewrite A2].
  - destruct r as [|z [|x r']]; try (now rewrite A2).
    destruct (_ && _); [now rewrite (A3 z x r' eq_refl)|now rewrite A2].
  - destruct r as [|x r0]; [now rewrite A1|].
    rewrite N48. cbn [andb]. now rewrite A1.
Qed.

(** A zero and a character that is no digit. *)
Lemma parseInt16_zero c : hex_value c = None -> default 0 (parseInt16 [48; c]) = 0.
Proof.
  intros Hc. unfold parseInt16. cbn [trim_start].
  replace (is_js_whitespace 48) with false by reflexivity.
  cbn [Z.eqb Pos.eqb].
  destruct ((c =? 120) || (c =? 88)); cbn [andb]; [reflexivity|].
  cbn [hex_prefix]. replace (hex_value 48) with (Some 0) by reflexivity.
  cbn [hex_prefix]. rewrite Hc. reflexivity.
Qed.

Lemma to_uint8_zero : to_uint8 0 = x00.
Proof. reflexivity. Qed.

(** X6: [hexToBytes] never fails: for every string the result has half as
    many bytes as the string has characters, rounded up; and of a string
    without any hexadecimal digit every byte is zero: what [parseInt] cannot
    read is stored as 0. *)
Theorem hexToBytes_total s :
  length (hexToBytes s) = ((length s + 1) / 2)%nat
  /\ (Forall (fun c => hex_value c = None) s ->
      Forall (fun b => b = x00) (hexToBytes s)).
Proof.
  split; [apply length_hexToBytes|]. intros H.
  unfold hexToBytes. cbv zeta. apply Forall_forall. intros b Hb.
  apply list_elem_of_In, in_map_iff in Hb as (i & <- & _).
  destruct (Nat.even (length s)) eqn:E.
  - rewrite parseInt16_none; [reflexivity|].
    apply Forall_take, Forall_drop, H.
  - destruct i as [|i].
    + destruct s as [|c s]; [discriminate E|].
      inversion_clear H as [|? ? Hc _].
      change (take 2 (drop (0 * 2) (48 :: c :: s))) with [48; c].
      now rewrite parseInt16_zero.
    + replace (S i * 2)%nat with (S (i * 2 + 1)) by lia. cbn [skipn].
      rewrite parseInt16_none; [reflexivity|].
      apply Forall_take, Forall_drop, H.
Qed.

(** Three letters that are no digits. *)
Lemma hexToBytes_total_witness :
  Forall (fun b => b = x00) (hexToBytes (lit "xyz")).
Proof.
  apply (proj2 (hexToBytes_total (lit "xyz"))).
  repeat constructor.
Defined.

(** ** [trim] *)

Lemma trim_start_split s :
  exists w, s = w ++ trim_start s
            /\ Forall (fun c => is_js_whitespace c = true) w
            /\ (forall c, head (trim_start s) = Some c -> is_js_whitespace c = false).
Proof.
  induction s as [|c s (w & Hs & Hw & Hh)].
  - exists []. repeat split; [constructor|discriminate].
  - cbn [trim_start]. destruct (is_js_whitespace c) eqn:E.
    + exists (c :: w). split; [cbn; now f_equal|]. split; [now constructor|exact Hh].
    + exists []. split; [reflexivity|]. split; [constructor|].
      intros c' [= <-]. exact E.
Qed.

Lemma trim_end_split s :
  exists w, s = trim_end s ++ w /\ Forall (fun c => is_js_whitespace c = true) w.
Proof.
  unfold trim_end. destruct (trim_start_split (reverse s)) as (w & Hs & Hw & _).
  exists (reverse w). split.
  - rewrite <- (reverse_involutive s), Hs at 1. now rewrite reverse_app.
  - now apply Forall_reverse.
Qed.

Lemma trim_split s :
  exists w1 w2,
    s = w1 ++ trim s ++ w2
    /\ Forall (fun c => is_js_whitespace c = true) w1
    /\ Forall (fun c => is_js_whitespace c = true) w2.
Proof.
  destruct (trim_start_split s) as (w1 & H1 & Hw1 & _).
  destruct (trim_end_split (trim_start s)) as (w2 & H2 & Hw2).
  exists w1, w2. unfold trim. now rewrite <- H2.
Qed.

Lemma head_trim s c : head (trim s) = Some c -> is_js_whitespace c = false.
Proof.
  destruct (trim_start_split s) as (w1 & _ & _ & Hh).
  destruct (trim_end_split (trim_start s)) as (w2 & H2 & _).
  unfold trim. intros H. apply Hh. rewrite H2.
  destruct (trim_end (trim_start s)); [discriminate|exact H].
Qed.

Lemma whitespace_not_surrogate c :
  is_js_whitespace c = true -> is_high_surrogate c = false /\ is_low_surrogate c = false.
Proof.
  unfold is_js_whitespace, is_high_surrogate, is_low_surrogate.
  intros H. split; zprune; reflexivity.
Qed.

Lemma well_formed_drop_left w s :
  Forall (fun c => is_js_whitespace c = true) w -> well_formed (w ++ s) -> well_formed s.
Proof.
  induction 1 as [|c w Hc _ IH]; [auto|].
  cbn [app]. intros H. apply IH. apply whitespace_not_surrogate in Hc as [Hh Hl].
  remember (c :: w ++ s) as t eqn:Et.
  destruct H as [|c' s' _ _ _ H'|h l s' Hh' _ _]; [discriminate| |].
  - now injection Et as -> ->.
  - injection Et as -> _. congruence.
Qed.

Lemma well_formed_drop_right w : forall s,
  Forall (fun c => is_js_whitespace c = true) w -> well_formed (s ++ w) -> well_formed s.
Proof.
  intros s Hw. remember (length s) as n eqn:Hn. revert s Hn.
  induction n as [n IH] using lt_wf_ind. intros s Hn H.
  destruct s as [|c s]; [constructor|].
  cbn [app] in H. remember (c :: s ++ w) as t eqn:Et.
  destruct H as [|c' s' Hc Hh Hl H'|h l s' Hh Hl H']; [discriminate| |].
  - injection Et as -> ->.
    apply wf_unit; try assumption. apply (IH (length s)); [subst n; cbn; lia|reflexivity|assumption].
  - injection Et as -> E. destruct s as [|d s].
    + cbn [app] in E. subst w. inversion_clear Hw as [|? ? Hd _].
      apply whitespace_not_surrogate in Hd as [_ Hd]. congruence.
    + cbn [app] in E. injection E as -> ->.
      apply wf_pair; try assumption.
      apply (IH (length s)); [subst n; cbn; lia|reflexivity|assumption].
Qed.

Lemma well_formed_trim s : well_formed s -> well_formed (trim s).
Proof.
  intros H. destruct (trim_split s) as (w1 & w2 & E & H1 & H2).
  rewrite E in H. apply well_formed_drop_left in H; [|assumption].
  now apply well_formed_drop_right in H.
Qed.

Lemma TextDecoder_decode_encode_wf s :
  well_formed s -> head s <> Some 0xFEFF ->
  TextDecoder_decode (TextEncoder_encode s) = s.
Proof.
  intros Hw Hb. unfold TextDecoder_decode, TextEncoder_encode.
  rewrite utf8_run_flat by now apply code_points_scalar.
  rewrite drop_bom_code_points by assumption.
  now apply utf16_units_code_points.
Qed.

(** What is typed, trimmed, survives encoding and decoding. *)
Lemma TextDecoder_decode_encode_trim s :
  code_units s -> isWellFormed s = true ->
  TextDecoder_decode (TextEncoder_encode (trim s)) = trim s.
Proof.
  intros Hu Hw. apply TextDecoder_decode_encode_wf.
  - apply well_formed_trim. now apply isWellFormed_well_formed.
  - intros H. apply head_trim in H. discriminate H.
Qed.

(** ** The key of an address *)

Section KeyOnly.
Context {P : Platform}.

(** [decryptMessage] looks at the address through its key only. *)
Lemma decryptMessage_key_only payload a a' :
  deriveKeyFromAddress a = deriveKeyFromAddress a' ->
  decryptMessage payload a = decryptMessage payload a'.
Proof.
  intros H. unfold decryptMessage. now rewrite H.
Qed.

End KeyOnly.

(** ** The one-time address *)

Lemma hex_of_bytes_no_prefix id : startsWith (hex_of_bytes id) (lit "0x") = false.
Proof.
  destruct id as [|b id]; [reflexivity|].
  rewrite lit_0x. cbn [hex_of_bytes flat_map to_hex2 app startsWith].
  pose proof (Z.mod_pos_bound (byte_val b) 16 ltac:(lia)) as Hm.
  revert Hm. generalize (byte_val b mod 16). intros z Hm.
  unfold hex_digit. destruct (Z.ltb_spec z 10);
    (destruct (Z.eqb_spec 120 (48 + z)); [lia|]);
    (destruct (Z.eqb_spec 120 (97 + (z - 10))); [lia|]);
    now rewrite andb_false_r.
Qed.

Section OneTime.
Context {P : Platform} {L : PlatformLaws P}.

Lemma getAddress_throw address e :
  Ethers.getAddress address = Throw e -> e = InvalidAddress.
Proof.
  unfold Ethers.getAddress.
  destruct (Ethers.matches_hex_address address).
  - cbv zeta. destruct (_ || _); [discriminate|now intros [= <-]].
  - destruct (ican_address address); cbn [of_option]; [discriminate|now intros [= <-]].
Qed.

Lemma getAddress_hex_of_bytes id :
  length id = 20%nat ->
  Ethers.getAddress (hex_of_bytes id)
  = Ok (Ethers.getChecksumAddress (address_of_bytes id)).
Proof.
  intros Hl. rewrite getAddress_without_prefix.
  - now apply getAddress_of_bytes.
  - apply hex_of_bytes_no_prefix.
  - now apply hex_body_of_bytes.
Qed.

Lemma isValidAddress_checksummed id :
  length id = 20%nat ->
  isValidAddress (Ethers.getChecksumAddress (address_of_bytes id)) = true.
Proof.
  intros Hl. unfold isValidAddress, Ethers.isAddress, address_of_bytes.
  now rewrite getAddress_checksummed by now apply hex_body_of_bytes.
Qed.

Lemma isValidAddress_of_bytes id :
  length id = 20%nat -> isValidAddress (address_of_bytes id) = true.
Proof.
  intros Hl. unfold isValidAddress, Ethers.isAddress.
  now rewrite getAddress_of_bytes.
Qed.

Lemma deriveKeyFromAddress_invalid address :
  isValidAddress address = false ->
  deriveKeyFromAddress address = Throw InvalidAddress.
Proof.
  unfold isValidAddress, Ethers.isAddress, deriveKeyFromAddress.
  destruct (Ethers.getAddress address) as [n|e] eqn:E; [discriminate|].
  apply getAddress_throw in E as ->. reflexivity.
Qed.

Context {W : Wallet}.

Lemma generateEphemeralAddress_ok g :
  (forall m, length (keccak256 m) = 32%nat) ->
  let id := drop 12 (keccak256 (drop 1 (fst (createRandom g)))) in
  length id = 20%nat
  /\ generateEphemeralAddress g
     = (Ok (Ethers.getChecksumAddress (address_of_bytes id)), snd (createRandom g)).
Proof.
  intros Hk id.
  assert (Hl : length id = 20%nat) by (unfold id; rewrite length_drop, Hk; reflexivity).
  split; [exact Hl|].
  unfold generateEphemeralAddress, computeAddress.
  destruct (createRandom g) as [pk g'] eqn:E. cbn [fst snd] in *.
  fold id. now rewrite getAddress_hex_of_bytes.
Qed.

(** X8: when the Keccak hash has 32 bytes, [generateEphemeralAddress] does
    not fail: it gives the checksummed address of the last twenty bytes of the
    hash of the new public key.  This address is valid, is left as it is by
    [normalizeAddress], has the hash of the twenty bytes for key, is what
    [normalizeDecryptedAddress] makes of the number of the twenty bytes, and
    encrypting any message under it succeeds. *)
Theorem generateEphemeralAddress_valid g :
  (forall m, length (keccak256 m) = 32%nat) ->
  let publicKey := fst (createRandom g) in
  let id := drop 12 (keccak256 (drop 1 publicKey)) in
  let address := Ethers.getChecksumAddress (address_of_bytes id) in
  length id = 20%nat
  /\ generateEphemeralAddress g = (Ok address, snd (createRandom g))
  /\ spells (slice_from 2 address) id
  /\ isValidAddress address = true
  /\ normalizeAddress address = Ok address
  /\ deriveKeyFromAddress address = Ok (sha256 id)
  /\ normalizeDecryptedAddress (VBigInt (be_value id)) = Ok address
  /\ forall message g1, exists payload g2,
       encryptMessage message address g1 = (Ok payload, g2).
Proof.
  intros Hk publicKey id address.
  destruct (generateEphemeralAddress_ok g Hk) as [Hl Hg].
  fold publicKey id address in Hl, Hg.
  split; [exact Hl|]. split; [exact Hg|].
  split; [apply spells_checksummed|].
  split; [now apply isValidAddress_checksummed|].
  split.
  { unfold normalizeAddress, address_of_bytes. apply getAddress_checksummed.
    now apply hex_body_of_bytes. }
  split; [now apply deriveKeyFromAddress_checksummed|].
  split; [now apply normalizeDecryptedAddress_be_value|].
  intros message g1.
  destruct (encryptMessage_ok message _ g1 (isValidAddress_checksummed _ Hl))
    as (key & iv & body & tag & g2 & He & _).
  eexists _, g2. exact He.
Qed.

End OneTime.

(** The address of the sample wallet. *)
Lemma generateEphemeralAddress_valid_witness :
  fst (generateEphemeralAddress (P:=Sample.platform) (W:=SampleWallet.wallet)
         Sample.zero_tape)
  = Ok (lit "0x0000000000000000000000000000000000001111").
Proof.
  destruct (@generateEphemeralAddress_valid Sample.platform sample_laws
              SampleWallet.wallet Sample.zero_tape)
    as (_ & Hg & _).
  - intros m. apply (@sha256_length Sample.platform sample_laws).
  - rewrite Hg. reflexivity.
Defined.

Lemma last_trim s c : last (trim s) = Some c -> is_js_whitespace c = false.
Proof.
  unfold trim, trim_end. rewrite last_reverse.
  destruct (trim_start_split (reverse (trim_start s))) as (w & _ & _ & Hh). apply Hh.
Qed.

(** ** Encrypting and decrypting *)

Section Cipher.
Context {P : Platform} {L : PlatformLaws P}.

Lemma length_base64 bs : length (base64 bs) = (4 * ((length bs + 2) / 3))%nat.
Proof. unfold base64. now rewrite length_b64_encode_exact, length_map. Qed.

(** X9: [encryptMessage] succeeds for every message under a valid
    address: the payload has 42 characters and four more for every three
    bytes begun of the UTF-8 message, and the random source moves on by 12.
    Under an address that is not valid it fails with the address error of
    the library before reading the random source, and [decryptMessage] of a
    payload with three fields that decode fails with the same error. *)
Theorem encryptMessage_total message address g :
  (isValidAddress address = true ->
   exists payload g',
     encryptMessage message address g = (Ok payload, g')
     /\ length payload
        = (42 + 4 * ((length (TextEncoder_encode message) + 2) / 3))%nat
     /\ cursor g' = (cursor g + 12)%nat)
  /\ (isValidAddress address = false ->
      encryptMessage message address g = (Throw InvalidAddress, g)
      /\ forall payload a b c iv data tag,
           split dot payload = [a; b; c] ->
           base64ToBytes a = Ok iv -> base64ToBytes b = Ok data ->
           base64ToBytes c = Ok tag ->
           decryptMessage payload address = Throw InvalidAddress).
Proof.
  split.
  - intros Hv.
    destruct (encryptMessage_ok message address g Hv)
      as (key & iv & body & tag & g' & He & Hg & Hk & Hkl & Hc & Ht).
    eexists _, g'. split; [exact He|].
    destruct (aes_gcm_encrypt_length key iv [] (TextEncoder_encode message) Hkl)
      as (ct & Hct & Hlen).
    rewrite Hc in Hct. injection Hct as <-. rewrite length_app in Hlen.
    pose proof (length_getRandomValues 12 g) as Hiv. rewrite Hg in Hiv. cbn [fst] in Hiv.
    split.
    + rewrite !length_app, !length_base64, Hiv, Ht. cbn [length].
      replace (length body) with (length (TextEncoder_encode message)) by lia.
      change ((12 + 2) / 3)%nat with 4%nat. change ((16 + 2) / 3)%nat with 6%nat. lia.
    + unfold getRandomValues in Hg. now injection Hg as _ <-.
  - intros Hv. pose proof (deriveKeyFromAddress_invalid address Hv) as Hk.
    split.
    + unfold encryptMessage. now rewrite Hk.
    + intros payload a b c iv data tag Hs Ha Hb Hc.
      unfold decryptMessage. rewrite Hs, Ha, Hb, Hc, Hk. reflexivity.
Qed.

(** The forms of a decrypted key all give the checksummed address. *)
Lemma normalizeDecryptedAddress_forms id v :
  length id = 20%nat ->
  v = VBigInt (be_value id) \/ v = VString (hex_of_bytes id)
  \/ v = VString (address_of_bytes id)
  \/ v = VString (Ethers.getChecksumAddress (address_of_bytes id)) ->
  normalizeDecryptedAddress v
  = Ok (Ethers.getChecksumAddress (address_of_bytes id)).
Proof.
  intros Hl [-> | [-> | [-> | ->]]].
  - now apply normalizeDecryptedAddress_be_value.
  - unfold normalizeDecryptedAddress, normalizeAddress.
    rewrite hex_of_bytes_no_prefix. now apply getAddress_of_bytes.
  - unfold normalizeDecryptedAddress, normalizeAddress.
    replace (startsWith (address_of_bytes id) (lit "0x")) with true by reflexivity.
    now apply getAddress_of_bytes.
  - unfold normalizeDecryptedAddress, normalizeAddress.
    destruct (hex_body_checksum _ (hex_body_of_bytes id Hl)) as (body' & E & _).
    unfold address_of_bytes. rewrite E.
    replace (startsWith (lit "0x" ++ body') (lit "0x")) with true by reflexivity.
    rewrite <- E. apply getAddress_checksummed. now apply hex_body_of_bytes.
Qed.

(** A payload made under the address of an identifier, in lower case or
    checksummed, opens under the checksummed address. *)
Lemma decryptMessage_encrypted_under id m g address payload g' :
  length id = 20%nat ->
  address = address_of_bytes id
  \/ address = Ethers.getChecksumAddress (address_of_bytes id) ->
  encryptMessage m address g = (Ok payload, g') ->
  decryptMessage payload (Ethers.getChecksumAddress (address_of_bytes id))
  = Ok (TextDecoder_decode (TextEncoder_encode m)).
Proof.
  intros Hl Ha He.
  set (sum := Ethers.getChecksumAddress (address_of_bytes id)) in *.
  assert (Hva : isValidAddress address = true).
  { destruct Ha as [-> | ->];
      [now apply isValidAddress_of_bytes|now apply isValidAddress_checksummed]. }
  assert (Hka : deriveKeyFromAddress sum = deriveKeyFromAddress address).
  { unfold sum. destruct Ha as [-> | ->]; [|reflexivity].
    now rewrite deriveKeyFromAddress_checksummed, deriveKeyFromAddress_of_bytes. }
  destruct (decryptMessage_encryptMessage m address g Hva) as (payload' & g'' & He' & Hd).
  rewrite He in He'. injection He' as <- <-.
  now rewrite (decryptMessage_key_only payload sum address Hka).
Qed.

(** X10: a message encrypted under the address of a twenty-byte
    identifier, in lower case or checksummed, is opened by the address
    [normalizeDecryptedAddress] makes of the decrypted key, whether the key
    comes as the number of the identifier, as its forty digits, or as its
    address in lower case or checksummed: decrypting gives the message back
    (a well-formed string that does not start with the byte order mark). *)
Theorem decryptMessage_with_decrypted_key id m g v :
  length id = 20%nat ->
  code_units m -> isWellFormed m = true -> head m <> Some 0xFEFF ->
  v = VBigInt (be_value id) \/ v = VString (hex_of_bytes id)
  \/ v = VString (address_of_bytes id)
  \/ v = VString (Ethers.getChecksumAddress (address_of_bytes id)) ->
  forall address,
    address = address_of_bytes id
    \/ address = Ethers.getChecksumAddress (address_of_bytes id) ->
    exists payload g' key,
      encryptMessage m address g = (Ok payload, g')
      /\ normalizeDecryptedAddress v = Ok key
      /\ decryptMessage payload key = Ok m.
Proof.
  intros Hl Hu Hw Hb Hv address Ha.
  assert (Hva : isValidAddress address = true).
  { destruct Ha as [-> | ->];
      [now apply isValidAddress_of_bytes|now apply isValidAddress_checksummed]. }
  destruct (decryptMessage_encryptMessage m address g Hva) as (payload & g' & He & _).
  exists payload, g', (Ethers.getChecksumAddress (address_of_bytes id)).
  split; [exact He|]. split; [now apply normalizeDecryptedAddress_forms|].
  rewrite (decryptMessage_encrypted_under id m g address payload g' Hl Ha He).
  now rewrite TextDecoder_decode_encode.
Qed.

(** X11: what the composer encrypts, [message.trim()], always survives the
    round trip: for every well-formed text typed, the trimmed text, which is
    the text without the white space at its two ends, is encrypted, and
    decrypting under the same address gives exactly the trimmed text.
    Trimming takes a byte order mark at the start away, so that no condition
    on the start of the text is left. *)
Theorem decrypt_encrypt_trimmed m address g :
  isValidAddress address = true -> code_units m -> isWellFormed m = true ->
  exists payload g' before after,
    encryptMessage (trim m) address g = (Ok payload, g')
    /\ decryptMessage payload address = Ok (trim m)
    /\ m = before ++ trim m ++ after
    /\ Forall (fun c => is_js_whitespace c = true) before
    /\ Forall (fun c => is_js_whitespace c = true) after
    /\ (forall c, head (trim m) = Some c -> is_js_whitespace c = false)
    /\ (forall c, last (trim m) = Some c -> is_js_whitespace c = false).
Proof.
  intros Hv Hu Hw.
  destruct (decryptMessage_encryptMessage (trim m) address g Hv)
    as (payload & g' & He & Hd).
  destruct (trim_split m) as (w1 & w2 & E & H1 & H2).
  exists payload, g', w1, w2. split; [exact He|].
  split; [now rewrite Hd, TextDecoder_decode_encode_trim|].
  split; [exact E|]. split; [exact H1|]. split; [exact H2|].
  split; [apply head_trim|apply last_trim].
Qed.

End Cipher.

(** A text typed with a byte order mark and blanks around it. *)
Lemma decrypt_encrypt_trimmed_witness :
  exists payload g',
    encryptMessage (P:=Sample.platform) (lit "Hello") Sample.address1 Sample.zero_tape
    = (Ok payload, g')
    /\ decryptMessage (P:=Sample.platform) payload Sample.address1 = Ok (lit "Hello").
Proof.
  destruct (@decrypt_encrypt_trimmed Sample.platform sample_laws
              (0xFEFF :: lit "  Hello  ") Sample.address1 Sample.zero_tape)
    as (payload & g' & _ & _ & He & Hd & _).
  - reflexivity.
  - unfold code_units. apply Forall_forall. intros c Hc.
    apply list_elem_of_In in Hc. vm_compute in Hc.
    repeat (destruct Hc as [<- | Hc]; [lia|]). destruct Hc.
  - reflexivity.
  - exists payload, g'. split; [exact He|exact Hd].
Defined.

(** The key comes back as the number 0x1111. *)
Lemma decryptMessage_with_decrypted_key_witness :
  exists payload g' key,
    encryptMessage (P:=Sample.platform) (lit "Hi!")
      (lit "0x0000000000000000000000000000000000001111") Sample.zero_tape
    = (Ok payload, g')
    /\ normalizeDecryptedAddress (P:=Sample.platform) (VBigInt 0x1111) = Ok key
    /\ decryptMessage (P:=Sample.platform) payload key = Ok (lit "Hi!").
Proof.
  apply (@decryptMessage_with_decrypted_key Sample.platform sample_laws
           (be_bytes 20 0x1111) (lit "Hi!") Sample.zero_tape (VBigInt 0x1111)).
  - reflexivity.
  - unfold code_units. apply Forall_forall. intros c Hc.
    apply list_elem_of_In in Hc. vm_compute in Hc.
    repeat (destruct Hc as [<- | Hc]; [lia|]). destruct Hc.
  - reflexivity.
  - discriminate.
  - left. reflexivity.
  - left. reflexivity.
Defined.

(** An address that is too short. *)
Lemma encryptMessage_total_witness :
  encryptMessage (P:=Sample.platform) (lit "Hi!") (lit "0x12") Sample.zero_tape
  = (Throw InvalidAddress, Sample.zero_tape).
Proof.
  apply (proj2 (@encryptMessage_total Sample.platform sample_laws
                  (lit "Hi!") (lit "0x12") Sample.zero_tape)).
  reflexivity.
Defined.

(** ** Strings that are not well formed *)

Lemma list_ind_pairs {A} (Q : list A -> Prop) :
  Q [] -> (forall c, Q [c]) ->
  (forall c d s, Q s -> Q (d :: s) -> Q (c :: d :: s)) ->
  forall s, Q s.
Proof.
  intros H0 H1 H2.
  assert (H : forall s, Q s /\ forall c, Q (c :: s)).
  { induction s as [|d s [IH1 IH2]]; [now split|].
    split; [apply IH2|]. intros c. apply H2; [exact IH1|apply IH2]. }
  intros s. apply H.
Qed.

Lemma code_points_cons2 c d s :
  code_points (c :: d :: s)
  = if is_high_surrogate c then
      if is_low_surrogate d
      then (0x10000 + (c - 0xD800) * 0x400 + (d - 0xDC00)) :: code_points s
      else 0xFFFD :: code_points (d :: s)
    else if is_low_surrogate c then 0xFFFD :: code_points (d :: s)
    else c :: code_points (d :: s).
Proof. reflexivity. Qed.

Lemma toWellFormed_cons2 c d s :
  toWellFormed (c :: d :: s)
  = if is_high_surrogate c then
      if is_low_surrogate d then c :: d :: toWellFormed s
      else 0xFFFD :: toWellFormed (d :: s)
    else if is_low_surrogate c then 0xFFFD :: toWellFormed (d :: s)
    else c :: toWellFormed (d :: s).
Proof. reflexivity. Qed.

Lemma code_points_scalar_any s : code_units s -> Forall scalar (code_points s).
Proof.
  induction s as [|c|c d s IH1 IH2] using list_ind_pairs; intros Hu.
  - constructor.
  - inversion_clear Hu as [|? ? Hc _]. cbn [code_points].
    unfold scalar, is_high_surrogate, is_low_surrogate.
    zprune; repeat constructor; lia.
  - inversion_clear Hu as [|? ? Hc Hu']. pose proof Hu' as Hu2.
    inversion_clear Hu' as [|? ? Hd Hu'']. rewrite code_points_cons2.
    destruct (is_high_surrogate c) eqn:Eh.
    + destruct (is_low_surrogate d) eqn:El.
      * constructor; [|now apply IH1].
        unfold scalar, is_high_surrogate, is_low_surrogate in *. zprune; lia.
      * constructor; [unfold scalar; lia|now apply IH2].
    + destruct (is_low_surrogate c) eqn:El.
      * constructor; [unfold scalar; lia|now apply IH2].
      * constructor; [|now apply IH2].
        unfold scalar, is_high_surrogate, is_low_surrogate in *. zprune; lia.
Qed.

Lemma utf16_units_code_points_any s :
  code_units s -> flat_map utf16_units (code_points s) = toWellFormed s.
Proof.
  induction s as [|c|c d s IH1 IH2] using list_ind_pairs; intros Hu.
  - reflexivity.
  - inversion_clear Hu as [|? ? Hc _]. cbn [code_points toWellFormed].
    destruct (is_high_surrogate c); [reflexivity|].
    destruct (is_low_surrogate c); [reflexivity|].
    cbn [flat_map]. unfold utf16_units.
    destruct (Z.ltb_spec c 0x10000); [reflexivity|lia].
  - inversion_clear Hu as [|? ? Hc Hu']. pose proof Hu' as Hu2.
    inversion_clear Hu' as [|? ? Hd Hu''].
    rewrite code_points_cons2, toWellFormed_cons2.
    destruct (is_high_surrogate c) eqn:Eh.
    + destruct (is_low_surrogate d) eqn:El.
      * cbn [flat_map]. rewrite IH1 by assumption. unfold utf16_units.
        unfold is_high_surrogate, is_low_surrogate in *.
        destruct (Z.ltb_spec (65536 + (c - 55296) * 1024 + (d - 56320)) 65536);
          zprune.
        cbn [app]. f_equal; [zdiv|]. f_equal. zdiv.
      * cbn [flat_map]. now rewrite IH2.
    + destruct (is_low_surrogate c) eqn:El.
      * cbn [flat_map]. now rewrite IH2.
      * cbn [flat_map]. rewrite IH2 by assumption. unfold utf16_units.
        destruct (Z.ltb_spec c 0x10000); [reflexivity|lia].
Qed.

Lemma flat_map_drop_bom cps :
  Forall scalar cps ->
  flat_map utf16_units (drop_bom cps) = without_bom (flat_map utf16_units cps).
Proof.
  destruct 1 as [|c cps Hc _]; [reflexivity|].
  cbn [drop_bom flat_map]. unfold scalar in Hc.
  destruct (Z.eqb_spec c 0xFEFF) as [->|Hn]; [reflexivity|].
  cbn [flat_map]. unfold utf16_units.
  destruct (Z.ltb_spec c 0x10000).
  - cbn [app without_bom]. destruct (Z.eqb_spec c 0xFEFF); [contradiction|reflexivity].
  - cbn [app without_bom].
    destruct (Z.eqb_spec (55296 + (c - 65536) / 1024) 0xFEFF) as [E|]; [|reflexivity].
    exfalso. zdiv.
Qed.

Lemma TextDecoder_decode_encode_any s :
  code_units s ->
  TextDecoder_decode (TextEncoder_encode s) = without_bom (toWellFormed s).
Proof.
  intros Hu. unfold TextDecoder_decode, TextEncoder_encode.
  pose proof (code_points_scalar_any s Hu) as Hs.
  rewrite utf8_run_flat by assumption.
  rewrite flat_map_drop_bom by assumption.
  now rewrite utf16_units_code_points_any.
Qed.

Lemma isWellFormed_cons2 c d s :
  isWellFormed (c :: d :: s)
  = if is_high_surrogate c then is_low_surrogate d && isWellFormed s
    else negb (is_low_surrogate c) && isWellFormed (d :: s).
Proof. reflexivity. Qed.

Lemma length_toWellFormed s : length (toWellFormed s) = length s.
Proof.
  induction s as [|c|c d s IH1 IH2] using list_ind_pairs.
  - reflexivity.
  - cbn [toWellFormed]. destruct (is_high_surrogate c); [reflexivity|].
    destruct (is_low_surrogate c); reflexivity.
  - rewrite toWellFormed_cons2.
    destruct (is_high_surrogate c); [destruct (is_low_surrogate d)|
                                     destruct (is_low_surrogate c)];
      cbn [length]; rewrite ?IH1, ?IH2; reflexivity.
Qed.

Lemma replacement_not_surrogate :
  is_high_surrogate 0xFFFD = false /\ is_low_surrogate 0xFFFD = false.
Proof. split; reflexivity. Qed.

Lemma toWellFormed_fixed s : toWellFormed s = s <-> isWellFormed s = true.
Proof.
  induction s as [|c|c d s IH1 IH2] using list_ind_pairs.
  - now split.
  - cbn [toWellFormed isWellFormed].
    destruct (is_high_surrogate c) eqn:Eh.
    + split; [|discriminate]. intros [= <-]. discriminate Eh.
    + destruct (is_low_surrogate c) eqn:El; cbn [negb andb].
      * split; [|discriminate]. intros [= <-]. discriminate El.
      * now split.
  - rewrite toWellFormed_cons2, isWellFormed_cons2.
    destruct (is_high_surrogate c) eqn:Eh.
    + destruct (is_low_surrogate d) eqn:El; cbn [andb].
      * rewrite <- IH1. split; [intros [= E]; exact E|intros E; now rewrite E].
      * split; [|discriminate]. intros [= <- _]. discriminate Eh.
    + destruct (is_low_surrogate c) eqn:El; cbn [negb andb].
      * split; [|discriminate]. intros [= <- _]. discriminate El.
      * rewrite <- IH2. split; [intros [= E]; exact E|intros E; f_equal; exact E].
Qed.

Lemma without_bom_fixed s : without_bom s = s <-> head s <> Some 0xFEFF.
Proof.
  destruct s as [|c s]; [now split|]. cbn [without_bom head].
  destruct (Z.eqb_spec c 0xFEFF) as [->|Hn].
  - split; [|now intros H; elim H]. intros H. apply (f_equal length) in H.
    cbn [length] in H. lia.
  - split; [intros _ [= E]; contradiction|reflexivity].
Qed.

Lemma without_bom_toWellFormed s :
  without_bom (toWellFormed s) = s
  <-> isWellFormed s = true /\ head s <> Some 0xFEFF.
Proof.
  split.
  - intros H.
    assert (Hw : without_bom (toWellFormed s) = toWellFormed s).
    { destruct (toWellFormed s) as [|c t] eqn:E; [reflexivity|].
      cbn [without_bom] in *. destruct (c =? 0xFEFF); [|reflexivity].
      exfalso. apply (f_equal length) in E, H.
      rewrite length_toWellFormed in E. cbn [length] in E. lia. }
    rewrite Hw in H. split; [now apply toWellFormed_fixed|].
    apply without_bom_fixed. rewrite H in Hw. exact Hw.
  - intros [Hw Hb]. apply toWellFormed_fixed in Hw. rewrite Hw.
    now apply without_bom_fixed.
Qed.

(** X12: what comes back of any string.  For every string and valid
    address, decrypting the encryption gives the string with each surrogate
    that stands on its own replaced by U+FFFD, and without the byte order
    mark it starts with; this is the string itself exactly when it is well
    formed and does not start with the byte order mark. *)
Theorem decrypt_encrypt_any_string {P : Platform} {L : PlatformLaws P} m i g :
  isValidAddress i = true -> code_units m ->
  exists payload g',
    encryptMessage m i g = (Ok payload, g')
    /\ decryptMessage payload i = Ok (without_bom (toWellFormed m))
    /\ (decryptMessage payload i = Ok m
        <-> isWellFormed m = true /\ head m <> Some 0xFEFF).
Proof.
  intros Hv Hu.
  destruct (decryptMessage_encryptMessage m i g Hv) as (payload & g' & He & Hd).
  rewrite TextDecoder_decode_encode_any in Hd by assumption.
  exists payload, g'. split; [exact He|]. split; [exact Hd|].
  rewrite Hd, <- without_bom_toWellFormed.
  split; [now intros [= ->]|now intros ->].
Qed.

(** A text with two surrogates out of place. *)
Lemma decrypt_encrypt_any_string_witness :
  exists payload g',
    encryptMessage (P:=Sample.platform) [0xFEFF; 0xDC00; 0x48; 0xD83D]
      Sample.address1 Sample.zero_tape = (Ok payload, g')
    /\ decryptMessage (P:=Sample.platform) payload Sample.address1
       = Ok [0xFFFD; 0x48; 0xFFFD].
Proof.
  destruct (@decrypt_encrypt_any_string Sample.platform sample_laws
              [0xFEFF; 0xDC00; 0x48; 0xD83D] Sample.address1 Sample.zero_tape)
    as (payload & g' & He & Hd & _).
  - reflexivity.
  - repeat constructor; lia.
  - exists payload, g'. split; [exact He|exact Hd].
Defined.

(** ** The task script and the web client *)

Section TaskKeys.
Context {P : Platform} {N : Task.Node} {NL : Task.NodeLaws P N}.

Lemma task_deriveKey_checksummed id :
  length id = 20%nat ->
  Task.deriveKeyFromAddress (Ethers.getChecksumAddress (address_of_bytes id))
  = Ok (sha256 id).
Proof.
  intros Hl. unfold Task.deriveKeyFromAddress. unfold address_of_bytes at 1.
  rewrite getAddress_checksummed by now apply hex_body_of_bytes.
  cbn [mbind result_bind JS.bind].
  now rewrite (Task.Buffer_from_hex_digits _ id (spells_checksummed id)).
Qed.

Lemma task_normalizeDecryptedAddress_be_value id :
  length id = 20%nat ->
  Task.normalizeDecryptedAddress (VBigInt (be_value id))
  = Ok (Ethers.getChecksumAddress (address_of_bytes id)).
Proof.
  intros Hl. unfold Task.normalizeDecryptedAddress.
  rewrite padStart_be_value by assumption.
  now apply getAddress_of_bytes.
Qed.

(** What the script's [encryptMessageWithAddress] returns under a key. *)
Lemma task_encrypt_ok m address key g :
  Task.deriveKeyFromAddress address = Ok key -> length key = 32%nat ->
  exists iv ct tag g',
    Task.encryptMessageWithAddress m address g
    = (Ok (base64 iv ++ [dot] ++ base64 ct ++ [dot] ++ base64 tag), g')
    /\ getRandomValues 12 g = (iv, g')
    /\ length iv = 12%nat /\ length tag = 16%nat
    /\ Task.gcm_seal key iv (TextEncoder_encode m) = Some (ct, tag).
Proof.
  intros Hk Hl.
  pose proof (length_getRandomValues 12 g) as Hiv.
  destruct (getRandomValues 12 g) as [iv g'] eqn:Hg. cbn [fst] in Hiv.
  destruct (Task.gcm_seal_tag key iv (TextEncoder_encode m) Hl)
    as (ct & tag & Hs & Ht).
  { intros ->. discriminate Hiv. }
  exists iv, ct, tag, g'. repeat split; try assumption.
  unfold Task.encryptMessageWithAddress. rewrite Hk, Hg, Hs. reflexivity.
Qed.

Lemma task_decrypt_wire iv ct tag address key :
  Task.deriveKeyFromAddress address = Ok key ->
  Task.decryptMessageWithAddress
    (base64 iv ++ [dot] ++ base64 ct ++ [dot] ++ base64 tag) address
  = match Task.gcm_open key iv tag ct with
    | Some plaintext => Ok (Task.Buffer_toString_utf8 plaintext)
    | None => Throw OperationError
    end.
Proof.
  intros Hk. unfold Task.decryptMessageWithAddress. rewrite split_wire.
  rewrite !Task.Buffer_from_base64_text, Hk. cbn [mbind result_bind JS.bind].
  destruct (Task.gcm_open key iv tag ct); reflexivity.
Qed.

(** X13: the flow of the tests and of [task:decrypt-message].  A message
    encrypted by the script under the checksummed address of a twenty-byte
    identifier is opened by the address [normalizeDecryptedAddress] makes of
    the clear key, the number of the identifier: the address is the one the
    message was encrypted under, and decrypting gives the message back. *)
Theorem task_decrypt_with_clear_key id m g :
  length id = 20%nat -> code_units m -> isWellFormed m = true ->
  let keyAddress := Ethers.getChecksumAddress (address_of_bytes id) in
  exists encryptedMessage g' clearAddress,
    Task.encryptMessageWithAddress m keyAddress g = (Ok encryptedMessage, g')
    /\ Task.normalizeDecryptedAddress (VBigInt (be_value id)) = Ok clearAddress
    /\ clearAddress = keyAddress
    /\ Task.decryptMessageWithAddress encryptedMessage clearAddress = Ok m.
Proof.
  intros Hl Hu Hw keyAddress.
  pose proof (task_deriveKey_checksummed id Hl) as Hk. fold keyAddress in Hk.
  destruct (task_encrypt_ok m keyAddress _ g Hk (Task.node_sha256_length id))
    as (iv & ct & tag & g' & He & _ & _ & _ & Hs).
  eexists _, g', keyAddress. split; [exact He|].
  split; [now apply task_normalizeDecryptedAddress_be_value|].
  split; [reflexivity|].
  rewrite (task_decrypt_wire _ _ _ _ _ Hk), (Task.gcm_open_seal _ _ _ _ _ Hs).
  now rewrite Task.Buffer_toString_utf8_text.
Qed.

End TaskKeys.

Section Interop.
Context {P : Platform} {L : PlatformLaws P} {N : Task.Node}
        {NL : Task.NodeLaws P N}.

(** X14: the script and the web client read each other's payloads.  If
    Node's AES-256-GCM and WebCrypto's AES-GCM are the same function on
    32-byte keys and 12-byte ivs, the only ones the two copies use, then for
    every well-formed message and identifier the two copies of
    [encrypt] produce the very same payload from the same random bytes, the
    script's [decrypt] returns the message, and the client's returns the
    message as its decoder reads it: the message itself unless it starts with
    the byte order mark. *)
Theorem cipher_interoperates id m g :
  (forall key iv pt ct tag,
     length key = 32%nat -> length iv = 12%nat ->
     Task.gcm_seal key iv pt = Some (ct, tag)
     <-> aes_gcm_encrypt key iv [] pt = Some (ct ++ tag) /\ length tag = 16%nat) ->
  length id = 20%nat -> code_units m -> isWellFormed m = true ->
  let address := Ethers.getChecksumAddress (address_of_bytes id) in
  (exists payload g',
     Task.encryptMessageWithAddress m address g = (Ok payload, g')
     /\ encryptMessage m address g = (Ok payload, g')
     /\ Task.decryptMessageWithAddress payload address = Ok m
     /\ decryptMessage payload address
        = Ok (TextDecoder_decode (TextEncoder_encode m)))
  /\ (head m <> Some 0xFEFF ->
      TextDecoder_decode (TextEncoder_encode m) = m).
Proof.
  intros Hsame Hl Hu Hw address.
  split; [|intros Hb; now apply TextDecoder_decode_encode].
  pose proof (task_deriveKey_checksummed id Hl) as Hk. fold address in Hk.
  pose proof (deriveKeyFromAddress_checksummed id Hl) as Hk'. fold address in Hk'.
  destruct (task_encrypt_ok m address _ g Hk (Task.node_sha256_length id))
    as (iv & ct & tag & g' & He & Hg & Hiv & Ht & Hs).
  pose proof (proj1 (Hsame _ _ _ _ _ (Task.node_sha256_length id) Hiv) Hs)
    as [Hc _].
  eexists _, g'. split; [exact He|]. split; [|split].
  - destruct (encryptMessage_ok m address g (isValidAddress_checksummed id Hl))
      as (key2 & iv2 & body2 & tag2 & g2 & He2 & Hg2 & Hk2 & _ & Hc2 & Ht2).
    rewrite Hg in Hg2. injection Hg2 as <- <-.
    rewrite Hk' in Hk2. injection Hk2 as <-.
    rewrite Hc in Hc2. injection Hc2 as E.
    apply app_inj_2 in E as [<- <-]; [exact He2|congruence].
  - rewrite (task_decrypt_wire _ _ _ _ _ Hk), (Task.gcm_open_seal _ _ _ _ _ Hs).
    now rewrite Task.Buffer_toString_utf8_text.
  - rewrite (decryptMessage_wire _ _ _ _ _ Hk').
    now rewrite (aes_gcm_decrypt_encrypt _ _ _ _ _ Hc).
Qed.

End Interop.

(** The message and the key of the local test. *)
Lemma task_decrypt_with_clear_key_witness :
  exists encryptedMessage g' clearAddress,
    Task.encryptMessageWithAddress (P:=Sample.platform) (N:=SampleNode.node)
      (lit "Meet at the blue station.")
      (lit "0x1111111111111111111111111111111111111111") Sample.zero_tape
    = (Ok encryptedMessage, g')
    /\ Task.normalizeDecryptedAddress (P:=Sample.platform)
         (VBigInt 0x1111111111111111111111111111111111111111) = Ok clearAddress
    /\ clearAddress = lit "0x1111111111111111111111111111111111111111"
    /\ Task.decryptMessageWithAddress (P:=Sample.platform) (N:=SampleNode.node)
         encryptedMessage clearAddress = Ok (lit "Meet at the blue station.").
Proof.
  apply (@task_decrypt_with_clear_key Sample.platform SampleNode.node
           sample_node_laws (repeat x11 20) (lit "Meet at the blue station.")
           Sample.zero_tape).
  - reflexivity.
  - unfold code_units. apply Forall_forall. intros c Hc.
    apply list_elem_of_In in Hc. vm_compute in Hc.
    repeat (destruct Hc as [<- | Hc]; [lia|]). destruct Hc.
  - reflexivity.
Defined.

(** The two sample ciphers are the same function. *)
Lemma sample_same_cipher key iv pt ct tag :
  length key = 32%nat -> length iv = 12%nat ->
  Task.gcm_seal (Node:=SampleNode.node) key iv pt = Some (ct, tag)
  <-> aes_gcm_encrypt (Platform:=Sample.platform) key iv [] pt = Some (ct ++ tag)
      /\ length tag = 16%nat.
Proof.
  intros _ _. cbn. unfold Sample.seal.
  assert (Ht : length (Sample.stamp key) = 16%nat).
  { unfold Sample.stamp. rewrite length_take, length_app, repeat_length. lia. }
  split.
  - intros [= <- <-]. split; [reflexivity|exact Ht].
  - intros [[= E] Hl]. apply app_inj_2 in E as [<- <-]; [reflexivity|congruence].
Qed.

(** The message of the Sepolia test, from the script to the client. *)
Lemma cipher_interoperates_witness :
  exists payload g',
    Task.encryptMessageWithAddress (P:=Sample.platform) (N:=SampleNode.node)
      (lit "Sepolia relay check")
      (lit "0x1111111111111111111111111111111111111111") Sample.zero_tape
    = (Ok payload, g')
    /\ decryptMessage (P:=Sample.platform) payload
         (lit "0x1111111111111111111111111111111111111111")
       = Ok (lit "Sepolia relay check").
Proof.
  destruct (@cipher_interoperates Sample.platform sample_laws SampleNode.node
              sample_node_laws (repeat x11 20) (lit "Sepolia relay check")
              Sample.zero_tape sample_same_cipher)
    as [(payload & g' & He & _ & _ & Hd) Hb].
  - reflexivity.
  - unfold code_units. apply Forall_forall. intros c Hc.
    apply list_elem_of_In in Hc. vm_compute in Hc.
    repeat (destruct Hc as [<- | Hc]; [lia|]). destruct Hc.
  - reflexivity.
  - exists payload, g'. split; [exact He|].
    rewrite Hb in Hd by discriminate. exact Hd.
Defined.

(** ** The composer *)

Section ComposerProofs.
Context {P : Platform} {W : Wallet} {R : Inbox.Relayer} {S : Composer.Sender}.

(** X15: [handleSend] sends nothing unless the wallet is connected, the
    relayer instance and the signer promise are there, the recipient is a
    valid address and the trimmed message is not empty.  Otherwise nothing
    leaves the component and the random source is not read; the error is the
    first that applies of four texts, the last transaction hash is cleared,
    and recipient, message, status and sending flag stay as they were. *)
Theorem handleSend_validation h f g :
  let connected :=
    match Inbox.account h with Some (_ :: _) => true | _ => false end in
  let ready :=
    Inbox.instance_ready h
    && match Inbox.signerPromise h with Some _ => true | None => false end in
  let valid :=
    Composer.nonempty (Composer.recipient f)
    && isValidAddress (Composer.recipient f) in
  let filled := Composer.nonempty (trim (Composer.message f)) in
  connected && ready && valid && filled = false ->
  Composer.handleSend h f g
  = (Composer.setError
       (if negb connected then lit "Connect your wallet to send a message."
        else if negb ready then lit "Encryption service is still loading."
        else if negb valid then lit "Enter a valid recipient address."
        else lit "Message text cannot be empty.")
       (Composer.cleared f), g, []).
Proof.
  intros connected ready valid filled H. unfold Composer.handleSend.
  subst connected ready valid filled. cbv zeta.
  change (Composer.recipient (Composer.cleared f)) with (Composer.recipient f).
  change (Composer.message (Composer.cleared f)) with (Composer.message f).
  destruct (Inbox.account h) as [[|c address]|]; cbn [Composer.nonempty negb];
    try reflexivity.
  destruct (Inbox.instance_ready h); cbn [andb negb]; [|reflexivity].
  destruct (Inbox.signerPromise h) as [promise|]; cbn [andb negb]; [|reflexivity].
  cbn [andb] in H.
  destruct (Composer.nonempty (Composer.recipient f)
            && isValidAddress (Composer.recipient f)); cbn [andb negb] in *;
    [|reflexivity].
  rewrite H. reflexivity.
Qed.

(** X16: a click that passes the checks, on a platform whose Keccak hash
    has 32 bytes: a one-time address is made, the trimmed message is
    encrypted under it (this cannot fail), and the encrypted input is asked
    for the contract address, the account and the one-time address.  The
    transaction, if it comes to it, carries the normalized recipient, the
    payload, the first handle and the proof of the encrypted input; then the
    transaction is waited for and [onSent] is called.  The payload decrypts
    under the one-time address to the trimmed message, and the outcome is the
    hash of the receipt or of the transaction, or the first exception of the
    services. *)
Theorem handleSend_sends {L : PlatformLaws P} h f g address signer :
  (forall m, length (keccak256 m) = 32%nat) ->
  Inbox.account h = Some address -> address <> [] ->
  Inbox.instance_ready h = true -> Inbox.signerPromise h = Some (Some signer) ->
  Composer.recipient f <> [] -> isValidAddress (Composer.recipient f) = true ->
  trim (Composer.message f) <> [] ->
  exists id key to payload g' outcome out,
    length id = 20%nat
    /\ key = Ethers.getChecksumAddress (address_of_bytes id)
    /\ generateEphemeralAddress g = (Ok key, snd (createRandom g))
    /\ encryptMessage (trim (Composer.message f)) key (snd (createRandom g))
       = (Ok payload, g')
    /\ (code_units (Composer.message f) ->
        isWellFormed (Composer.message f) = true ->
        decryptMessage payload key = Ok (trim (Composer.message f)))
    /\ normalizeAddress (Composer.recipient f) = Ok to
    /\ Composer.handleSend h f g
       = (Composer.settle (Composer.cleared f) outcome, g',
          Composer.InputEncrypted Inbox.CONTRACT_ADDRESS address key :: out)
    /\ match Composer.encrypt_address Inbox.CONTRACT_ADDRESS address key with
       | Throw e => out = [] /\ outcome = Throw e
       | Ok input =>
           let handle := head (Composer.handles input) in
           let proof := Composer.inputProof input in
           let sent := Composer.Submitted signer to payload handle proof in
           match Composer.contract_sendMessage signer to payload handle proof with
           | Throw e => out = [sent] /\ outcome = Throw e
           | Ok tx =>
               match Composer.tx_wait tx with
               | Throw e => out = [sent; Composer.Waited tx] /\ outcome = Throw e
               | Ok receipt =>
                   out = [sent; Composer.Waited tx; Composer.OnSent]
                   /\ outcome = Ok (default (Composer.tx_hash tx) receipt)
               end
           end
       end.
Proof.
  intros Hk Ha Hne Hi Hs Hr Hv Hm.
  destruct (generateEphemeralAddress_ok g Hk) as [Hl Hg].
  set (id := drop 12 (keccak256 (drop 1 (fst (createRandom g))))) in *.
  set (key := Ethers.getChecksumAddress (address_of_bytes id)) in *.
  destruct (decryptMessage_encryptMessage (trim (Composer.message f)) key
              (snd (createRandom g)) (isValidAddress_checksummed id Hl))
    as (payload & g' & He & Hd).
  assert (Hto : exists to, normalizeAddress (Composer.recipient f) = Ok to).
  { unfold isValidAddress, Ethers.isAddress in Hv. unfold normalizeAddress.
    destruct (Ethers.getAddress (Composer.recipient f)) as [to|]; [|discriminate].
    now exists to. }
  destruct Hto as [to Hto].
  assert (E : exists outcome out,
             Composer.attempt address (Some signer) (Composer.cleared f) g
             = (outcome, g',
                Composer.InputEncrypted Inbox.CONTRACT_ADDRESS address key :: out)
             /\ match Composer.encrypt_address Inbox.CONTRACT_ADDRESS address key with
                | Throw e => out = [] /\ outcome = Throw e
                | Ok input =>
                    let handle := head (Composer.handles input) in
                    let proof := Composer.inputProof input in
                    let sent := Composer.Submitted signer to payload handle proof in
                    match Composer.contract_sendMessage signer to payload handle proof with
                    | Throw e => out = [sent] /\ outcome = Throw e
                    | Ok tx =>
                        match Composer.tx_wait tx with
                        | Throw e => out = [sent; Composer.Waited tx] /\ outcome = Throw e
                        | Ok receipt =>
                            out = [sent; Composer.Waited tx; Composer.OnSent]
                            /\ outcome = Ok (default (Composer.tx_hash tx) receipt)
                        end
                    end
                end).
  { unfold Composer.attempt. rewrite Hg.
    change (Composer.message (Composer.cleared f)) with (Composer.message f).
    change (Composer.recipient (Composer.cleared f)) with (Composer.recipient f).
    rewrite He, Hto.
    destruct (Composer.encrypt_address Inbox.CONTRACT_ADDRESS address key)
      as [input|e]; [|now eexists _, _].
    cbv zeta.
    destruct (Composer.contract_sendMessage signer to payload _ _) as [tx|e];
      [|now eexists _, _].
    destruct (Composer.tx_wait tx) as [receipt|e]; now eexists _, _. }
  destruct E as (outcome & out & Eat & Hout).
  exists id, key, to, payload, g', outcome, out.
  split; [exact Hl|]. split; [reflexivity|]. split; [exact Hg|].
  split; [exact He|].
  split; [intros Hu Hw; now rewrite Hd, TextDecoder_decode_encode_trim|].
  split; [exact Hto|]. split; [|exact Hout].
  unfold Composer.handleSend. cbv zeta. rewrite Ha, Hi, Hs.
  change (Composer.message (Composer.cleared f)) with (Composer.message f).
  change (Composer.recipient (Composer.cleared f)) with (Composer.recipient f).
  rewrite Hv.
  replace (Composer.nonempty address) with true by (now destruct address).
  replace (Composer.nonempty (Composer.recipient f)) with true
    by (now destruct (Composer.recipient f)).
  replace (Composer.nonempty (trim (Composer.message f))) with true
    by (now destruct (trim (Composer.message f))).
  cbn [andb]. now rewrite Eat.
Qed.

(** The steps of an attempt come in one order. *)
Lemma attempt_steps address s f g :
  let r := Composer.attempt address s f g in
  let outcome := fst (fst r) in
  let out := snd r in
  (out = [] /\ exists e, outcome = Throw e)
  \/ (exists c u v, out = [Composer.InputEncrypted c u v]
                    /\ exists e, outcome = Throw e)
  \/ (exists c u v signer to payload handle proof,
        out = [Composer.InputEncrypted c u v;
               Composer.Submitted signer to payload handle proof]
        /\ exists e, outcome = Throw e)
  \/ (exists c u v signer to payload handle proof tx,
        out = [Composer.InputEncrypted c u v;
               Composer.Submitted signer to payload handle proof;
               Composer.Waited tx]
        /\ exists e, outcome = Throw e)
  \/ (exists c u v signer to payload handle proof tx,
        out = [Composer.InputEncrypted c u v;
               Composer.Submitted signer to payload handle proof;
               Composer.Waited tx; Composer.OnSent]
        /\ exists hash, outcome = Ok hash).
Proof.
  unfold Composer.attempt. cbv zeta.
  destruct s as [signer|]; [|left; split; [reflexivity|now eexists]].
  destruct (generateEphemeralAddress g) as [[key|e] g1];
    [|left; split; [reflexivity|now eexists]].
  destruct (encryptMessage _ key g1) as [[payload|e] g2];
    [|left; split; [reflexivity|now eexists]].
  destruct (Composer.encrypt_address _ _ _) as [input|e];
    [|right; left; eexists _, _, _; split; [reflexivity|now eexists]].
  destruct (normalizeAddress _) as [to|e];
    [|right; left; eexists _, _, _; split; [reflexivity|now eexists]].
  destruct (Composer.contract_sendMessage _ _ _ _ _) as [tx|e];
    [|right; right; left; eexists _, _, _, _, _, _, _, _;
      split; [reflexivity|now eexists]].
  destruct (Composer.tx_wait tx) as [receipt|e].
  - right; right; right; right. eexists _, _, _, _, _, _, _, _, _.
    split; [reflexivity|now eexists].
  - right; right; right; left. eexists _, _, _, _, _, _, _, _, _.
    split; [reflexivity|now eexists].
Qed.

Lemma handleSend_cases h f g :
  (exists text,
     Composer.handleSend h f g
     = (Composer.setError text (Composer.cleared f), g, []))
  \/ (exists address s,
        Composer.handleSend h f g
        = (Composer.settle (Composer.cleared f)
             (fst (fst (Composer.attempt address s (Composer.cleared f) g))),
           snd (fst (Composer.attempt address s (Composer.cleared f) g)),
           snd (Composer.attempt address s (Composer.cleared f) g))).
Proof.
  unfold Composer.handleSend. cbv zeta.
  destruct (Inbox.account h) as [address|]; [|left; now eexists].
  destruct (Composer.nonempty address); [|left; now eexists].
  destruct (Inbox.instance_ready h); [|left; now eexists].
  destruct (Inbox.signerPromise h) as [promise|]; [|left; now eexists].
  destruct (_ && _); [|left; now eexists].
  destruct (Composer.nonempty (trim _)); [|left; now eexists].
  right. exists address, promise.
  now destruct (Composer.attempt address promise (Composer.cleared f) g) as [[o g'] out].
Qed.

(** X17: what a click leaves.  The steps that leave the component come
    in one order: encrypted input, transaction, wait, [onSent]; at most one
    transaction is submitted.  If [onSent] was called, all four steps were
    done, the form is empty, the status is "Message sent.", no error is shown
    and nothing is being sent.  If it was not, recipient and message are what
    was typed, an error is shown and no transaction hash. *)
Theorem handleSend_outcome h f g :
  let r := Composer.handleSend h f g in
  let f' := fst (fst r) in
  let out := snd r in
  (In Composer.OnSent out ->
   Composer.recipient f' = [] /\ Composer.message f' = []
   /\ Composer.status f' = lit "Message sent."
   /\ Composer.error f' = None /\ Composer.isSending f' = false
   /\ exists c u v signer to payload handle proof tx,
        out = [Composer.InputEncrypted c u v;
               Composer.Submitted signer to payload handle proof;
               Composer.Waited tx; Composer.OnSent])
  /\ (~ In Composer.OnSent out ->
      Composer.recipient f' = Composer.recipient f
      /\ Composer.message f' = Composer.message f
      /\ Composer.lastTxHash f' = []
      /\ (exists text, Composer.error f' = Some text)
      /\ (out = []
          \/ (exists c u v, out = [Composer.InputEncrypted c u v])
          \/ (exists c u v signer to payload handle proof,
                out = [Composer.InputEncrypted c u v;
                       Composer.Submitted signer to payload handle proof])
          \/ (exists c u v signer to payload handle proof tx,
                out = [Composer.InputEncrypted c u v;
                       Composer.Submitted signer to payload handle proof;
                       Composer.Waited tx]))).
Proof.
  cbv zeta. destruct (handleSend_cases h f g) as [[text ->] | (address & s & ->)].
  - cbn [fst snd]. split; [intros []|]. intros _.
    repeat split; try reflexivity; [now eexists|now left].
  - cbn [fst snd].
    pose proof (attempt_steps address s (Composer.cleared f) g) as H. cbv zeta in H.
    destruct (Composer.attempt address s (Composer.cleared f) g) as [[outcome g'] out].
    cbn [fst snd] in *.
    destruct H as [[-> [e ->]] | [(c & u & v & -> & e & ->)
      | [(c & u & v & sg & to & p & hd & pr & -> & e & ->)
      | [(c & u & v & sg & to & p & hd & pr & tx & -> & e & ->)
        | (c & u & v & sg & to & p & hd & pr & tx & -> & hash & ->)]]]].
    + split; [intros []|]. intros _. cbn.
      repeat split; try reflexivity; [now eexists|now left].
    + split; [intros [H|[]]; discriminate H|]. intros _. cbn.
      repeat split; try reflexivity; [now eexists|]. right; left. now eexists _, _, _.
    + split; [intros [H|[H|[]]]; discriminate H|]. intros _. cbn.
      repeat split; try reflexivity; [now eexists|]. right; right; left.
      now eexists _, _, _, _, _, _, _, _.
    + split; [intros [H|[H|[H|[]]]]; discriminate H|]. intros _. cbn.
      repeat split; try reflexivity; [now eexists|]. right; right; right.
      now eexists _, _, _, _, _, _, _, _, _.
    + split.
      * intros _. cbn. repeat split; try reflexivity.
        now eexists _, _, _, _, _, _, _, _, _.
      * intros H. exfalso. apply H. cbn. tauto.
Qed.

End ComposerProofs.

(** A message of blanks is not sent. *)
Lemma handleSend_validation_witness :
  Composer.handleSend (P:=Sample.platform) (W:=SampleWallet.wallet)
    (S:=SampleSender.sender) SampleInbox.connected
    {| Composer.recipient := lit "0x00000000000000000000000000000000000000b2";
       Composer.message := lit "   "; Composer.status := lit "Message sent.";
       Composer.isSending := false; Composer.error := None;
       Composer.lastTxHash := lit "0x7e57" |}
    Sample.zero_tape
  = ({| Composer.recipient := lit "0x00000000000000000000000000000000000000b2";
        Composer.message := lit "   "; Composer.status := lit "Message sent.";
        Composer.isSending := false;
        Composer.error := Some (lit "Message text cannot be empty.");
        Composer.lastTxHash := [] |},
     Sample.zero_tape, []).
Proof.
  apply (@handleSend_validation Sample.platform SampleWallet.wallet
           SampleInbox.relayer SampleSender.sender).
  reflexivity.
Defined.

(** A message sent with the sample services. *)
Lemma handleSend_sends_witness :
  exists payload g',
    Composer.handleSend (P:=Sample.platform) (W:=SampleWallet.wallet)
      (S:=SampleSender.sender) SampleInbox.connected SampleSender.draft
      Sample.zero_tape
    = ({| Composer.recipient := []; Composer.message := [];
          Composer.status := lit "Message sent."; Composer.isSending := false;
          Composer.error := None; Composer.lastTxHash := lit "0x7e57" |},
       g',
       [@Composer.InputEncrypted SampleInbox.relayer SampleSender.sender
          (lit "0x00000000000000000000000000000000000000c0")
          (lit "0x00000000000000000000000000000000000000a1")
          (lit "0x0000000000000000000000000000000000001111");
        @Composer.Submitted SampleInbox.relayer SampleSender.sender
          (lit "a1") (lit "0x00000000000000000000000000000000000000b2") payload
          (Some (map to_uint8 (lit "0x0000000000000000000000000000000000001111")))
          [x01];
        @Composer.Waited SampleInbox.relayer SampleSender.sender (lit "0x7e57");
        @Composer.OnSent SampleInbox.relayer SampleSender.sender])
    /\ decryptMessage (P:=Sample.platform) payload
         (lit "0x0000000000000000000000000000000000001111")
       = Ok (lit "Hello").
Proof.
  destruct (@handleSend_sends Sample.platform SampleWallet.wallet
              SampleInbox.relayer SampleSender.sender sample_laws
              SampleInbox.connected SampleSender.draft Sample.zero_tape
              (lit "0x00000000000000000000000000000000000000a1") (lit "a1"))
    as (id & key & to & payload & g' & outcome & out & Hl & Hkey & Hg & He & Hd
        & Hto & Hh & Hout).
  - intros m. apply (@sha256_length Sample.platform sample_laws).
  - reflexivity.
  - discriminate.
  - reflexivity.
  - reflexivity.
  - discriminate.
  - reflexivity.
  - discriminate.
  - assert (Ek : key = lit "0x0000000000000000000000000000000000001111").
    { vm_compute in Hg. now injection Hg as <-. }
    assert (Et : to = lit "0x00000000000000000000000000000000000000b2").
    { vm_compute in Hto. now injection Hto as <-. }
    subst key to. exists payload, g'. split.
    + rewrite Hh. cbv zeta in Hout. rewrite Ek in Hout |- *.
      vm_compute in Hout. destruct Hout as [-> ->]. vm_compute. reflexivity.
    + rewrite <- Ek. apply Hd.
      * unfold code_units. apply Forall_forall. intros c Hc.
        apply list_elem_of_In in Hc. vm_compute in Hc.
        repeat (destruct Hc as [<- | Hc]; [lia|]). destruct Hc.
      * reflexivity.
Defined.

(** ** The inbox *)

Section InboxProofs.
Context {P : Platform} {R : Relayer}.


(** The state after a click is the state before it with the error set, the
    flag of the clicked index set, or text and key stored under it. *)
Lemma handleDecrypt_shape h item u w :
  let u' := fst (fst (handleDecrypt h item u w)) in
  messages u' = messages u
  \/ messages u' = messages (setDecrypting item false u)
  \/ exists key text, messages u' = messages (setDecrypted item key text u).
Proof.
  cbv zeta. unfold handleDecrypt.
  destruct (account h) as [address|]; [|now left].
  destruct (instance_ready h); [|now left].
  destruct (signerPromise h) as [promise|]; [|now left].
  destruct (truthy (Some address)); [|now left].
  destruct (attempt address promise item w) as [[outcome w'] out].
  cbn [fst]. rewrite settle_start.
  destruct outcome as [[key text]|e]; [right; right; now eexists _, _|right; now left].
Qed.

(** X19: [handleDecrypt] never alters what was read from the ledger, and
    touches the one index only: the list keeps its length and order, every
    item keeps its index, sender, payload, handle and timestamp, and an item
    with another index than the one clicked is left exactly as it was. *)
Theorem handleDecrypt_frame h item u w :
  let u' := fst (fst (handleDecrypt h item u w)) in
  length (messages u') = length (messages u)
  /\ forall k m,
       messages u !! k = Some m ->
       exists m',
         messages u' !! k = Some m'
         /\ index m' = index m /\ sender m' = sender m
         /\ encryptedMessage m' = encryptedMessage m
         /\ encryptedKey m' = encryptedKey m /\ timestamp m' = timestamp m
         /\ (index m <> index item -> m' = m).
Proof.
  cbv zeta. destruct (handleDecrypt_shape h item u w) as [-> | [-> | (key & text & ->)]].
  - split; [reflexivity|]. intros k m Hm. exists m. now repeat split.
  - unfold setDecrypting. cbn [messages]. split; [apply length_map|].
    intros k m Hm. rewrite list_lookup_fmap, Hm. cbn [fmap option_fmap option_map].
    eexists. split; [reflexivity|].
    destruct (Z.eqb_spec (index m) (index item)); now repeat split.
  - unfold setDecrypted. cbn [messages]. split; [apply length_map|].
    intros k m Hm. rewrite list_lookup_fmap, Hm. cbn [fmap option_fmap option_map].
    eexists. split; [reflexivity|].
    destruct (Z.eqb_spec (index m) (index item)); now repeat split.
Qed.

(** With a relayer that answers with the identifier a payload was made
    under, an attempt stores the text and the key. *)
Lemma handleDecrypt_opens {L : PlatformLaws P} h item u w address s id m v g0 g1 sealed :
  account h = Some address -> address <> [] ->
  instance_ready h = true -> signerPromise h = Some (Some s) ->
  (forall data, exists signature, signTypedData s data = Ok signature) ->
  (forall r,
     handleContractPairs r = [(encryptedKey item, CONTRACT_ADDRESS)] ->
     userAddress r = address ->
     exists result,
       userDecrypt r = Ok result
       /\ lookup_key (encryptedKey item) result = Some v) ->
  length id = 20%nat ->
  v = VBigInt (be_value id) \/ v = VString (hex_of_bytes id)
  \/ v = VString (address_of_bytes id)
  \/ v = VString (Ethers.getChecksumAddress (address_of_bytes id)) ->
  sealed = address_of_bytes id
  \/ sealed = Ethers.getChecksumAddress (address_of_bytes id) ->
  encryptMessage m sealed g0 = (Ok (encryptedMessage item), g1) ->
  TextDecoder_decode (TextEncoder_encode m) = m ->
  fst (fst (handleDecrypt h item u w))
  = setDecrypted item (Ethers.getChecksumAddress (address_of_bytes id)) m u.
Proof.
  intros Ha Hne Hi Hs Hsign Hrel Hl Hv Hsealed He Hround.
  unfold handleDecrypt. rewrite Ha, Hi, Hs.
  replace (truthy (Some address)) with true by (now destruct address).
  unfold attempt. destruct (generateKeypair (rng w)) as [kp g].
  destruct (Hsign (createEIP712 (publicKey kp) [CONTRACT_ADDRESS]
                     (number_toString (now_ms w / 1000)) (lit "10")))
    as [signature Hsig].
  rewrite Hsig. cbn [fst snd]. rewrite settle_start.
  match goal with
  | |- context [userDecrypt ?req] =>
      destruct (Hrel req eq_refl eq_refl) as (result & Hr & Hk)
  end.
  rewrite Hr. cbn [mbind result_bind JS.bind]. rewrite Hk.
  cbn [of_option mbind result_bind JS.bind].
  rewrite (normalizeDecryptedAddress_forms id v Hl Hv).
  cbn [mbind result_bind JS.bind].
  rewrite (decryptMessage_encrypted_under id m g0 sealed _ g1 Hl Hsealed He).
  cbn [mbind result_bind JS.bind].
  now rewrite Hround.
Qed.

(** X20: if the payload of a record was made by [encryptMessage] under the
    address of a twenty-byte identifier, the account is connected, the wallet
    signs, and the relayer answers the request for the handle of the record
    with the identifier (as a number or as an address), then [handleDecrypt]
    stores the plaintext and the checksummed address under the index of the
    record, clears the flag and the error, and leaves the other items as they
    were. *)
Theorem handleDecrypt_reveals {L : PlatformLaws P} h item u w address s id m v g0 g1 sealed :
  account h = Some address -> address <> [] ->
  instance_ready h = true -> signerPromise h = Some (Some s) ->
  (forall data, exists signature, signTypedData s data = Ok signature) ->
  (forall r,
     handleContractPairs r = [(encryptedKey item, CONTRACT_ADDRESS)] ->
     userAddress r = address ->
     exists result,
       userDecrypt r = Ok result
       /\ lookup_key (encryptedKey item) result = Some v) ->
  length id = 20%nat ->
  v = VBigInt (be_value id) \/ v = VString (hex_of_bytes id)
  \/ v = VString (address_of_bytes id)
  \/ v = VString (Ethers.getChecksumAddress (address_of_bytes id)) ->
  sealed = address_of_bytes id
  \/ sealed = Ethers.getChecksumAddress (address_of_bytes id) ->
  encryptMessage m sealed g0 = (Ok (encryptedMessage item), g1) ->
  code_units m -> isWellFormed m = true -> head m <> Some 0xFEFF ->
  let u' := fst (fst (handleDecrypt h item u w)) in
  error u' = None
  /\ length (messages u') = length (messages u)
  /\ forall k x,
       messages u !! k = Some x ->
       exists x',
         messages u' !! k = Some x'
         /\ (index x = index item ->
             decryptedMessage x' = Some m
             /\ decryptedKey x'
                = Some (Ethers.getChecksumAddress (address_of_bytes id))
             /\ decrypting x' = Some false)
         /\ (index x <> index item -> x' = x).
Proof.
  intros Ha Hne Hi Hs Hsign Hrel Hl Hv Hsealed He Hu Hw Hb u'. subst u'.
  rewrite (handleDecrypt_opens h item u w address s id m v g0 g1 sealed);
    try assumption; [|now apply TextDecoder_decode_encode].
  split; [reflexivity|]. unfold setDecrypted. cbn [messages].
  split; [apply length_map|].
  intros k x Hx. rewrite list_lookup_fmap, Hx. cbn [fmap option_fmap option_map].
  eexists. split; [reflexivity|].
  destruct (Z.eqb_spec (index x) (index item)) as [E|E].
  - split; [intros _; now repeat split|]. intros H. now elim H.
  - split; [intros H; now elim E|reflexivity].
Qed.

(** X21: a record whose plaintext is the empty text is decrypted without
    error, and still looks undecrypted: the empty text is stored, but the
    list shows "Encrypted payload stored on-chain." for it and the button
    says "Decrypt message", as before the click. *)
Theorem empty_text_shown_as_encrypted {L : PlatformLaws P} h item u w address s id v g0 g1 sealed :
  account h = Some address -> address <> [] ->
  instance_ready h = true -> signerPromise h = Some (Some s) ->
  (forall data, exists signature, signTypedData s data = Ok signature) ->
  (forall r,
     handleContractPairs r = [(encryptedKey item, CONTRACT_ADDRESS)] ->
     userAddress r = address ->
     exists result,
       userDecrypt r = Ok result
       /\ lookup_key (encryptedKey item) result = Some v) ->
  length id = 20%nat ->
  v = VBigInt (be_value id) \/ v = VString (hex_of_bytes id)
  \/ v = VString (address_of_bytes id)
  \/ v = VString (Ethers.getChecksumAddress (address_of_bytes id)) ->
  sealed = address_of_bytes id
  \/ sealed = Ethers.getChecksumAddress (address_of_bytes id) ->
  encryptMessage [] sealed g0 = (Ok (encryptedMessage item), g1) ->
  let u' := fst (fst (handleDecrypt h item u w)) in
  error u' = None
  /\ forall k x,
       messages u !! k = Some x -> index x = index item ->
       exists x',
         messages u' !! k = Some x'
         /\ decryptedMessage x' = Some []
         /\ Listing.message_body x' = lit "Encrypted payload stored on-chain."
         /\ Listing.button_label x' = lit "Decrypt message".
Proof.
  intros Ha Hne Hi Hs Hsign Hrel Hl Hv Hsealed He u'. subst u'.
  rewrite (handleDecrypt_opens h item u w address s id [] v g0 g1 sealed);
    try assumption; [|reflexivity].
  split; [reflexivity|]. unfold setDecrypted. cbn [messages].
  intros k x Hx Hix. rewrite list_lookup_fmap, Hx. cbn [fmap option_fmap option_map].
  rewrite Hix, Z.eqb_refl. eexists. split; [reflexivity|]. now repeat split.
Qed.

End InboxProofs.

(** The sample relayer answers every request with the number 0x1111. *)
Lemma sample_relayer_answers r :
  handleContractPairs r = [(lit "0xaa", CONTRACT_ADDRESS (Relayer:=SampleInbox.relayer))] ->
  userAddress r = lit "0x00000000000000000000000000000000000000a1" ->
  exists result,
    userDecrypt (Relayer:=SampleInbox.relayer) r = Ok result
    /\ lookup_key (lit "0xaa") result = Some (VBigInt 0x1111).
Proof.
  intros Hp _. cbn. rewrite Hp. eexists. split; reflexivity.
Qed.

(** The sample record, decrypted. *)
Lemma handleDecrypt_reveals_witness :
  exists x',
    messages
      (fst (fst (handleDecrypt (P:=Sample.platform) (R:=SampleInbox.relayer)
                   SampleInbox.connected SampleNote.item
                   {| messages := [SampleNote.item]; error := None |}
                   SampleInbox.start))) !! 0%nat
    = Some x'
    /\ decryptedMessage x' = Some (lit "Hi!")
    /\ decryptedKey x' = Some (lit "0x0000000000000000000000000000000000001111").
Proof.
  destruct (@handleDecrypt_reveals Sample.platform SampleInbox.relayer sample_laws
              SampleInbox.connected SampleNote.item
              {| messages := [SampleNote.item]; error := None |} SampleInbox.start
              (lit "0x00000000000000000000000000000000000000a1") (lit "a1")
              (be_bytes 20 0x1111) (lit "Hi!") (VBigInt 0x1111)
              Sample.zero_tape {| tape := fun _ => x00; cursor := 12 |}
              (lit "0x0000000000000000000000000000000000001111"))
    as (_ & _ & H).
  - reflexivity.
  - discriminate.
  - reflexivity.
  - reflexivity.
  - intros data. eexists. reflexivity.
  - apply sample_relayer_answers.
  - reflexivity.
  - left. reflexivity.
  - left. reflexivity.
  - vm_compute. reflexivity.
  - unfold code_units. apply Forall_forall. intros c Hc.
    apply list_elem_of_In in Hc. vm_compute in Hc.
    repeat (destruct Hc as [<- | Hc]; [lia|]). destruct Hc.
  - reflexivity.
  - discriminate.
  - destruct (H 0%nat SampleNote.item eq_refl) as (x' & Hx & Hd & _).
    exists x'. split; [exact Hx|].
    destruct (Hd eq_refl) as (Hm & Hk & _). split; [exact Hm|].
    rewrite Hk. vm_compute. reflexivity.
Defined.

(** The record of an empty text, decrypted. *)
Lemma empty_text_shown_as_encrypted_witness :
  exists x',
    messages
      (fst (fst (handleDecrypt (P:=Sample.platform) (R:=SampleInbox.relayer)
                   SampleInbox.connected (SampleNote.record SampleNote.blank)
                   {| messages := [SampleNote.record SampleNote.blank];
                      error := None |}
                   SampleInbox.start))) !! 0%nat
    = Some x'
    /\ decryptedMessage x' = Some []
    /\ Listing.message_body x' = lit "Encrypted payload stored on-chain."
    /\ Listing.button_label x' = lit "Decrypt message".
Proof.
  destruct (@empty_text_shown_as_encrypted Sample.platform SampleInbox.relayer
              sample_laws SampleInbox.connected
              (SampleNote.record SampleNote.blank)
              {| messages := [SampleNote.record SampleNote.blank]; error := None |}
              SampleInbox.start
              (lit "0x00000000000000000000000000000000000000a1") (lit "a1")
              (be_bytes 20 0x1111) (VBigInt 0x1111)
              Sample.zero_tape {| tape := fun _ => x00; cursor := 12 |}
              (lit "0x0000000000000000000000000000000000001111"))
    as (_ & H).
  - reflexivity.
  - discriminate.
  - reflexivity.
  - reflexivity.
  - intros data. eexists. reflexivity.
  - apply sample_relayer_answers.
  - reflexivity.
  - left. reflexivity.
  - left. reflexivity.
  - vm_compute. reflexivity.
  - apply (H 0%nat (SampleNote.record SampleNote.blank)); reflexivity.
Defined.

(** ** Loading the inbox *)

Lemma all_Ok {A B} (f : A -> result B) (g : A -> B) l :
  (forall x, x ∈ l -> f x = Ok (g x)) -> Listing.all (map f l) = Ok (map g l).
Proof.
  induction l as [|x l IH]; intros H; [reflexivity|].
  cbn [map Listing.all]. rewrite (H x) by left.
  rewrite IH by (intros y Hy; apply H; now right). reflexivity.
Qed.

Lemma all_Throw {A B} (f : A -> result B) l x e :
  x ∈ l -> f x = Throw e -> exists e', Listing.all (map f l) = Throw e'.
Proof.
  induction l as [|y l IH]; intros Hx He; [now apply elem_of_nil in Hx|].
  cbn [map Listing.all]. apply elem_of_cons in Hx as [<- | Hx].
  - rewrite He. now eexists.
  - destruct (f y); [|now eexists].
    destruct (IH Hx He) as [e' ->]. now eexists.
Qed.

Lemma Number_overflow_large : 2 ^ 32 < Listing.Number_overflow.
Proof. reflexivity. Qed.

Section Loading.
Context {R : Relayer}.

(** A load of [n] records that are all read. *)
Lemma loadMessages_loaded (account : jsstring) (client : Listing.reader)
    n data v :
  account <> [] -> 0 < n < 2 ^ 32 ->
  (forall k, 0 <= k < n -> client CONTRACT_ADDRESS account k = Ok (data k)) ->
  Listing.loadMessages (Some account) (Some client) (Some n) true v
  = ({| Listing.shown :=
          {| messages :=
               reverse (map (fun k => Listing.item_of k (data k)) (seqZ 0 n));
             error := None |};
        Listing.isLoading := false |}, seqZ 0 n).
Proof.
  intros Hne Hn Hread. unfold Listing.loadMessages.
  assert (Ht : truthy (Some account) = true) by (now destruct account).
  rewrite Ht. cbv zeta.
  pose proof Number_overflow_large as Hbig.
  destruct (Z.eqb_spec n 0) as [|_]; [lia|].
  destruct (Z.leb_spec Listing.Number_overflow n) as [|_]; [lia|].
  destruct (Z.leb_spec n 0) as [|_]; [lia|]. cbn [orb].
  destruct (Z.ltb_spec n (2 ^ 32)) as [_|]; [|lia].
  rewrite (all_Ok _ (fun k => Listing.item_of k (data k))); [reflexivity|].
  intros k Hk. apply elem_of_seqZ in Hk. rewrite Hread by lia. reflexivity.
Qed.

Lemma loaded_lookup data n p :
  (p < Z.to_nat n)%nat ->
  reverse (map (fun k => Listing.item_of k (data k)) (seqZ 0 n)) !! p
  = Some (Listing.item_of (n - 1 - Z.of_nat p) (data (n - 1 - Z.of_nat p))).
Proof.
  intros Hp.
  assert (Hlen : length (map (fun k => Listing.item_of k (data k)) (seqZ 0 n))
                 = Z.to_nat n) by now rewrite length_map, length_seqZ.
  rewrite reverse_lookup by (rewrite Hlen; lia). rewrite Hlen.
  rewrite list_lookup_fmap, lookup_seqZ_lt by lia.
  cbn [fmap option_fmap option_map].
  replace (0 + Z.of_nat (Z.to_nat n - S p)) with (n - 1 - Z.of_nat p) by lia.
  reflexivity.
Qed.

(** X22: for a connected account, a count [n] between 1 and 2^32 - 1 and
    a client that answers every read, [loadMessages] reads the indices 0 to
    [n - 1], each once, and shows [n] items, the newest first: the item at
    position [p] is the record of index [n - 1 - p], with no text or key
    decrypted.  The indices shown are all different; nothing is loading and
    no error is shown. *)
Theorem loadMessages_newest_first (account : jsstring) (client : Listing.reader)
    n data v :
  account <> [] -> 0 < n < 2 ^ 32 ->
  (forall k, 0 <= k < n -> client CONTRACT_ADDRESS account k = Ok (data k)) ->
  let r := Listing.loadMessages (Some account) (Some client) (Some n) true v in
  let v' := fst r in
  snd r = seqZ 0 n
  /\ Listing.isLoading v' = false
  /\ error (Listing.shown v') = None
  /\ length (messages (Listing.shown v')) = Z.to_nat n
  /\ (forall p, (p < Z.to_nat n)%nat ->
        messages (Listing.shown v') !! p
        = Some (Listing.item_of (n - 1 - Z.of_nat p) (data (n - 1 - Z.of_nat p))))
  /\ NoDup (map index (messages (Listing.shown v'))).
Proof.
  intros Hne Hn Hread r v'. subst v' r.
  rewrite (loadMessages_loaded account client n data v Hne Hn Hread).
  cbn [fst snd Listing.shown Listing.isLoading messages error].
  split; [reflexivity|]. split; [reflexivity|]. split; [reflexivity|].
  split; [now rewrite length_reverse, length_map, length_seqZ|]. split.
  - intros p Hp. now apply loaded_lookup.
  - match goal with
    | |- NoDup (map index (reverse ?l)) => change (NoDup (index <$> reverse l))
    end.
    rewrite fmap_reverse, reverse_Permutation.
    match goal with
    | |- NoDup (index <$> map ?f ?l) => change (NoDup (map index (map f l)))
    end.
    rewrite map_map.
    rewrite (map_ext _ id); [rewrite map_id; apply NoDup_seqZ|].
    intros k. unfold Listing.item_of. now destruct (data k) as [[[? ?] ?] ?].
Qed.

(** X23: when [loadMessages] keeps the list.  Without an account or
    without a client nothing changes and nothing is read.  With a count
    that is missing or zero the list is emptied and nothing is read; error and
    loading flag stay.  If one read fails, every index was still asked for,
    the list is the old one, the error is "Failed to load messages." and
    nothing is loading; a count of 2^32 or more fails the same way before any
    read.  A load that is no longer mounted when its reads settle writes
    neither list nor result and leaves the loading flag set, also after a
    later load without an account. *)
Theorem loadMessages_keeps_list (account : jsstring) (client : Listing.reader)
    n mounted v :
  let loading :=
    {| Listing.shown :=
         {| messages := messages (Listing.shown v); error := None |};
       Listing.isLoading := true |} in
  let failed :=
    {| Listing.shown :=
         {| messages := messages (Listing.shown v);
            error := Some (lit "Failed to load messages.") |};
       Listing.isLoading := false |} in
  (forall publicClient countData,
     Listing.loadMessages None publicClient countData mounted v = (v, []))
  /\ (forall address countData,
        Listing.loadMessages address None countData mounted v = (v, []))
  /\ (account <> [] ->
      forall countData,
        countData = None \/ countData = Some 0 ->
        Listing.loadMessages (Some account) (Some client) countData mounted v
        = ({| Listing.shown :=
                {| messages := []; error := error (Listing.shown v) |};
              Listing.isLoading := Listing.isLoading v |}, []))
  /\ (account <> [] -> 0 < n < 2 ^ 32 ->
      (exists k e, 0 <= k < n /\ client CONTRACT_ADDRESS account k = Throw e) ->
      Listing.loadMessages (Some account) (Some client) (Some n) true v
      = (failed, seqZ 0 n))
  /\ (account <> [] -> 2 ^ 32 <= n < Listing.Number_overflow ->
      Listing.loadMessages (Some account) (Some client) (Some n) mounted v
      = (failed, []))
  /\ (account <> [] -> 0 < n < 2 ^ 32 ->
      Listing.loadMessages (Some account) (Some client) (Some n) false v
      = (loading, seqZ 0 n)
      /\ forall publicClient countData,
           Listing.loadMessages None publicClient countData true loading
           = (loading, [])).
Proof.
  cbv zeta. pose proof Number_overflow_large as Hbig.
  assert (Ht : account <> [] -> truthy (Some account) = true)
    by (intros H; now destruct account).
  split; [reflexivity|]. split; [now intros [a|] m|].
  split; [|split; [|split]].
  - intros Hne countData Hc. unfold Listing.loadMessages. rewrite (Ht Hne).
    destruct Hc as [-> | ->]; reflexivity.
  - intros Hne Hn (k & e & Hk & He). unfold Listing.loadMessages.
    rewrite (Ht Hne). cbv zeta.
    destruct (Z.eqb_spec n 0) as [|_]; [lia|].
    destruct (Z.leb_spec Listing.Number_overflow n) as [|_]; [lia|].
    destruct (Z.leb_spec n 0) as [|_]; [lia|]. cbn [orb].
    destruct (Z.ltb_spec n (2 ^ 32)) as [_|]; [|lia].
    match goal with
    | |- context [Listing.all (map ?f ?l)] =>
        destruct (all_Throw f l k e) as [e' ->]
    end.
    + apply elem_of_seqZ. lia.
    + now rewrite He.
    + reflexivity.
  - intros Hne Hn. unfold Listing.loadMessages. rewrite (Ht Hne). cbv zeta.
    destruct (Z.eqb_spec n 0) as [|_]; [lia|].
    destruct (Z.leb_spec Listing.Number_overflow n) as [|_]; [lia|].
    destruct (Z.leb_spec n 0) as [|_]; [lia|]. cbn [orb].
    destruct (Z.ltb_spec n (2 ^ 32)) as [|_]; [lia|]. reflexivity.
  - intros Hne Hn. split; [|reflexivity].
    unfold Listing.loadMessages. rewrite (Ht Hne). cbv zeta.
    destruct (Z.eqb_spec n 0) as [|_]; [lia|].
    destruct (Z.leb_spec Listing.Number_overflow n) as [|_]; [lia|].
    destruct (Z.leb_spec n 0) as [|_]; [lia|]. cbn [orb].
    destruct (Z.ltb_spec n (2 ^ 32)) as [_|]; [|lia]. reflexivity.
Qed.

End Loading.

Section LedgerShown.
Context {F : FHEVM} {R : Relayer}.
Variable this : address.
Variable account_of : jsstring -> address.
Variable show_address : address -> jsstring.
Variable show_text : list byte -> jsstring.
Variable show_handle : eaddress -> jsstring.

(** X24: the inbox lists the ledger.  After a run of accepted calls from
    the deployed contract, loading the inbox of an account with at least one
    and fewer than 2^32 records, from that state and with the count the
    contract gives, shows one item for each call to the account: the item of
    the [k]-th call has index [k], is at position [n - 1 - k], and holds the
    sender, ciphertext, handle and timestamp of that call as the client
    writes them. *)
Theorem inbox_lists_ledger calls st (account : jsstring) v :
  run this deployed calls = Some st -> account <> [] ->
  let r := account_of account in
  let n := length (appended calls r) in
  (0 < n)%nat -> Z.of_nat n < 2 ^ 32 ->
  let v' :=
    fst (Listing.loadMessages (Some account)
           (Some (chain_reader account_of show_address show_text show_handle st))
           (Some (Z.of_N (getMessageCount st r))) true v) in
  error (Listing.shown v') = None
  /\ length (messages (Listing.shown v')) = n
  /\ forall k c,
       appended calls r !! k = Some c ->
       exists key,
         fromExternal this (msg_sender (c_env c)) (c_key c) (c_proof c) = Some key
         /\ messages (Listing.shown v') !! (n - 1 - k)%nat
            = Some {| index := Z.of_nat k;
                      sender := show_address (msg_sender (c_env c));
                      encryptedMessage := show_text (c_message c);
                      encryptedKey := show_handle key;
                      timestamp := Z.of_N (block_timestamp (c_env c));
                      decryptedMessage := None; decryptedKey := None;
                      decrypting := None |}.
Proof.
  intros Hrun Hne r n Hn0 Hn v'. subst v'.
  assert (Hc : getMessageCount st r = N.of_nat n).
  { unfold getMessageCount. rewrite (run_count this calls deployed st r Hrun).
    reflexivity. }
  set (data := fun k : Z =>
         match getMessageAt st r (Z.to_N k) with
         | Some (sender, text, key, time) =>
             (show_address sender, show_text text, show_handle key, Z.of_N time)
         | None => ([], [], [], 0)
         end).
  assert (Hread : forall k, 0 <= k < Z.of_nat n ->
            chain_reader account_of show_address show_text show_handle st
              CONTRACT_ADDRESS account k = Ok (data k)).
  { intros k Hk. unfold chain_reader, data. fold r.
    destruct (Z.ltb_spec k 0); [lia|].
    destruct (appended calls r !! Z.to_nat k) as [c|] eqn:Ec.
    2:{ apply lookup_ge_None in Ec. fold n in Ec. lia. }
    destruct (run_stored this calls st r _ c Hrun Ec) as (m & Hm & _).
    replace (Z.to_N k) with (N.of_nat (Z.to_nat k)) by lia.
    rewrite getMessageAt_entry, Hm. reflexivity. }
  rewrite Hc. replace (Z.of_N (N.of_nat n)) with (Z.of_nat n) by lia.
  rewrite (loadMessages_loaded account _ (Z.of_nat n) data v Hne ltac:(lia) Hread).
  cbn [fst Listing.shown messages error].
  split; [reflexivity|].
  split; [rewrite length_reverse, length_map, length_seqZ; lia|].
  intros k c Hk. pose proof (lookup_lt_Some _ _ _ Hk) as Hlt. fold n in Hlt.
  destruct (run_stored this calls st r k c Hrun Hk) as (m & Hm & Hs).
  unfold stored in Hs.
  destruct (fromExternal this (msg_sender (c_env c)) (c_key c) (c_proof c))
    as [key|]; [|discriminate Hs].
  assert (E : entry m = (msg_sender (c_env c), c_message c, key,
                         block_timestamp (c_env c))) by (cbn in Hs; congruence).
  exists key. split; [reflexivity|].
  rewrite loaded_lookup by lia.
  replace (Z.of_nat n - 1 - Z.of_nat (n - 1 - k)) with (Z.of_nat k) by lia.
  unfold data. replace (Z.to_N (Z.of_nat k)) with (N.of_nat k) by lia.
  rewrite getMessageAt_entry, Hm. cbn [fmap option_fmap option_map].
  rewrite E. reflexivity.
Qed.

End LedgerShown.


(** Three records, the newest first. *)
Lemma loadMessages_newest_first_witness :
  map index
    (messages
       (Listing.shown
          (fst (Listing.loadMessages (R:=SampleInbox.relayer)
                  (Some (lit "0x00000000000000000000000000000000000000a1"))
                  (Some SampleListing.client) (Some 3) true SampleListing.empty))))
  = [2; 1; 0].
Proof.
  destruct (@loadMessages_newest_first SampleInbox.relayer
              (lit "0x00000000000000000000000000000000000000a1")
              SampleListing.client 3
              (fun k => (lit "0x00000000000000000000000000000000000000b2",
                         lit "AAAA.AAAA.AAAA", lit "0xaa", 1700000000 + k))
              SampleListing.empty)
    as (_ & _ & _ & Hlen & H & _).
  - discriminate.
  - lia.
  - intros k Hk. unfold SampleListing.client.
    destruct (Z.leb_spec 0 k); [|lia]. destruct (Z.ltb_spec k 3); [|lia]. reflexivity.
  - pose proof (H 0%nat ltac:(simpl; lia)) as H0.
    pose proof (H 1%nat ltac:(simpl; lia)) as H1.
    pose proof (H 2%nat ltac:(simpl; lia)) as H2.
    destruct (messages _) as [|a [|b [|c [|d l]]]]; try discriminate Hlen.
    cbn in H0, H1, H2. injection H0 as ->. injection H1 as ->. injection H2 as ->.
    reflexivity.
Defined.

(** The fourth of five reads fails. *)
Lemma loadMessages_keeps_list_witness :
  Listing.loadMessages (R:=SampleInbox.relayer)
    (Some (lit "0x00000000000000000000000000000000000000a1"))
    (Some SampleListing.client) (Some 5) true SampleListing.empty
  = ({| Listing.shown :=
          {| messages := []; error := Some (lit "Failed to load messages.") |};
        Listing.isLoading := false |}, [0; 1; 2; 3; 4]).
Proof.
  apply (proj1 (proj2 (proj2 (proj2
           (@loadMessages_keeps_list SampleInbox.relayer
              (lit "0x00000000000000000000000000000000000000a1")
              SampleListing.client 5 true SampleListing.empty))))).
  - discriminate.
  - lia.
  - exists 3, (Error (lit "execution reverted")). split; [lia|reflexivity].
Defined.

(** Two records in the ledger of the sample chain: the second is shown first. *)
Lemma inbox_lists_ledger_witness :
  exists st,
    run (F:=SampleChain.fhevm) SampleChain.contract deployed
      [SampleChain.to_bob 5 [x41] 10; SampleChain.to_bob 6 [x42] 11] = Some st
    /\ messages
         (Listing.shown
            (fst (Listing.loadMessages (R:=SampleInbox.relayer)
                    (Some (lit "0x02"))
                    (Some (chain_reader (fun _ => SampleChain.bob)
                             (fun a => [Z.of_N a]) (map byte_val)
                             (fun h => [Z.of_N h]) st))
                    (Some (Z.of_N (getMessageCount st SampleChain.bob)))
                    true SampleListing.empty))) !! 0%nat
       = Some {| index := 1; sender := [1]; encryptedMessage := [0x42];
                 encryptedKey := [6]; timestamp := 11;
                 decryptedMessage := None; decryptedKey := None;
                 decrypting := None |}.
Proof.
  destruct (run (F:=SampleChain.fhevm) SampleChain.contract deployed
              [SampleChain.to_bob 5 [x41] 10; SampleChain.to_bob 6 [x42] 11])
    as [st|] eqn:Hrun; [|vm_compute in Hrun; discriminate Hrun].
  exists st. split; [reflexivity|].
  destruct (@inbox_lists_ledger SampleChain.fhevm SampleInbox.relayer
              SampleChain.contract (fun _ => SampleChain.bob)
              (fun a => [Z.of_N a]) (map byte_val) (fun h => [Z.of_N h])
              _ st (lit "0x02") SampleListing.empty Hrun)
    as (_ & _ & H).
  - discriminate.
  - vm_compute. lia.
  - vm_compute. reflexivity.
  - destruct (H 1%nat (SampleChain.to_bob 6 [x42] 11) eq_refl) as (key & Hk & Hm).
    cbn in Hk. injection Hk as <-. exact Hm.
Defined.

(** ** Histories of the ledger *)

Section Histories.
Context {F : FHEVM}.
Variable this : address.

Lemma send_accepted c st :
  accepted this c = true -> exists st', send this c st = (inl tt, st').
Proof.
  unfold accepted. intros H. apply andb_prop in H as [H Hk].
  apply andb_prop in H as [Hr Hm]. apply bool_decide_eq_true in Hk as [key Hk].
  unfold send, sendMessage, and_then, require, FHE_fromExternal, push,
    FHE_allowThis, FHE_allow, emit.
  rewrite Hr, Hm, Hk. now eexists.
Qed.

Lemma transact_accepted c st :
  fst (transact this st c) = None <-> accepted this c = true.
Proof.
  split.
  - unfold transact. destruct (send this c st) as [[[]|f] st'] eqn:E; [|discriminate].
    intros _. apply send_success in E as (Hr & Hm & key & Hk & _).
    unfold accepted. apply andb_true_intro. split; [apply andb_true_intro; split|].
    + now destruct (N.eqb_spec (c_recipient c) 0).
    + destruct (c_message c); [contradiction|reflexivity].
    + apply bool_decide_eq_true. now exists key.
  - intros H. destruct (send_accepted c st H) as [st' E].
    unfold transact. now rewrite E.
Qed.

Lemma run_filter_accepted calls : forall st,
  run this st (filter (fun c => accepted this c = true) calls)
  = Some (replay this st calls).
Proof.
  induction calls as [|c calls IH]; intros st; [reflexivity|].
  rewrite filter_cons. cbn [replay].
  destruct (decide (accepted this c = true)) as [Ha|Ha].
  - cbn [run]. apply (transact_accepted c st) in Ha.
    destruct (transact this st c) as [[f|] st1]; [discriminate|]. apply IH.
  - assert (E : snd (transact this st c) = st).
    { pose proof (transact_accepted c st) as H.
      unfold transact in *. destruct (send this c st) as [[[]|f] st'];
        [|reflexivity]. elim Ha. now apply H. }
    rewrite E. apply IH.
Qed.

Lemma run_logs_length calls : forall st st',
  run this st calls = Some st' ->
  length (logs st') = (length (logs st) + length calls)%nat.
Proof.
  induction calls as [|c calls IH]; intros st st' Hrun.
  - cbn in Hrun. injection Hrun as <-. cbn. lia.
  - cbn [run] in Hrun.
    destruct (transact this st c) as [[f|] st1] eqn:Ht; [discriminate|].
    apply transact_success, send_success in Ht as (_ & _ & key & _ & E).
    cbv zeta in E. rewrite (IH _ _ Hrun), E. cbn [logs length].
    rewrite length_app. cbn. lia.
Qed.

(** The position of a call among the calls to its recipient. *)
Lemma appended_position calls i c :
  calls !! i = Some c ->
  appended calls (c_recipient c)
    !! length (appended (take i calls) (c_recipient c)) = Some c.
Proof.
  intros Hc. pose proof (take_drop_middle calls i c Hc) as E.
  set (pre := take i calls) in *. set (post := drop (S i) calls) in *.
  clearbody pre post. subst calls. clear Hc.
  unfold appended. rewrite filter_app, filter_cons.
  destruct (decide (c_recipient c = c_recipient c)) as [_|H]; [|now elim H].
  rewrite lookup_app_r by lia. now rewrite Nat.sub_diag.
Qed.

Lemma run_kept_replay calls : forall st,
  run this st (kept this st calls) = Some (replay this st calls).
Proof.
  induction calls as [|c calls IH]; intros st; [reflexivity|].
  cbn [kept replay].
  destruct (transact this st c) as [[f|] st1] eqn:Ht; cbn [snd].
  - assert (E : st1 = st).
    { unfold transact in Ht. destruct (send this c st) as [[[]|f'] st'];
        [discriminate Ht|]. now injection Ht as _ <-. }
    rewrite E. apply IH.
  - cbn [run]. rewrite Ht. apply IH.
Qed.

Lemma kept_sublist calls : forall st, sublist (kept this st calls) calls.
Proof.
  induction calls as [|c calls IH]; intros st; [constructor|].
  cbn [kept]. destruct (transact this st c) as [[f|] st1].
  - apply sublist_cons, IH.
  - apply sublist_skip, IH.
Qed.

(** X25: histories with rejected calls.  A rejected transaction leaves no
    trace: the state after any sequence of transactions is the state after
    the calls that went through, run alone in the same order, where they all
    go through again.  So the count of a recipient grows by the number of
    those calls to it, there is one new event for each of them, and a call
    that went through has a recipient that is not zero and a ciphertext that
    is not empty. *)
Theorem replay_accepted_calls st calls :
  let done := kept this st calls in
  let st' := replay this st calls in
  run this st done = Some st'
  /\ sublist done calls
  /\ (forall c rest,
        fst (transact this st c) <> None ->
        replay this st (c :: rest) = replay this st rest
        /\ kept this st (c :: rest) = kept this st rest)
  /\ (forall r,
        getMessageCount st' r
        = (getMessageCount st r + N.of_nat (length (appended done r)))%N)
  /\ length (logs st') = (length (logs st) + length done)%nat
  /\ (forall c, c ∈ done -> c_recipient c <> 0%N /\ c_message c <> [])
  /\ (Forall (fun c => c_recipient c = 0%N \/ c_message c = []) calls ->
      st' = st).
Proof.
  cbv zeta. pose proof (run_kept_replay calls st) as Hrun.
  split; [exact Hrun|]. split; [apply kept_sublist|]. split; [|split; [|split; [|split]]].
  - intros c rest Hf. cbn [replay kept].
    destruct (transact this st c) as [[f|] st1] eqn:Ht; [|now elim Hf].
    assert (E : st1 = st).
    { unfold transact in Ht. destruct (send this c st) as [[[]|f'] st'];
        [discriminate Ht|]. now injection Ht as _ <-. }
    cbn [snd]. now rewrite E.
  - intros r. unfold getMessageCount.
    rewrite (run_count this _ st _ r Hrun). lia.
  - apply (run_logs_length _ _ _ Hrun).
  - clear Hrun. revert st. induction calls as [|c calls IH]; intros st c' Hc'.
    + now apply elem_of_nil in Hc'.
    + cbn [kept] in Hc'.
      destruct (transact this st c) as [[f|] st1] eqn:Ht; [now apply (IH st)|].
      apply elem_of_cons in Hc' as [-> | Hc']; [|now apply (IH st1)].
      apply transact_success, send_success in Ht as (Hr & Hm & _). now split.
  - clear Hrun. induction 1 as [|c calls Hc _ IH]; [reflexivity|].
    cbn [replay].
    replace (snd (transact this st c)) with st; [exact IH|].
    unfold transact. destruct (send this c st) as [[[]|f] st1] eqn:Es; [|reflexivity].
    apply send_success in Es as (Hr & Hm & _). now destruct Hc.
Qed.

(** X26: after a run of accepted calls from the deployed contract there
    is one event for each call, in order, and the index in the event of a
    call is below the count of its recipient and leads to the record of that
    very call: [getMessageAt] at the recipient and the index of the event
    returns what the call stored. *)
Theorem event_points_to_record calls st :
  run this deployed calls = Some st ->
  length (logs st) = length calls
  /\ forall i c,
       calls !! i = Some c ->
       exists k,
         logs st !! i
         = Some (MessageSent (msg_sender (c_env c)) (c_recipient c) k)
         /\ (k < getMessageCount st (c_recipient c))%N
         /\ exists record,
              stored this c = Some record
              /\ getMessageAt st (c_recipient c) k = Some record.
Proof.
  intros Hrun. split.
  { rewrite (run_logs_length calls deployed st Hrun). reflexivity. }
  intros i c Hc.
  destruct (run_logs this calls deployed st Hrun) as (evs & Hl & He).
  exists (N.of_nat (length (appended (take i calls) (c_recipient c)))).
  split; [|split].
  - rewrite Hl. cbn [logs deployed app]. rewrite (He i c Hc). reflexivity.
  - unfold getMessageCount.
    rewrite (run_count this calls deployed st (c_recipient c) Hrun).
    change (messages_of deployed (c_recipient c)) with (@nil Message).
    cbn [length plus].
    pose proof (appended_position calls i c Hc) as Hp.
    apply lookup_lt_Some in Hp. lia.
  - destruct (run_stored this calls st (c_recipient c) _ c Hrun
                (appended_position calls i c Hc)) as (m & Hm & Hs).
    exists (entry m). split; [exact Hs|].
    rewrite getMessageAt_entry, Hm. reflexivity.
Qed.

(** X27: nothing is ever removed.  Whatever transactions follow, accepted
    or not, no count goes down, every record is read back as before, every
    allowance of the access list stays, and the events so far are a prefix of
    the events after; an allowance that is new is that of the contract or of
    the recipient of an accepted call. *)
Theorem replay_never_removes st calls :
  let st' := replay this st calls in
  (forall r,
     (getMessageCount st r <= getMessageCount st' r)%N
     /\ forall k, (k < getMessageCount st r)%N ->
          getMessageAt st' r k = getMessageAt st r k)
  /\ (forall h p, (h, p) ∈ acl st -> (h, p) ∈ acl st')
  /\ (exists evs, logs st' = logs st ++ evs)
  /\ (forall h p, (h, p) ∈ acl st' -> (h, p) ∉ acl st ->
        exists c, c ∈ calls /\ accepted this c = true
                  /\ (p = this \/ p = c_recipient c)).
Proof.
  cbv zeta. pose proof (run_filter_accepted calls st) as Hrun.
  split; [|split; [|split]].
  - intros r. pose proof (run_count this _ st _ r Hrun) as Hc.
    split; [unfold getMessageCount; lia|].
    intros k Hk. unfold getMessageCount in Hk.
    rewrite <- (N2Nat.id k), !getMessageAt_entry.
    rewrite (run_kept this _ st _ r (N.to_nat k) Hrun) by lia. reflexivity.
  - intros h p H. apply (run_acl this _ st _ Hrun). now left.
  - destruct (run_logs this _ st _ Hrun) as (evs & Hl & _). now exists evs.
  - intros h p H Hn. apply (run_acl this _ st _ Hrun) in H
      as [H | (c & Hc & Hk & Hp)]; [contradiction|].
    apply list_elem_of_filter in Hc as [Ha Hc]. now exists c.
Qed.

End Histories.

(** Three calls, the second with an empty ciphertext. *)
Lemma replay_accepted_calls_witness :
  getMessageCount
    (replay (F:=SampleChain.fhevm) SampleChain.contract deployed
       [SampleChain.to_bob 5 [x41] 10; SampleChain.to_bob 6 [] 11;
        SampleChain.to_bob 7 [x42] 12]) SampleChain.bob
  = 2%N.
Proof.
  destruct (@replay_accepted_calls SampleChain.fhevm SampleChain.contract deployed
              [SampleChain.to_bob 5 [x41] 10; SampleChain.to_bob 6 [] 11;
               SampleChain.to_bob 7 [x42] 12]) as (_ & _ & _ & H & _).
  rewrite H. reflexivity.
Defined.

(** The event of the second of two calls. *)
Lemma event_points_to_record_witness :
  exists st,
    run (F:=SampleChain.fhevm) SampleChain.contract deployed
      [SampleChain.to_bob 5 [x41] 10; SampleChain.to_bob 6 [x42] 11] = Some st
    /\ logs st !! 1%nat = Some (MessageSent SampleChain.alice SampleChain.bob 1)
    /\ getMessageAt st SampleChain.bob 1
       = Some (SampleChain.alice, [x42], 6%N, 11%N).
Proof.
  destruct (run (F:=SampleChain.fhevm) SampleChain.contract deployed
              [SampleChain.to_bob 5 [x41] 10; SampleChain.to_bob 6 [x42] 11])
    as [st|] eqn:Hrun; [|vm_compute in Hrun; discriminate Hrun].
  exists st. split; [reflexivity|].
  destruct (@event_points_to_record SampleChain.fhevm SampleChain.contract _ st Hrun)
    as [_ H].
  destruct (H 1%nat (SampleChain.to_bob 6 [x42] 11) eq_refl)
    as (k & Hl & Hk & record & Hs & Hg).
  assert (Ek : k = 1%N).
  { vm_compute in Hrun. injection Hrun as <-. cbn in Hl. now injection Hl as <-. }
  subst k. split; [exact Hl|].
  change (getMessageAt st SampleChain.bob 1 = Some (SampleChain.alice, [x42], 6%N, 11%N)).
  change (c_recipient (SampleChain.to_bob 6 [x42] 11)) with SampleChain.bob in Hg.
  rewrite Hg, <- Hs. reflexivity.
Defined.

(** ** From the composer to the inbox *)

Section Pipeline.
Context {P : Platform} {L : PlatformLaws P} {W : Wallet} {R : Relayer}
        {S : Composer.Sender}.

(** The payload of a submitted transaction is the trimmed message under the
    one-time address. *)
Lemma handleSend_submitted h f g s to payload handle proof :
  (forall m, length (keccak256 m) = 32%nat) ->
  In (Composer.Submitted s to payload handle proof)
     (snd (Composer.handleSend h f g)) ->
  let id := drop 12 (keccak256 (drop 1 (fst (createRandom g)))) in
  exists g1,
    encryptMessage (trim (Composer.message f))
      (Ethers.getChecksumAddress (address_of_bytes id)) (snd (createRandom g))
    = (Ok payload, g1).
Proof.
  intros Hk Hin id.
  destruct (handleSend_cases h f g) as [[text E] | (address & sg & E)];
    rewrite E in Hin; cbn [snd] in Hin; [destruct Hin|].
  unfold Composer.attempt in Hin. destruct sg as [signer|]; [|destruct Hin].
  destruct (generateEphemeralAddress_ok g Hk) as [_ Hg]. fold id in Hg.
  rewrite Hg in Hin.
  change (Composer.message (Composer.cleared f)) with (Composer.message f) in Hin.
  destruct (encryptMessage (trim (Composer.message f)) _ (snd (createRandom g)))
    as [[payload'|e] g1]; [|destruct Hin].
  exists g1.
  destruct (Composer.encrypt_address _ _ _) as [input|e];
    [|destruct Hin as [Hin|[]]; discriminate Hin].
  destruct (normalizeAddress _) as [to'|e];
    [|destruct Hin as [Hin|[]]; discriminate Hin].
  assert (Hp : payload' = payload).
  { destruct (Composer.contract_sendMessage _ _ _ _ _) as [tx|e];
      [destruct (Composer.tx_wait tx) as [receipt|e]|];
      cbn [snd] in Hin;
      repeat (destruct Hin as [Hin|Hin]; [try discriminate Hin; now injection Hin|]);
      destruct Hin. }
  now rewrite Hp.
Qed.

(** X28: from the composer to the inbox.  If [handleSend] has submitted a
    transaction for a well-formed text, a record holds the payload of that
    transaction, and the relayer answers the recipient's request for the
    handle of the record with the one-time identifier of that click (as a
    number or as an address), then [handleDecrypt] on the record shows no
    error and stores, under the index of the record, the trimmed text that
    was typed. *)
Theorem sent_text_is_shown hs f g s to payload handle proof
    hr item u w reader signer v :
  (forall m, length (keccak256 m) = 32%nat) ->
  code_units (Composer.message f) -> isWellFormed (Composer.message f) = true ->
  In (Composer.Submitted s to payload handle proof)
     (snd (Composer.handleSend hs f g)) ->
  encryptedMessage item = payload ->
  account hr = Some reader -> reader <> [] ->
  instance_ready hr = true -> signerPromise hr = Some (Some signer) ->
  (forall data, exists signature, signTypedData signer data = Ok signature) ->
  (forall r,
     handleContractPairs r = [(encryptedKey item, CONTRACT_ADDRESS)] ->
     userAddress r = reader ->
     exists result,
       userDecrypt r = Ok result
       /\ lookup_key (encryptedKey item) result = Some v) ->
  let id := drop 12 (keccak256 (drop 1 (fst (createRandom g)))) in
  v = VBigInt (be_value id) \/ v = VString (hex_of_bytes id)
  \/ v = VString (address_of_bytes id)
  \/ v = VString (Ethers.getChecksumAddress (address_of_bytes id)) ->
  let u' := fst (fst (handleDecrypt hr item u w)) in
  error u' = None
  /\ forall k x,
       messages u !! k = Some x -> index x = index item ->
       exists x',
         messages u' !! k = Some x'
         /\ decryptedMessage x' = Some (trim (Composer.message f))
         /\ decrypting x' = Some false.
Proof.
  intros Hk Hu Hw Hin Hitem Ha Hne Hi Hs Hsign Hrel id Hv u'. subst u'.
  destruct (handleSend_submitted hs f g s to payload handle proof Hk Hin) as [g1 He].
  fold id in He. rewrite <- Hitem in He.
  assert (Hl : length id = 20%nat) by (unfold id; rewrite length_drop, Hk; reflexivity).
  rewrite (handleDecrypt_opens hr item u w reader signer id
             (trim (Composer.message f)) v (snd (createRandom g)) g1
             (Ethers.getChecksumAddress (address_of_bytes id)));
    try assumption; [|now right|now apply TextDecoder_decode_encode_trim].
  split; [reflexivity|]. unfold setDecrypted. cbn [messages].
  intros k x Hx Hix. rewrite list_lookup_fmap, Hx. cbn [fmap option_fmap option_map].
  rewrite Hix, Z.eqb_refl. eexists. split; [reflexivity|]. now split.
Qed.

End Pipeline.

(** The draft of the sample composer, read in the sample inbox. *)
Lemma sent_text_is_shown_witness :
  exists x',
    messages
      (fst (fst (handleDecrypt (P:=Sample.platform) (R:=SampleInbox.relayer)
                   SampleInbox.connected (SampleNote.record SampleNote.sent)
                   {| messages := [SampleNote.record SampleNote.sent];
                      error := None |}
                   SampleInbox.start))) !! 0%nat
    = Some x'
    /\ decryptedMessage x' = Some (lit "Hello").
Proof.
  destruct (@sent_text_is_shown Sample.platform sample_laws SampleWallet.wallet
              SampleInbox.relayer SampleSender.sender
              SampleInbox.connected SampleSender.draft Sample.zero_tape
              (lit "a1") (lit "0x00000000000000000000000000000000000000b2")
              SampleNote.sent
              (Some (map to_uint8 (lit "0x0000000000000000000000000000000000001111")))
              [x01]
              SampleInbox.connected (SampleNote.record SampleNote.sent)
              {| messages := [SampleNote.record SampleNote.sent]; error := None |}
              SampleInbox.start
              (lit "0x00000000000000000000000000000000000000a1") (lit "a1")
              (VBigInt 0x1111))
    as (_ & H).
  - intros m. apply (@sha256_length Sample.platform sample_laws).
  - unfold code_units. apply Forall_forall. intros c Hc.
    apply list_elem_of_In in Hc. vm_compute in Hc.
    repeat (destruct Hc as [<- | Hc]; [lia|]). destruct Hc.
  - reflexivity.
  - vm_compute. right. left. reflexivity.
  - reflexivity.
  - reflexivity.
  - discriminate.
  - reflexivity.
  - reflexivity.
  - intros data. eexists. reflexivity.
  - apply sample_relayer_answers.
  - left. vm_compute. reflexivity.
  - destruct (H 0%nat (SampleNote.record SampleNote.sent) eq_refl eq_refl)
      as (x' & Hx & Hm & _).
    exists x'. split; [exact Hx|]. rewrite Hm. vm_compute. reflexivity.
Defined.


(** ** Payloads without padding *)

(** The base64 text of a byte sequence, without its padding. *)
Lemma strip_padding_base64 bs :
  strip_padding (base64 bs) = map b64_char (sextets (map byte_val bs)).
Proof. apply strip_padding_encode, Forall_octet_byte_val. Qed.

Lemma unpadded_no_dot bs :
  Forall (fun c => c <> dot) (strip_padding (base64 bs)).
Proof.
  rewrite strip_padding_base64. apply Forall_fmap.
  eapply Forall_impl; [apply sextets_range, Forall_octet_byte_val|].
  intros v Hv. cbn. now destruct (b64_char_plain v Hv) as (_ & H & _).
Qed.

Lemma base64ToBytes_unpadded bs :
  base64ToBytes (strip_padding (base64 bs)) = Ok bs.
Proof.
  rewrite strip_padding_base64. unfold base64ToBytes.
  rewrite atob_unpadded by apply Forall_octet_byte_val.
  cbn. now rewrite map_to_uint8_byte_val.
Qed.

Lemma split_three a b c :
  Forall (fun x => x <> dot) a -> Forall (fun x => x <> dot) b ->
  Forall (fun x => x <> dot) c ->
  split dot (a ++ [dot] ++ b ++ [dot] ++ c) = [a; b; c].
Proof.
  intros Ha Hb Hc. cbn [app]. rewrite split_app by assumption.
  rewrite split_app by assumption. now rewrite split_plain.
Qed.

(** X29: the fields of a payload need no padding.  For every message and
    valid address, the payload [encryptMessage] returns is opened as well
    when the padding is taken off its three fields: [decryptMessage] gives
    the same text for the two strings, which are different strings, since
    the tag of every payload is padded (24 characters, 22 without). *)
Theorem decryptMessage_unpadded {P : Platform} {L : PlatformLaws P} m i g :
  isValidAddress i = true ->
  exists iv body tag g',
    encryptMessage m i g
    = (Ok (base64 iv ++ [dot] ++ base64 body ++ [dot] ++ base64 tag), g')
    /\ decryptMessage
         (strip_padding (base64 iv) ++ [dot] ++ strip_padding (base64 body)
          ++ [dot] ++ strip_padding (base64 tag)) i
       = decryptMessage
           (base64 iv ++ [dot] ++ base64 body ++ [dot] ++ base64 tag) i
    /\ decryptMessage
         (base64 iv ++ [dot] ++ base64 body ++ [dot] ++ base64 tag) i
       = Ok (TextDecoder_decode (TextEncoder_encode m))
    /\ length (strip_padding (base64 tag)) = 22%nat
    /\ length (base64 tag) = 24%nat.
Proof.
  intros Hv.
  destruct (encryptMessage_ok m i g Hv)
    as (key & iv & body & tag & g' & He & Hg & Hk & Hkl & Hc & Ht).
  exists iv, body, tag, g'. split; [exact He|].
  assert (Hd : decryptMessage
                 (base64 iv ++ [dot] ++ base64 body ++ [dot] ++ base64 tag) i
               = Ok (TextDecoder_decode (TextEncoder_encode m))).
  { rewrite (decryptMessage_wire _ _ _ _ key Hk).
    now rewrite (aes_gcm_decrypt_encrypt _ _ _ _ _ Hc). }
  split; [|split; [exact Hd|]].
  - rewrite Hd.
    rewrite (decryptMessage_fields _ i _ _ _ iv body tag key
               (split_three _ _ _ (unpadded_no_dot iv) (unpadded_no_dot body)
                  (unpadded_no_dot tag))
               (base64ToBytes_unpadded iv) (base64ToBytes_unpadded body)
               (base64ToBytes_unpadded tag) Hk).
    now rewrite (aes_gcm_decrypt_encrypt _ _ _ _ _ Hc).
  - split; [|now rewrite length_base64, Ht].
    rewrite strip_padding_base64, length_map.
    do 17 (destruct tag as [|? tag]; try discriminate Ht). reflexivity.
Qed.

(** The payload of the sample platform for "Hi!", with and without the
    padding of its tag. *)
Lemma decryptMessage_unpadded_witness :
  decryptMessage (P:=Sample.platform)
    (lit "AAAAAAAAAAAAAAAA.SGkh.EREREREREREREREREREREQ") Sample.address1
  = decryptMessage (P:=Sample.platform)
      (lit "AAAAAAAAAAAAAAAA.SGkh.EREREREREREREREREREREQ==") Sample.address1.
Proof.
  destruct (@decryptMessage_unpadded Sample.platform sample_laws (lit "Hi!")
              Sample.address1 Sample.zero_tape eq_refl)
    as (iv & body & tag & g' & He & Hd & _).
  assert (Hp : fst (encryptMessage (P:=Sample.platform) (lit "Hi!")
                      Sample.address1 Sample.zero_tape)
               = Ok (lit "AAAAAAAAAAAAAAAA.SGkh.EREREREREREREREREREREQ=="))
    by (vm_compute; reflexivity).
  rewrite He in Hp. cbn [fst] in Hp. injection Hp as Hp.
  assert (Hl : JS.split dot (lit "AAAAAAAAAAAAAAAA.SGkh.EREREREREREREREREREREQ==")
               = [lit "AAAAAAAAAAAAAAAA"; lit "SGkh";
                  lit "EREREREREREREREREREREQ=="])
    by (vm_compute; reflexivity).
  assert (E : [base64 iv; base64 body; base64 tag]
              = [lit "AAAAAAAAAAAAAAAA"; lit "SGkh"; lit "EREREREREREREREREREREQ=="]).
  { rewrite <- Hl, <- Hp. symmetry.
    apply split_three; apply base64_no_dot. }
  injection E as E1 E2 E3. rewrite E1, E2, E3 in Hd. exact Hd.
Defined.
